(** * Lead-generation route: a shallow embedding of [POST /api/generate-leads]

    The development follows the route handler that sources leads through an
    Apify actor (directly for the Apollo method, after a Google search for the
    search-derived method), maps the scraped records to the lead shape, scores
    them with a chat model and stores them in Supabase.

    JavaScript values are embedded as [jsval]; objects are finite maps from
    property names to values.  Every outbound call is answered by an oracle of
    the [world] record and leaves an [event] in the run's log, so that "what
    the handler did" is the pair of its response and its log. *)

From stdpp Require Import gmap strings list fin_maps pretty.
From Stdlib Require Import Ascii ZArith Lia.

#[local] Set Warnings "-register-all".
#[local] Open Scope Z_scope.

(** ** JavaScript values *)

Module Js.

(** The JSON values a scraper, the chat model or the request body can hold,
  plus [undefined] for an absent property.  Numbers are the integers of
  magnitude below 10^21, which are the numbers ToString prints in full; a
  fraction and a number of 10^21 or more have no counterpart here. *)
Inductive jsval : Type :=
| JUndefined
| JNull
| JBool (b : bool)
| JNum (n : Z)
| JStr (s : string)
| JArr (items : list jsval)
| JObj (fields : gmap string jsval).

(** A thrown [Error] ([TypeError] and [SyntaxError] included); only its
    [message] is ever observed by the handler. *)
Record exn : Type := JsError { message : string }.

(** ToBoolean: what [!v], [v || d] and [if (v)] test. *)
Definition truthy (v : jsval) : bool :=
match v with
| JUndefined | JNull => false
| JBool b => b
| JNum n => negb (n =? 0)
| JStr s => negb (String.eqb s "")
| JArr _ | JObj _ => true
end.

(** [a || b] *)
Definition js_or (a b : jsval) : jsval := if truthy a then a else b.

(** [v === 'lit'] *)
Definition is_str (lit : string) (v : jsval) : bool :=
match v with JStr s => String.eqb s lit | _ => false end.

(** [v.k] on a value that is neither [null] nor [undefined].  The handler only
  reads named data properties, which primitives and arrays do not have. *)
Definition get (v : jsval) (k : string) : jsval :=
match v with
| JObj m => default JUndefined (m !! k)
| _ => JUndefined
end.

Definition nullish (v : jsval) : bool :=
match v with JUndefined | JNull => true | _ => false end.

(** ToString, as a template literal [`${v}`] or [Array.prototype.join] applies
  it.  Array elements that are [null] or [undefined] print as nothing.  An
  object prints as [[object Object]]; the one object for which ToString
  throws instead, an object with a [toString] property of its own, is told
  apart by [printable] below. *)
Fixpoint to_string (v : jsval) : string :=
match v with
| JUndefined => "undefined"
| JNull => "null"
| JBool true => "true"
| JBool false => "false"
| JNum n => pretty n
| JStr s => s
| JArr items =>
    String.concat ","
      (map (fun x => if nullish x then "" else to_string x) items)
| JObj _ => "[object Object]"
end.

(** [items.join(sep)] *)
Definition join (sep : string) (items : list jsval) : string :=
String.concat sep (map (fun x => if nullish x then "" else to_string x) items).

(** Whether ToString of the value succeeds and is what [to_string] gives:
  always, except for an object with a [toString] property of its own (then
  the conversion throws a [TypeError]) and for a number out of the range
  above, also inside an array. *)
Fixpoint printable (v : jsval) : bool :=
match v with
| JObj fields => bool_decide (fields !! "toString" = None)
| JArr items => forallb printable items
| JNum n => Z.abs n <? 10 ^ 21
| _ => true
end.

(** Strings are byte strings: the text in UTF-8, where a lone surrogate,
  which a JavaScript string may hold, is the three bytes [ED A0..BF 80..BF]
  its code point would have. *)
Definition bytes (l : list nat) : string :=
String.string_of_list_ascii (map ascii_of_nat l).

(** A byte that continues a code point. *)
Definition continuation (c : ascii) : bool :=
(128 <=? nat_of_ascii c)%nat && (nat_of_ascii c <=? 191)%nat.

(** The code points of a string, each as its bytes: what [[...s]] and the
  string iterator yield. *)
Fixpoint code_points (s : string) : list string :=
match s with
| EmptyString => []
| String c rest =>
    let points := code_points rest in
    match rest, points with
    | String d _, group :: groups =>
        if continuation d then String c group :: groups
        else String c EmptyString :: points
    | _, _ => String c EmptyString :: points
    end
end.

(** WhiteSpace and LineTerminator of the language: tab, line feed, vertical
  tab, form feed, carriage return, space, U+00A0, U+1680, U+2000 to U+200A,
  U+2028, U+2029, U+202F, U+205F, U+3000 and U+FEFF. *)
Definition white_space : list string :=
map bytes
  [[9]; [10]; [11]; [12]; [13]; [32]; [194; 160]; [225; 154; 128];
   [226; 128; 128]; [226; 128; 129]; [226; 128; 130]; [226; 128; 131];
   [226; 128; 132]; [226; 128; 133]; [226; 128; 134]; [226; 128; 135];
   [226; 128; 136]; [226; 128; 137]; [226; 128; 138]; [226; 128; 168];
   [226; 128; 169]; [226; 128; 175]; [226; 129; 159]; [227; 128; 128];
   [239; 187; 191]]%nat.

Definition is_space (point : string) : bool :=
existsb (String.eqb point) white_space.

Fixpoint trim_start (points : list string) : list string :=
match points with
| [] => []
| point :: rest => if is_space point then trim_start rest else points
end.

Definition trim_end (points : list string) : list string :=
rev (trim_start (rev points)).

(** [s.trim()] *)
Definition trim (s : string) : string :=
String.concat "" (trim_end (trim_start (code_points s))).

(** [s.includes(sub)] *)
Definition includes (s sub : string) : bool :=
match String.index 0 sub s with Some _ => true | None => false end.

End Js.
Import Js.

(** ** Effects: the run's log, thrown errors and generated values *)

(** What the handler does to the outside, in the order it does it.
    [console.log] lines are left out; [console.error] lines are kept because
    they are all that remains of a swallowed failure. *)
Inductive event : Type :=
  | EFetch (method url : string) (body : option jsval)
  | ESleep (ms : Z)
  | EChat (profile : gmap string jsval)
  | EInsert (table : string) (rows : list (gmap string jsval))
  | ELog (label : string).

Record state : Type := mkState {
  log : list event;      (* chronological *)
  uuids : nat;           (* calls of [randomUUID] so far *)
  dates : nat            (* calls of [new Date()] so far *)
}.

Definition init : state := mkState [] 0 0.

(** A computation that may throw: the result or the thrown error, and the
    state either way. *)
Definition M (A : Type) : Type := state -> (exn + A) * state.

Definition ret {A} (a : A) : M A := fun st => (inr a, st).

Definition throw {A} (e : exn) : M A := fun st => (inl e, st).

Definition bind {A B} (m : M A) (k : A -> M B) : M B :=
  fun st =>
    match m st with
    | (inr a, st') => k a st'
    | (inl e, st') => (inl e, st')
    end.

(** [try { m } catch (error) { handler(error) }] *)
Definition try_catch {A} (m : M A) (handler : exn -> M A) : M A :=
  fun st =>
    match m st with
    | (inr a, st') => (inr a, st')
    | (inl e, st') => handler e st'
    end.

Declare Scope js_scope.
Delimit Scope js_scope with js.
Notation "x <-- m ;; k" := (bind m (fun x => k))
  (at level 100, m at next level, right associativity) : js_scope.
Notation "m ;;; k" := (bind m (fun _ => k))
  (at level 100, right associativity) : js_scope.
#[local] Open Scope js_scope.

Definition emit (e : event) : M unit :=
  fun st => (inr tt, mkState (log st ++ [e]) (uuids st) (dates st)).

(** [array.map(f)] for a callback with effects, left to right. *)
Fixpoint map_M {A B} (f : A -> M B) (l : list A) : M (list B) :=
  match l with
  | [] => ret []
  | x :: rest => y <-- f x ;; ys <-- map_M f rest ;; ret (y :: ys)
  end.

(** ** The outside world *)

(** What [await response.json()] gives: the parsed body, or the rejection. *)
Record http_response : Type := mkResponse {
  ok : bool;
  status : Z;
  statusText : string;
  json : exn + jsval
}.

(** The reply of the chat model to one completion request. *)
Inductive chat_reply : Type :=
  | ChatRejects (e : exn)     (* the call rejects: network, HTTP error, no [choices] *)
  | ChatNoContent             (* [choices[0]?.message?.content] is empty or missing *)
  | ChatNotJson (e : exn)     (* the content is text that [JSON.parse] rejects with [e] *)
  | ChatJson (result : jsval) (* [JSON.parse(content)] is [result] *).

(** The reply of [supabase.from('leads').insert(rows)]. *)
Inductive insert_reply : Type :=
  | InsertThrows (e : exn)
  | InsertReturns (error : jsval).

(** Configuration and collaborators of one run.  [fetch], [chat] are asked
    with the number of earlier requests of the same kind ([nth]), so that a
    status URL may answer differently from one poll to the next. *)
Record world : Type := mkWorld {
  OPENAI_API_KEY : option string;
  GOOGLE_API_KEY : option string;
  GOOGLE_CSE_ID : option string;
  APIFY_API_TOKENS : list string;
  fetch : string -> string -> option jsval -> nat -> exn + http_response;
  chat : gmap string jsval -> nat -> chat_reply;
  supabase_insert : list (gmap string jsval) -> insert_reply;
  randomUUID : nat -> string;
  now : nat -> string
}.

(** An environment variable is truthy when set to a non-empty string. *)
Definition configured (v : option string) : bool :=
  match v with Some s => negb (String.eqb s "") | None => false end.

Definition env_str (v : option string) : string := default "undefined" v.

Section Effects.
Context (w : world).

Definition fresh_uuid : M string :=
  fun st => (inr (randomUUID w (uuids st)),
             mkState (log st) (S (uuids st)) (dates st)).

(** [new Date().toISOString()] *)
Definition iso_now : M string :=
  fun st => (inr (now w (dates st)),
             mkState (log st) (uuids st) (S (dates st))).

(** [await fetch(url, { method, body })] *)
Definition do_fetch (method url : string) (body : option jsval) (nth : nat)
  : M http_response :=
  emit (EFetch method url body) ;;;
  match fetch w method url body nth with
  | inl e => throw e
  | inr r => ret r
  end.

(** [await response.json()] *)
Definition read_json (r : http_response) : M jsval :=
  match json r with inl e => throw e | inr v => ret v end.

(** [v.k], which throws a [TypeError] on [null] and [undefined].  The wording
    of an error raised by the engine itself is the engine's; the model fixes
    one. *)
Definition prop (v : jsval) (k : string) : M jsval :=
  if nullish v
  then throw (JsError ("Cannot read properties of " +:+ to_string v))
  else ret (get v k).

End Effects.

(** ** Building the provider queries *)

(** The search parameters handed to the two sourcing functions. *)
Record query : Type := mkQuery {
  jobTitles : jsval;
  locations : jsval;
  industries : jsval;
  companySizes : jsval;
  keywords : jsval;
  limit : jsval
}.

Definition hex_digit (n : nat) : ascii :=
  ascii_of_nat (if (n <? 10)%nat then 48 + n else 55 + n).

Definition unreserved (c : ascii) : bool :=
  let n := nat_of_ascii c in
  ((48 <=? n) && (n <=? 57) || (65 <=? n) && (n <=? 90)
   || (97 <=? n) && (n <=? 122))%nat
  || bool_decide (c ∈ ["-"; "_"; "."; "!"; "~"; "*"; "'"; "("; ")"]%char).

(** The escaping [encodeURIComponent] does: every byte of the UTF-8 text
    outside the unreserved set becomes [%XX]. *)
Fixpoint escape (s : string) : string :=
  match s with
  | EmptyString => EmptyString
  | String c rest =>
      if unreserved c then String c (escape rest)
      else
        let n := nat_of_ascii c in
        String "%" (String (hex_digit (n / 16)) (String (hex_digit (n mod 16))
          (escape rest)))
  end.

(** Whether the string holds a surrogate that is not part of a pair: the
    byte [ED] followed by a byte from [A0] to [BF]. *)
Fixpoint lone_surrogate (s : string) : bool :=
  match s with
  | EmptyString => false
  | String c rest =>
      match rest with
      | String d _ =>
          (nat_of_ascii c =? 237)%nat && (160 <=? nat_of_ascii d)%nat
          && (nat_of_ascii d <=? 191)%nat
      | EmptyString => false
      end || lone_surrogate rest
  end.

(** [encodeURIComponent(s)], which throws a [URIError] on a lone surrogate. *)
Definition encodeURIComponent (s : string) : M string :=
  if lone_surrogate s then throw (JsError "URI malformed") else ret (escape s).

(** [s.replace('+', ' ')]: a string pattern replaces its first match only. *)
Fixpoint replace_plus (s : string) : string :=
  match s with
  | EmptyString => EmptyString
  | String c rest =>
      if Ascii.eqb c "+" then String " " rest else String c (replace_plus rest)
  end.

(** [v.length].  The length of a string counts its bytes; only whether it
    is zero is ever looked at. *)
Definition length_of (v : jsval) : jsval :=
  match v with
  | JArr items => JNum (Z.of_nat (length items))
  | JStr s => JNum (Z.of_nat (String.length s))
  | _ => get v "length"
  end.

(** A digit of the given base. *)
Definition digit_of (base : Z) (c : ascii) : option Z :=
  let n := Z.of_nat (nat_of_ascii c) in
  let d := if (48 <=? n) && (n <=? 57) then n - 48
           else if (97 <=? n) && (n <=? 102) then n - 87
           else if (65 <=? n) && (n <=? 70) then n - 55
           else base in
  if d <? base then Some d else None.

(** The digits a string starts with, read as a number after [acc]: the
    number, how many digits there were, and the rest of the string. *)
Fixpoint take_digits (base : Z) (s : string) (acc : Z) (count : nat)
  : Z * nat * string :=
  match s with
  | EmptyString => (acc, count, s)
  | String c rest =>
      match digit_of base c with
      | Some d => take_digits base rest (acc * base + d) (S count)
      | None => (acc, count, s)
      end
  end.

(** Whether [m * 10^e] is rounded to a number above zero: it is, unless it
    is at most half the smallest number, 2^-1075. *)
Definition positive_scaled (m e : Z) : bool :=
  (0 <? m) && (if 0 <=? e then true else 10 ^ (- e) <? m * 2 ^ 1075).

(** An unsigned decimal literal ([12], [1.5], [.5], [5.], [1e-3]) above
    zero. *)
Definition decimal_positive (t : string) : bool :=
  let '(whole, n_whole, r1) := take_digits 10 t 0 0 in
  let '(mantissa, n_fraction, r2) :=
    match r1 with
    | String "." r => take_digits 10 r whole 0
    | _ => (whole, 0%nat, r1)
    end in
  if (n_whole + n_fraction =? 0)%nat then false
  else
    match r2 with
    | EmptyString => positive_scaled mantissa (- Z.of_nat n_fraction)
    | String c r3 =>
        if Ascii.eqb c "e" || Ascii.eqb c "E" then
          let '(negative, r4) :=
            match r3 with
            | String "-" r => (true, r)
            | String "+" r => (false, r)
            | _ => (false, r3)
            end in
          let '(exponent, n_exponent, r5) := take_digits 10 r4 0 0 in
          if (n_exponent =? 0)%nat || negb (String.eqb r5 "") then false
          else positive_scaled mantissa
                 ((if negative then - exponent else exponent) - Z.of_nat n_fraction)
        else false
    end.

(** A run of digits of the base, and nothing else, with a value above zero. *)
Definition radix_positive (base : Z) (t : string) : bool :=
  let '(value, n, rest) := take_digits base t 0 0 in
  negb (n =? 0)%nat && String.eqb rest "" && (0 <? value).

(** [s > 0] for a string: ToNumber of the string is above zero. *)
Definition string_positive (s : string) : bool :=
  let unsigned t := String.eqb t "Infinity" || decimal_positive t in
  match trim s with
  | String "-" _ => false
  | String "+" t => unsigned t
  | String "0" (String c t) as whole =>
      if Ascii.eqb c "x" || Ascii.eqb c "X" then radix_positive 16 t
      else if Ascii.eqb c "o" || Ascii.eqb c "O" then radix_positive 8 t
      else if Ascii.eqb c "b" || Ascii.eqb c "B" then radix_positive 2 t
      else unsigned whole
  | whole => unsigned whole
  end.

(** [v > 0]: ToNumber of the value is above zero. *)
Definition positive (v : jsval) : bool :=
  match v with
  | JNum n => 0 <? n
  | JBool b => b
  | JStr s => string_positive s
  | JArr _ => string_positive (to_string v)
  | _ => false
  end.

(** [v && v.length > 0] *)
Definition has_items (v : jsval) : bool :=
  truthy v && positive (length_of v).

(** [!v || v.length === 0] *)
Definition lacks_items (v : jsval) : bool :=
  negb (truthy v) ||
  match length_of v with JNum n => n =? 0 | _ => false end.

(** [addArrayParams(paramName, values)]: the parts it pushes, or the
    [TypeError] of calling [forEach] or [replace] on something without it,
    or the [URIError] of the encoding. *)
Definition addArrayParams (paramName : string) (values : jsval) : M (list string) :=
  match values with
  | JArr items =>
      map_M (fun val =>
               match val with
               | JStr s =>
                   encoded <-- encodeURIComponent (replace_plus s) ;;
                   ret (paramName +:+ "[]=" +:+ encoded)
               | _ =>
                   if nullish val
                   then throw (JsError ("Cannot read properties of " +:+ to_string val))
                   else throw (JsError "val.replace is not a function")
               end) items
  | _ => throw (JsError "values.forEach is not a function")
  end.

Definition array_clause (paramName : string) (values : jsval) : M (list string) :=
  if has_items values then addArrayParams paramName values else ret [].

Definition employeeRanges : jsval :=
  JArr [JStr "1,10"; JStr "11,20"; JStr "21,50"; JStr "51,100"; JStr "101,200"].

Definition generateApolloUrl (queryData : query) : M string :=
  titles <-- array_clause "personTitles" (jobTitles queryData) ;;
  places <-- array_clause "personLocations" (locations queryData) ;;
  tags <-- array_clause "qOrganizationKeywordTags" (industries queryData) ;;
  sizes <-- array_clause "organizationNumEmployeesRanges" (companySizes queryData) ;;
  defaults <-- (if lacks_items (companySizes queryData)
                then addArrayParams "organizationNumEmployeesRanges" employeeRanges
                else ret []) ;;
  kw <-- (if truthy (keywords queryData)
          then encoded <-- encodeURIComponent (to_string (keywords queryData)) ;;
               ret ["qKeywords=" +:+ encoded]
          else ret []) ;;
  let queryParts :=
    ["sortByField=recommendations_score"; "sortAscending=false"; "page=1"]
    ++ titles ++ places ++ tags ++ sizes
    ++ ["includedOrganizationKeywordFields[]=tags";
        "includedOrganizationKeywordFields[]=name"]
    ++ defaults ++ kw in
  ret ("https://app.apollo.io/#/people?" +:+ String.concat "&" queryParts).

(** ** Normalizing scraped records *)

(** A lead is a plain object. *)
Abbreviation lead := (gmap string jsval).

(** [`${record.firstName || ''} ${record.lastName || ''}`.trim()] *)
Definition composed_name (record : jsval) : string :=
  trim (to_string (js_or (get record "firstName") (JStr ""))
        +:+ " " +:+
        to_string (js_or (get record "lastName") (JStr ""))).

(** The object literal of the [results.map] callback in [searchApolloLeads],
    for a [person] that is an object, with the generated [id] and [createdAt]
    passed in. *)
Definition apolloLead (id createdAt : string) (person : jsval) : lead :=
  list_to_map [
    ("id", JStr id);
    ("firstName", js_or (get person "firstName") (JStr ""));
    ("lastName", js_or (get person "lastName") (JStr ""));
    ("fullName", js_or (get person "fullName") (JStr (composed_name person)));
    ("email", js_or (get person "email") (JStr ""));
    ("jobTitle", js_or (js_or (get person "jobTitle") (get person "headline")) (JStr ""));
    ("companyName", js_or (get person "companyName") (JStr ""));
    ("companyIndustry", js_or (get person "companyIndustry") (JStr ""));
    ("companySize", js_or (get person "companySize") (JStr ""));
    ("location", js_or (get person "location") (JStr ""));
    ("linkedin_url", js_or (js_or (get person "linkedinUrl") (get person "profileUrl")) (JStr ""));
    ("createdAt", JStr createdAt);
    ("email_status", JStr "not_sent")
  ].

(** The object literal of the [results.map] callback in [searchGoogleLeads]. *)
Definition googleLead (id createdAt : string) (profile : jsval) : lead :=
  list_to_map [
    ("id", JStr id);
    ("firstName", js_or (get profile "firstName") (JStr ""));
    ("lastName", js_or (get profile "lastName") (JStr ""));
    ("fullName", js_or (get profile "fullName") (JStr (composed_name profile)));
    ("email", JStr "");
    ("jobTitle", js_or (js_or (get profile "headline") (get profile "position")) (JStr ""));
    ("companyName", js_or (get profile "company") (JStr ""));
    ("companyIndustry", js_or (get profile "industry") (JStr ""));
    ("companySize", JStr "");
    ("location", js_or (get profile "location") (JStr ""));
    ("linkedin_url", js_or (get profile "url") (JStr ""));
    ("createdAt", JStr createdAt);
    ("email_status", JStr "not_sent")
  ].


Section Sourcing.
Context (w : world).

(** One call of a [results.map] callback: the id is drawn first, the first
    property read throws on a [null] element, the timestamp is drawn last. *)
Definition normalize_with (shape : string -> string -> jsval -> lead)
    (record : jsval) : M lead :=
  id <-- fresh_uuid w ;;
  _ <-- prop record "firstName" ;;
  createdAt <-- iso_now w ;;
  ret (shape id createdAt record).

(** [results.map(callback)] *)
Definition map_results (shape : string -> string -> jsval -> lead)
    (results : jsval) : M (list lead) :=
  match results with
  | JArr items => map_M (normalize_with shape) items
  | _ =>
      if nullish results
      then throw (JsError ("Cannot read properties of " +:+ to_string results))
      else throw (JsError "results.map is not a function")
  end.

Definition maxAttempts : nat := 30.

(** The two errors the waiting loop throws itself. *)
Definition timeout_error : exn := JsError "Apify actor run timeout".
Definition job_failed_error : exn := JsError "Apify actor run failed".

Definition run_status_url (actor runId apifyToken : string) : string :=
  "https://api.apify.com/v2/acts/" +:+ actor +:+ "/runs/" +:+ runId
  +:+ "?token=" +:+ apifyToken.

Definition dataset_url (datasetId apifyToken : string) : string :=
  "https://api.apify.com/v2/datasets/" +:+ datasetId +:+ "/items?token="
  +:+ apifyToken.

(** The [// Get results] block: read the run's dataset and map it. *)
Definition collect_results (data : jsval) (apifyToken : string)
    (shape : string -> string -> jsval -> lead) : M (list lead) :=
  resultsResponse <-- do_fetch w "GET"
      (dataset_url (to_string (get data "defaultDatasetId")) apifyToken) None 0 ;;
  results <-- read_json resultsResponse ;;
  map_results shape results.

(** The [while (attempts < maxAttempts)] loop, written the same way in both
    sourcing functions; [remaining] is [maxAttempts - attempts]. *)
Fixpoint wait_for_run (actor runId apifyToken : string)
    (shape : string -> string -> jsval -> lead)
    (remaining attempts : nat) : M (list lead) :=
  match remaining with
  | O => throw timeout_error
  | S remaining' =>
      emit (ESleep 2000) ;;;
      statusResponse <-- do_fetch w "GET" (run_status_url actor runId apifyToken)
                           None attempts ;;
      statusData <-- read_json statusResponse ;;
      data <-- prop statusData "data" ;;
      runStatus <-- prop data "status" ;;
      if is_str "SUCCEEDED" runStatus then
        collect_results data apifyToken shape
      else if is_str "FAILED" runStatus then
        throw job_failed_error
      else
        wait_for_run actor runId apifyToken shape remaining' (S attempts)
  end.

(** Starting an actor run and reading its id. *)
Definition start_run (actor apifyToken : string) (actorInput : jsval) : M string :=
  runResponse <-- do_fetch w "POST"
      ("https://api.apify.com/v2/acts/" +:+ actor +:+ "/runs?token=" +:+ apifyToken)
      (Some actorInput) 0 ;;
  if negb (ok runResponse) then
    throw (JsError ("Apify run failed: " +:+ pretty (status runResponse) +:+ " "
                    +:+ statusText runResponse))
  else
    runData <-- read_json runResponse ;;
    data <-- prop runData "data" ;;
    runId <-- prop data "id" ;;
    ret (to_string runId).

(** [APIFY_API_TOKENS[0]], interpolated into a URL. *)
Definition first_token : string := default "undefined" (head (APIFY_API_TOKENS w)).

Definition apollo_actor : string := "curious_coder~apollo-io-scraper".
Definition linkedin_actor : string := "apify~linkedin-profile-scraper".

Definition extendOutputFunction : string :=
"($) => {
        const result = {};
        return result;
      }".

Definition customMapFunction : string :=
"(object) => {
        return {
          ...object
        };
      }".

(** Apollo.io lead search using the Apify actor. *)
Definition searchApolloLeads (q : query) : M (list lead) :=
  try_catch
    (if bool_decide (APIFY_API_TOKENS w = [])
     then throw (JsError "Apify API tokens not configured")
     else
       apolloUrl <-- generateApolloUrl q ;;
       let apifyToken := first_token in
       let actorInput := JObj (list_to_map [
         ("startUrls", JArr [JObj {[ "url" := JStr apolloUrl ]}]);
         ("maxItems", JNum 25);
         ("extendOutputFunction", JStr extendOutputFunction);
         ("customMapFunction", JStr customMapFunction) ]) in
       runId <-- start_run apollo_actor apifyToken actorInput ;;
       wait_for_run apollo_actor runId apifyToken apolloLead maxAttempts 0)
    (fun error => emit (ELog "Apollo search error:") ;;; throw error).

(** [...(v || [])] inside an array literal.  A string spreads into its
    code points. *)
Definition spread_terms (v : jsval) : M (list jsval) :=
  match js_or v (JArr []) with
  | JArr items => ret items
  | JStr s => ret (map JStr (code_points s))
  | other => throw (JsError (to_string other +:+ " is not iterable"))
  end.

(** [url.includes('linkedin.com/in/')] on whatever [item.link] holds. *)
Definition is_profile_link (url : jsval) : M bool :=
  match url with
  | JStr s => ret (includes s "linkedin.com/in/")
  | JArr items => ret (existsb (is_str "linkedin.com/in/") items)
  | _ =>
      if nullish url
      then throw (JsError ("Cannot read properties of " +:+ to_string url))
      else throw (JsError "url.includes is not a function")
  end.

(** [array.filter(pred)] for a predicate that may throw. *)
Fixpoint filter_M {A} (pred : A -> M bool) (l : list A) : M (list A) :=
  match l with
  | [] => ret []
  | x :: rest =>
      keep <-- pred x ;;
      kept <-- filter_M pred rest ;;
      ret (if keep : bool then x :: kept else kept)
  end.

(** First half of [searchGoogleLeads]: the Google query for profile pages
    and the links kept from its answer, [linkedinUrls].  The early
    [return []] on an answer without items is the empty list of links, which
    the caller returns as [[]] just the same. *)
Definition profile_links (q : query) : M (list jsval) :=
  titles <-- spread_terms (jobTitles q) ;;
  places <-- spread_terms (locations q) ;;
  let kw := if truthy (keywords q) then [keywords q] else [] in
  let searchQuery :=
    join " " (JStr "site:linkedin.com/in/" :: titles ++ places ++ kw) in
  encoded <-- encodeURIComponent searchQuery ;;
  let searchUrl :=
    "https://www.googleapis.com/customsearch/v1?key=" +:+ env_str (GOOGLE_API_KEY w)
    +:+ "&cx=" +:+ env_str (GOOGLE_CSE_ID w)
    +:+ "&q=" +:+ encoded +:+ "&num=10" in
  searchResponse <-- do_fetch w "GET" searchUrl None 0 ;;
  if negb (ok searchResponse) then
    throw (JsError ("Google Search API error: " +:+ pretty (status searchResponse)
                    +:+ " " +:+ statusText searchResponse))
  else
    searchData <-- read_json searchResponse ;;
    items <-- prop searchData "items" ;;
    if lacks_items items then ret []
    else
      match items with
      | JArr found =>
          links <-- map_M (fun item => prop item "link") found ;;
          profileLinks <-- filter_M is_profile_link links ;;
          ret (take 10 profileLinks)
      | _ => throw (JsError "searchData.items.map is not a function")
      end.

Definition enrich_input (linkedinUrls : list jsval) : jsval :=
  JObj (list_to_map [
    ("startUrls", JArr (map (fun url => JObj {[ "url" := url ]}) linkedinUrls));
    ("maxItems", JNum (Z.of_nat (length linkedinUrls))) ]).

(** Second half of [searchGoogleLeads]: the enrichment run over the links. *)
Definition enrich (linkedinUrls : list jsval) : M (list lead) :=
  let apifyToken := first_token in
  runId <-- start_run linkedin_actor apifyToken (enrich_input linkedinUrls) ;;
  wait_for_run linkedin_actor runId apifyToken googleLead maxAttempts 0.

(** Google search + Apify enrichment. *)
Definition searchGoogleLeads (q : query) : M (list lead) :=
  try_catch
    (if negb (configured (GOOGLE_API_KEY w)) || negb (configured (GOOGLE_CSE_ID w))
        || bool_decide (APIFY_API_TOKENS w = [])
     then throw (JsError "Google API key, CSE ID, or Apify tokens not configured")
     else
       linkedinUrls <-- profile_links q ;;
       if bool_decide (linkedinUrls = []) then ret []
       else enrich linkedinUrls)
    (fun error => emit (ELog "Google search error:") ;;; throw error).

End Sourcing.

(** ** ICP scoring *)

Record icp : Type := mkIcp {
  score : jsval;
  grade : jsval;
  reasoning : jsval
}.

(** The object returned from the [catch] block of [scoreProfile]. *)
Definition failure_score : icp :=
  mkIcp (JNum 0) (JStr "D") (JStr "Error during scoring").

(** [{ ...lead, icp_score, icp_grade, icpReasoning }] *)
Definition with_icp (l : lead) (r : icp) : lead :=
  <["icpReasoning" := reasoning r]>
    (<["icp_grade" := grade r]> (<["icp_score" := score r]> l)).

Section Scoring.
Context (w : world).

(** ICP scoring with the chat model; [nth] counts the earlier requests. *)
Definition scoreProfile (profile : lead) (nth : nat) : M icp :=
  try_catch
    (emit (EChat profile) ;;;
     match chat w profile nth with
     | ChatRejects e => throw e
     | ChatNoContent => throw (JsError "No content in OpenAI response")
     | ChatNotJson e => throw e
     | ChatJson result =>
         s <-- prop result "score" ;;
         g <-- prop result "grade" ;;
         r <-- prop result "reasoning" ;;
         ret (mkIcp (js_or s (JNum 0)) (js_or g (JStr "D"))
                    (js_or r (JStr "No reasoning provided")))
     end)
    (fun error => emit (ELog "ICP scoring error:") ;;; ret failure_score).

(** The body of [for (let i = 0; i < leads.length; i++)], from index [i]
    on; [remaining] is [leads.length - i]. *)
Fixpoint score_from (remaining i : nat) (leads : list lead) : M (list lead) :=
  match remaining with
  | O => ret leads
  | S remaining' =>
      let current := default ∅ (leads !! i) in
      leads' <-- try_catch
                   (icpResult <-- scoreProfile current i ;;
                    ret (<[i := with_icp current icpResult]> leads))
                   (fun error =>
                      emit (ELog "Error scoring lead:") ;;;
                      ret (<[i := with_icp current failure_score]> leads)) ;;
      score_from remaining' (S i) leads'
  end.

(** [if (process.env.OPENAI_API_KEY) { for ... }] *)
Definition score_leads (leads : list lead) : M (list lead) :=
  if configured (OPENAI_API_KEY w)
  then score_from (length leads) 0 leads
  else ret leads.

(** [if (leads.length > 0) { try { insert } catch { log } }] *)
Definition save_leads (leads : list lead) : M unit :=
  if bool_decide (leads = []) then ret tt
  else
    try_catch
      (emit (EInsert "leads" leads) ;;;
       match supabase_insert w leads with
       | InsertThrows e => throw e
       | InsertReturns error =>
           if truthy error then emit (ELog "Supabase insert error:") else ret tt
       end)
      (fun error => emit (ELog "Error saving leads to database:")).

End Scoring.

(** ** The route handler *)

(** [NextResponse.json(body, { status })] *)
Record response : Type := mkHttp {
  http_status : Z;
  json_body : jsval
}.

Definition error_body (msg : string) : jsval :=
  JObj (list_to_map [("status", JStr "error"); ("message", JStr msg)]).

(** The body of the final [NextResponse.json({ status: 'success', ... })]. *)
Definition success_response (method : jsval) (leads : list lead)
    (timestamp : string) : response :=
  mkHttp 200 (JObj (list_to_map [
    ("status", JStr "success");
    ("data", JObj (list_to_map [
       ("leads", JArr (map JObj leads));
       ("count", JNum (Z.of_nat (length leads)));
       ("method", method);
       ("timestamp", JStr timestamp) ])) ])).

(** The body of the [catch] block's answer. *)
Definition failure_response (error : exn) (timestamp : string) : response :=
  mkHttp 500 (JObj (list_to_map [
    ("status", JStr "error");
    ("message", JStr (message error));
    ("timestamp", JStr timestamp) ])).

(** [limit = 10] in the destructuring of the body. *)
Definition limit_of (body : jsval) : jsval :=
  match get body "limit" with JUndefined => JNum 10 | v => v end.

(** The argument of [searchApolloLeads] in [POST]. *)
Definition apollo_query (body : jsval) : query :=
  mkQuery (get body "jobTitles") (get body "locations")
          (js_or (get body "industries") (JArr []))
          (js_or (get body "companySizes") (JArr []))
          JUndefined (limit_of body).

(** The argument of [searchGoogleLeads] in [POST]. *)
Definition google_query (body : jsval) : query :=
  mkQuery (get body "jobTitles") (get body "locations")
          (js_or (get body "industries") (JArr []))
          JUndefined JUndefined (limit_of body).

Section Route.
Context (w : world).

(** Everything after sourcing: score, save, answer. *)
Definition complete (method : jsval) (sourced : list lead) : M response :=
  leads <-- score_leads w sourced ;;
  save_leads w leads ;;;
  timestamp <-- iso_now w ;;
  ret (success_response method leads timestamp).

(** The [try] block of [POST]; [request] is what [await request.json()]
    yields. *)
Definition handle (request : exn + jsval) : M response :=
  body <-- (match request with inl e => throw e | inr b => ret b end) ;;
  method <-- prop body "method" ;;
  let jobTitles := get body "jobTitles" in
  let locations := get body "locations" in
  if negb (truthy method) || negb (truthy jobTitles) || negb (truthy locations) then
    ret (mkHttp 400 (error_body "Missing required parameters"))
  else if is_str "apollo" method then
    if bool_decide (APIFY_API_TOKENS w = []) then
      ret (mkHttp 500 (error_body "Apify API tokens not configured"))
    else
      leads <-- searchApolloLeads w (apollo_query body) ;;
      complete method leads
  else if is_str "google_apify" method then
    if negb (configured (GOOGLE_API_KEY w)) || negb (configured (GOOGLE_CSE_ID w))
       || bool_decide (APIFY_API_TOKENS w = []) then
      ret (mkHttp 500 (error_body "Google or Apify API credentials not configured"))
    else
      leads <-- searchGoogleLeads w (google_query body) ;;
      complete method leads
  else
    ret (mkHttp 400 (error_body "Invalid method specified")).

(** [export async function POST(request)]: the [try] block and its [catch].
    Everything thrown in this handler is an [Error], so the answer carries
    its [message]. *)
Definition POST (request : exn + jsval) : M response :=
  try_catch (handle request)
    (fun error =>
       emit (ELog "Lead generation error:") ;;;
       timestamp <-- iso_now w ;;
       ret (failure_response error timestamp)).

End Route.

(** ** Vocabulary for the statements *)

(** The state after further events. *)
Definition logged (st : state) (events : list event) : state :=
  mkState (log st ++ events) (uuids st) (dates st).

(** The state after one more timestamp was drawn. *)
Definition dated (st : state) : state :=
  mkState (log st) (uuids st) (S (dates st)).

(** How one iteration of the waiting loop reads the provider's answer to a
    status request. *)
Inductive poll_view : Type :=
  | PollThrows (e : exn)
  | PollSucceeded (data : jsval)
  | PollFailed
  | PollPending.

Definition view_poll (reply : exn + http_response) : poll_view :=
  match reply with
  | inl e => PollThrows e
  | inr r =>
      match json r with
      | inl e => PollThrows e
      | inr statusData =>
          if nullish statusData
          then PollThrows (JsError ("Cannot read properties of " +:+ to_string statusData))
          else
            let data := get statusData "data" in
            if nullish data
            then PollThrows (JsError ("Cannot read properties of " +:+ to_string data))
            else if is_str "SUCCEEDED" (get data "status") then PollSucceeded data
            else if is_str "FAILED" (get data "status") then PollFailed
            else PollPending
      end
  end.





(** The provider's answer to status request number [k] of a run. *)
Definition poll_at (w : world) (actor runId apifyToken : string) (k : nat) : poll_view :=
  view_poll (fetch w "GET" (run_status_url actor runId apifyToken) None k).

(** One round of the loop in the log. *)
Definition poll_round (actor runId apifyToken : string) : list event :=
  [ESleep 2000; EFetch "GET" (run_status_url actor runId apifyToken) None].

(** A run that is reported [FAILED] before it is ever reported [SUCCEEDED],
    or that stays pending for all [maxAttempts] status requests. *)
Definition run_reported_failed (w : world) (actor runId apifyToken : string) : Prop :=
  exists k, (k < maxAttempts)%nat /\
    poll_at w actor runId apifyToken k = PollFailed /\
    forall j, (j < k)%nat -> poll_at w actor runId apifyToken j = PollPending.

Definition run_timed_out (w : world) (actor runId apifyToken : string) : Prop :=
  forall j, (j < maxAttempts)%nat -> poll_at w actor runId apifyToken j = PollPending.


(** A body that passes the validation of [POST]. *)
Definition valid_request (body : jsval) : Prop :=
  nullish body = false /\ truthy (get body "method") = true /\
  truthy (get body "jobTitles") = true /\ truthy (get body "locations") = true.

(** The sourcing call [POST] makes for a body naming one of the two methods. *)
Definition sourcing (w : world) (body : jsval) : M (list lead) :=
  if is_str "apollo" (get body "method")
  then searchApolloLeads w (apollo_query body)
  else searchGoogleLeads w (google_query body).

Definition known_method (body : jsval) : bool :=
  is_str "apollo" (get body "method") || is_str "google_apify" (get body "method").

(** Sourcing for a valid request returned [leads] and left state [st1]. *)
Definition sourced (w : world) (body : jsval) (st : state)
    (leads : list lead) (st1 : state) : Prop :=
  valid_request body /\ known_method body = true /\
  sourcing w body st = (inr leads, st1).

(** A persistence failure: the insert throws, or returns an error. *)
Definition insert_failed (r : insert_reply) : Prop :=
  match r with
  | InsertThrows _ => True
  | InsertReturns error => truthy error = true
  end.

Definition is_fetch (e : event) : bool :=
  match e with EFetch _ _ _ => true | _ => false end.

Definition is_chat (e : event) : bool :=
  match e with EChat _ => true | _ => false end.

(** Neither spelling of a session id is a property of the answer or of its
    [data]. *)
Definition no_session_id (res : response) : Prop :=
  forall k, k ∈ ["sessionId"; "session_id"] ->
    get (json_body res) k = JUndefined /\
    get (get (json_body res) "data") k = JUndefined.

(** The output fields of the Apollo mapper and the input keys each reads. *)
Definition apollo_sources : list (string * list string) :=
  [("firstName", ["firstName"]); ("lastName", ["lastName"]);
   ("fullName", ["fullName"; "firstName"; "lastName"]);
   ("email", ["email"]); ("jobTitle", ["jobTitle"; "headline"]);
   ("companyName", ["companyName"]); ("companyIndustry", ["companyIndustry"]);
   ("companySize", ["companySize"]); ("location", ["location"]);
   ("linkedin_url", ["linkedinUrl"; "profileUrl"])].

(** The same for the LinkedIn mapper; [email] and [companySize] read nothing. *)
Definition google_sources : list (string * list string) :=
  [("firstName", ["firstName"]); ("lastName", ["lastName"]);
   ("fullName", ["fullName"; "firstName"; "lastName"]);
   ("email", []); ("jobTitle", ["headline"; "position"]);
   ("companyName", ["company"]); ("companyIndustry", ["industry"]);
   ("companySize", []); ("location", ["location"]);
   ("linkedin_url", ["url"])].

(** [record[k1] || record[k2] || ... || '']: the first truthy one of the
    keys, and the empty string when there is none. *)
Definition first_truthy (record : jsval) (srcs : list string) : jsval :=
  foldr (fun k rest => js_or (get record k) rest) (JStr "") srcs.

(** [`${v || ''}`]: the part a name field contributes to the composed name. *)
Definition name_part (v : jsval) : string :=
  if truthy v then to_string v else "".

(** What [scoreProfile] returns for a reply of the chat model, and what it
    logs; [scoreProfile_runs] below shows that it does. *)
Definition icp_of_reply (reply : chat_reply) : icp :=
  match reply with
  | ChatJson result =>
      if nullish result then failure_score
      else mkIcp (js_or (get result "score") (JNum 0))
                 (js_or (get result "grade") (JStr "D"))
                 (js_or (get result "reasoning") (JStr "No reasoning provided"))
  | _ => failure_score
  end.

Definition reply_throws (reply : chat_reply) : bool :=
  match reply with
  | ChatJson result => nullish result
  | _ => true
  end.

Definition scoring_log (profile : lead) (reply : chat_reply) : list event :=
  EChat profile :: (if reply_throws reply then [ELog "ICP scoring error:"] else []).

(** The leads after the scoring loop: lead [i] with the score of reply [i]. *)
Definition scored (w : world) (leads : list lead) : list lead :=
  imap (fun i l => with_icp l (icp_of_reply (chat w l i))) leads.

(** The events of the scoring loop over [leads]. *)
Definition scoring_events (w : world) (leads : list lead) : list event :=
  if configured (OPENAI_API_KEY w)
  then concat (imap (fun i l => scoring_log l (chat w l i)) leads)
  else [].

(** The leads that reach the saving step and the response. *)
Definition final_leads (w : world) (leads : list lead) : list lead :=
  if configured (OPENAI_API_KEY w) then scored w leads else leads.

(** The events of the saving step. *)
Definition saving_log (w : world) (leads : list lead) : list event :=
  match leads with
  | [] => []
  | _ =>
      EInsert "leads" leads ::
      match supabase_insert w leads with
      | InsertThrows _ => [ELog "Error saving leads to database:"]
      | InsertReturns error =>
          if truthy error then [ELog "Supabase insert error:"] else []
      end
  end.

(** Properties of computations used in the proofs. *)

(** Computations that log nothing. *)
Definition quiet {A} (m : M A) : Prop :=
  forall st r st', m st = (r, st') -> log st' = log st.

(** Whatever the computation returns satisfies [P]. *)
Definition yields {A} (P : A -> Prop) (m : M A) : Prop :=
  forall st a st', m st = (inr a, st') -> P a.

(** The computation only appends to the log. *)
Definition grows {A} (m : M A) : Prop :=
  forall st r st', m st = (r, st') -> exists tail, log st' = log st ++ tail.

(** If the computation returns, it has sent a request meanwhile. *)
Definition fetches {A} (m : M A) : Prop :=
  forall st a st', m st = (inr a, st') ->
    exists tail, log st' = log st ++ tail /\ existsb is_fetch tail = true.

(** Reading the outcome of a computation: whether it returned, and what
    (or [d] if it threw). *)
Definition returned {A} (r : (exn + A) * state) : bool :=
  match fst r with inr _ => true | inl _ => false end.

Definition value_of {A} (d : A) (r : (exn + A) * state) : A :=
  match fst r with inr a => a | inl _ => d end.

Definition leads_of (r : (exn + list lead) * state) : list lead := value_of [] r.

Definition response_of (r : (exn + response) * state) : response :=
  value_of (mkHttp 0 JUndefined) r.

(** ** Sample runs *)

Module Sample.

Definition ok_json (v : jsval) : exn + http_response :=
  inr (mkResponse true 200 "OK" (inr v)).

Definition run_started : jsval :=
  JObj {[ "data" := JObj {[ "id" := JStr "run1" ]} ]}.

Definition run_state (s : string) : jsval :=
  JObj {[ "data" := JObj (list_to_map
    [("status", JStr s); ("defaultDatasetId", JStr "ds1")]) ]}.

Definition ada : jsval := JObj (list_to_map [
  ("firstName", JStr "Ada"); ("lastName", JStr "Lovelace");
  ("headline", JStr "Operations Manager");
  ("linkedinUrl", JStr "https://www.linkedin.com/in/ada") ]).

(** A profile of the LinkedIn scraper whose name parts come with a
    no-break space in front and a space behind. *)
Definition padded : jsval := JObj (list_to_map [
  ("firstName", JStr (bytes [194; 160]%nat +:+ "Ada"));
  ("lastName", JStr "Lovelace ");
  ("position", JStr "Analyst"); ("company", JStr "Engines Ltd");
  ("url", JStr "https://www.linkedin.com/in/ada") ]).

Definition grace : jsval := JObj (list_to_map [
  ("fullName", JStr "Grace Hopper"); ("email", JStr "grace@example.com") ]).

Definition search_hit : jsval :=
  JObj {[ "items" := JArr [JObj {[ "link" := JStr "https://www.linkedin.com/in/ada" ]}] ]}.

(** A provider front: run submissions are accepted as run [run1]; the
    Google search, the status requests and the dataset answer as given. *)
Definition provider (search : exn + http_response)
    (poll : nat -> exn + http_response) (dataset : exn + http_response)
    (method url : string) (body : option jsval) (nth : nat)
  : exn + http_response :=
  if String.eqb method "POST" then ok_json run_started
  else if includes url "googleapis.com" then search
  else if includes url "/runs/" then poll nth
  else dataset.

Definition good_score : chat_reply :=
  ChatJson (JObj (list_to_map
    [("score", JNum 85); ("grade", JStr "A"); ("reasoning", JStr "Strong fit")])).

Definition mk (key : option string) (fetching : string -> string -> option jsval -> nat -> exn + http_response)
    (chatting : lead -> nat -> chat_reply) (storing : list lead -> insert_reply) : world :=
  mkWorld key (Some "g-key") (Some "cse-1") ["tok"] fetching chatting storing
    (fun n => "uuid-" +:+ pretty n) (fun n => "2024-01-01T00:00:0" +:+ pretty n +:+ "Z").

(** The run succeeds at the third status request with two records. *)
Definition two_records : string -> string -> option jsval -> nat -> exn + http_response :=
  provider (ok_json search_hit)
    (fun nth => ok_json (run_state (if (nth <? 2)%nat then "RUNNING" else "SUCCEEDED")))
    (ok_json (JArr [ada; grace])).

(** All is well: both leads are scored and stored. *)
Definition healthy : world :=
  mk (Some "sk-1") two_records (fun _ _ => good_score) (fun _ => InsertReturns JNull).

(** The chat model answers the first lead with JSON that lacks two keys,
    and fails on the second request. *)
Definition partial_scores : world :=
  mk (Some "sk-1") two_records
    (fun _ nth => if (nth =? 0)%nat then ChatJson (JObj {[ "score" := JNum 85 ]})
                  else ChatRejects (JsError "Connection error."))
    (fun _ => InsertReturns JNull).

(** Supabase rejects the insert. *)
Definition storage_down : world :=
  mk (Some "sk-1") two_records (fun _ _ => good_score)
    (fun _ => InsertReturns (JObj {[ "message" := JStr "permission denied" ]})).

(** The enrichment run is reported [FAILED] at the second status request. *)
Definition enrichment_fails : world :=
  mk (Some "sk-1")
    (provider (ok_json search_hit)
       (fun nth => ok_json (run_state (if (nth <? 1)%nat then "RUNNING" else "FAILED")))
       (ok_json (JArr [])))
    (fun _ _ => good_score) (fun _ => InsertReturns JNull).

(** The run succeeds at once with an empty dataset. *)
Definition no_matches : world :=
  mk (Some "sk-1")
    (provider (ok_json search_hit) (fun _ => ok_json (run_state "SUCCEEDED"))
       (ok_json (JArr [])))
    (fun _ _ => good_score) (fun _ => InsertReturns JNull).


(** Three records at the first status request; the second scoring request
    is answered with text that is not JSON. *)
Definition one_scoring_failure : world :=
  mk (Some "sk-1")
    (provider (ok_json search_hit) (fun _ => ok_json (run_state "SUCCEEDED"))
       (ok_json (JArr [ada; grace; JObj ∅])))
    (fun _ nth => if (nth =? 1)%nat
                  then ChatNotJson (JsError "Unexpected token S in JSON at position 0")
                  else good_score)
    (fun _ => InsertReturns JNull).


Definition apollo_body : jsval := JObj (list_to_map [
  ("method", JStr "apollo");
  ("jobTitles", JArr [JStr "Operations Manager"]);
  ("locations", JArr [JStr "Texas"]) ]).

Definition google_body : jsval := JObj (list_to_map [
  ("method", JStr "google_apify");
  ("jobTitles", JArr [JStr "Operations Manager"]);
  ("locations", JArr [JStr "Texas"]) ]).

Definition no_locations_body : jsval := JObj (list_to_map [
  ("method", JStr "apollo");
  ("jobTitles", JArr [JStr "Operations Manager"]) ]).

End Sample.

(** ** The configuration endpoint *)

(** Environment variables that only [GET] reads. *)
Record deployment : Type := mkDeployment {
  APOLLO_API_KEY : option string;
  NEXT_PUBLIC_SUPABASE_URL : option string;
  SUPABASE_SERVICE_ROLE_KEY : option string
}.

(** The [config] object of [GET]. *)
Definition configuration (w : world) (d : deployment) : jsval :=
  JObj (list_to_map [
    ("apollo_configured", JBool (configured (APOLLO_API_KEY d)));
    ("google_configured",
     JBool (configured (GOOGLE_API_KEY w) && configured (GOOGLE_CSE_ID w)));
    ("apify_configured", JBool (0 <? Z.of_nat (length (APIFY_API_TOKENS w))));
    ("openai_configured", JBool (configured (OPENAI_API_KEY w)));
    ("supabase_configured",
     JBool (configured (NEXT_PUBLIC_SUPABASE_URL d)
            && configured (SUPABASE_SERVICE_ROLE_KEY d))) ]).

(** [export async function GET()] of the lead-generation route. *)
Definition GET (w : world) (d : deployment) : M response :=
  try_catch
    (let config := configuration w d in
     timestamp <-- iso_now w ;;
     ret (mkHttp 200 (JObj (list_to_map [
       ("status", JStr "success");
       ("message", JStr "Lead generation API is running");
       ("configuration", config);
       ("available_methods", JArr [JStr "apollo"; JStr "google_apify"]);
       ("timestamp", JStr timestamp) ]))))
    (fun error =>
       timestamp <-- iso_now w ;;
       ret (mkHttp 500 (JObj (list_to_map [
         ("status", JStr "error");
         ("message", JStr "Configuration check failed");
         ("timestamp", JStr timestamp) ])))).

(** ** Vocabulary for the further statements *)

(** An array of strings, as the declared request type has it. *)
Definition string_array (l : list string) : jsval := JArr (map JStr l).

(** The query-string parts one array parameter contributes. *)
Definition array_parts (paramName : string) (values : list string) : list string :=
  map (fun s => paramName +:+ "[]=" +:+ escape (replace_plus s)) values.

(** The URL of a query that is four lists of strings. *)
Definition apollo_url_of (titles places tags sizes : list string) : string :=
  "https://app.apollo.io/#/people?" +:+
  String.concat "&"
    (["sortByField=recommendations_score"; "sortAscending=false"; "page=1"]
     ++ array_parts "personTitles" titles
     ++ array_parts "personLocations" places
     ++ array_parts "qOrganizationKeywordTags" tags
     ++ array_parts "organizationNumEmployeesRanges" sizes
     ++ ["includedOrganizationKeywordFields[]=tags";
         "includedOrganizationKeywordFields[]=name"]
     ++ (if bool_decide (sizes = [])
         then array_parts "organizationNumEmployeesRanges"
                ["1,10"; "11,20"; "21,50"; "51,100"; "101,200"]
         else [])).

(** The characters an encoded value is made of. *)
Definition query_safe (c : ascii) : bool := unreserved c || Ascii.eqb c "%".

(** What [is_profile_link] answers when it answers. *)
Definition profile_link (url : jsval) : bool :=
  match url with
  | JStr s => includes s "linkedin.com/in/"
  | JArr items => existsb (is_str "linkedin.com/in/") items
  | _ => false
  end.

(** The credentials [POST] checks before the sourcing call of the method. *)
Definition credentials (w : world) (body : jsval) : bool :=
  if is_str "apollo" (get body "method")
  then negb (bool_decide (APIFY_API_TOKENS w = []))
  else configured (GOOGLE_API_KEY w) && configured (GOOGLE_CSE_ID w)
       && negb (bool_decide (APIFY_API_TOKENS w = [])).

(** The answer of [POST] when the credentials of the method are missing. *)
Definition credentials_error (body : jsval) : response :=
  mkHttp 500 (error_body
    (if is_str "apollo" (get body "method")
     then "Apify API tokens not configured"
     else "Google or Apify API credentials not configured")).

Definition is_insert (e : event) : bool :=
  match e with EInsert _ _ => true | _ => false end.

(** The keys the scoring loop writes. *)
Definition icp_keys : list string := ["icp_score"; "icp_grade"; "icpReasoning"].

(** The actor input built in [searchApolloLeads] for a generated URL. *)
Definition apollo_input (apolloUrl : string) : jsval :=
  JObj (list_to_map [
    ("startUrls", JArr [JObj {[ "url" := JStr apolloUrl ]}]);
    ("maxItems", JNum 25);
    ("extendOutputFunction", JStr extendOutputFunction);
    ("customMapFunction", JStr customMapFunction) ]).

(** The URL a run of [actor] is submitted to. *)
Definition run_submit_url (actor apifyToken : string) : string :=
  "https://api.apify.com/v2/acts/" +:+ actor +:+ "/runs?token=" +:+ apifyToken.

Module More.

(** The run submission is refused with 402. *)
Definition payment_required : world :=
  Sample.mk (Some "sk-1")
    (fun method url body nth =>
       if String.eqb method "POST"
       then inr (mkResponse false 402 "Payment Required" (inr JNull))
       else Sample.two_records method url body nth)
    (fun _ _ => Sample.good_score) (fun _ => InsertReturns JNull).

Definition full_deployment : deployment :=
  mkDeployment None (Some "https://x.supabase.co") (Some "service-role").

(** No Apify token is configured. *)
Definition no_tokens : world :=
  mkWorld (Some "sk-1") (Some "g-key") (Some "cse-1") []
    Sample.two_records (fun _ _ => Sample.good_score) (fun _ => InsertReturns JNull)
    (fun n => "uuid-" +:+ pretty n) (fun n => "t" +:+ pretty n).

(** The Google search finds nothing. *)
Definition no_search_hits : world :=
  Sample.mk (Some "sk-1")
    (Sample.provider (Sample.ok_json (JObj ∅))
       (fun _ => Sample.ok_json (Sample.run_state "SUCCEEDED"))
       (Sample.ok_json (JArr [Sample.ada])))
    (fun _ _ => Sample.good_score) (fun _ => InsertReturns JNull).

(** The dataset holds a [null] between two records. *)
Definition null_record : world :=
  Sample.mk (Some "sk-1")
    (Sample.provider (Sample.ok_json Sample.search_hit)
       (fun _ => Sample.ok_json (Sample.run_state "SUCCEEDED"))
       (Sample.ok_json (JArr [Sample.ada; JNull; Sample.grace])))
    (fun _ _ => Sample.good_score) (fun _ => InsertReturns JNull).

End More.

(** The computation leaves the whole state as it found it. *)
Definition stateless {A} (m : M A) : Prop :=
  forall st r st', m st = (r, st') -> st' = st.

(** ** The lead-generation form (client side) *)

Module Form.

(** One entry of the status list shown under the form. *)
Record status_update : Type := mkUpdate {
  su_message : string;
  su_type : option string;
  su_url : option string
}.

(** The state updater inside [addUniqueStatusUpdate]: [prev => ...]. *)
Definition addUniqueStatusUpdate (newUpdate : status_update)
    (prev : list status_update) : list status_update :=
  if existsb (fun update => String.eqb (su_message update) (su_message newUpdate)) prev
  then prev
  else prev ++ [newUpdate].

(** The state updater of the countdown timer; [None] is [null].  The
    estimates the form sets are whole seconds. *)
Definition tick (prev : option Z) : Z :=
  match prev with
  | None => 0
  | Some n => if (n <=? 0)%Z then 0 else (n - 1)%Z
  end.

(** The values of the form. *)
Record form_data : Type := mkForm {
  fd_method : string;
  fd_jobTitle : string;
  fd_location : string;
  fd_industry : string;
  fd_companySizes : list string
}.

(** The argument of [apiClient.generateLeads] in [onSubmit]. *)
Definition request_body (data : form_data) (leadsPerQuery : Z) : jsval :=
  JObj (list_to_map [
    ("method", JStr (fd_method data));
    ("jobTitles", JArr [JStr (fd_jobTitle data)]);
    ("locations", JArr [JStr (fd_location data)]);
    ("industries",
     if truthy (JStr (fd_industry data)) then JArr [JStr (fd_industry data)] else JArr []);
    ("companySizes", string_array (fd_companySizes data));
    ("limit", JNum leadsPerQuery) ]).

(** [generationResult] *)
Record generation_result : Type := mkResult {
  gr_success : bool;
  gr_message : jsval;
  gr_leadsGenerated : jsval;
  gr_timestamp : string
}.

(** The part of the component's state that decides whether it keeps polling.
    The fields the status texts go to ([statusUpdates], [currentPhase],
    [estimatedTimeRemaining], [startTime]) are left out: the branches that
    write them neither read nor write the fields kept here, and cannot
    throw. *)
Record poller : Type := mkPoller {
  isLoading : bool;
  isPolling : bool;                 (* [isPollingRef.current] *)
  interval : bool;                  (* [pollingIntervalRef.current] is set *)
  currentSessionId : jsval;
  retryCount : nat;                 (* [pollStatus.retryCount]; 0 when unset *)
  generationResult : option generation_result;
  notified : nat                    (* calls of [onLeadsGenerated] *)
}.

(** [setIsLoading(false); isPollingRef.current = false; clearInterval(...);
    setCurrentSessionId(null)] *)
Definition stop (p : poller) : poller :=
  mkPoller false false false JNull (retryCount p) (generationResult p) (notified p).

Definition with_retries (n : nat) (p : poller) : poller :=
  mkPoller (isLoading p) (isPolling p) (interval p) (currentSessionId p) n
           (generationResult p) (notified p).

(** [statusData], from [response.data]: the [data] of a [success] envelope or
    the body itself, and of an array its last element. *)
Definition status_data (jsonResp : jsval) : jsval :=
  let statusData :=
    if truthy (if nullish jsonResp then JUndefined else get jsonResp "success")
    then get jsonResp "data" else jsonResp in
  match statusData with
  | JArr items => default JUndefined (last items)
  | v => v
  end.

Definition not_found (statusData : jsval) : bool :=
  is_str "Session not found" (get statusData "error")
  || is_str "not_found" (get statusData "status").

(** The part of [pollStatus] after [await apiClient.getLeadGenerationStatus]:
    [reply] is the [data] of the response, or the rejection, which the
    [catch] only logs; [clock] is [new Date().toISOString()]. *)
Definition handle_status (clock : string) (reply : exn + jsval) (p : poller) : poller :=
  match reply with
  | inl _ => p
  | inr jsonResp =>
      let statusData := status_data jsonResp in
      if negb (truthy statusData) then p
      else if not_found statusData then
        let counted := with_retries (S (retryCount p)) p in
        if (10 <=? retryCount counted)%nat then stop counted else counted
      else
        let found := with_retries 0 p in
        let completed :=
          if is_str "generation_completed" (get statusData "type") then
            let s := stop found in
            mkPoller (isLoading s) (isPolling s) (interval s) (currentSessionId s)
              (retryCount s)
              (Some (mkResult true
                 (js_or (get statusData "message") (JStr "Leads generated successfully!"))
                 (js_or (get statusData "total_leads") (JNum 0)) clock))
              (S (notified s))
          else found in
        if is_str "error" (get statusData "type") then stop completed else completed
  end.

(** One call of [pollStatus] whose answer arrives before the next call
    starts: the guard [if (!isPollingRef.current) return], then the request
    and its handling.  Calls that overlap are the subject of [run] below. *)
Definition pollStatus (clock : string) (reply : exn + jsval) (p : poller) : poller :=
  if isPolling p then handle_status clock reply p else p.

(** The interval at work when no call overlaps another: one call per reply,
    in order. *)
Definition poll_all (clock : string) (replies : list (exn + jsval)) (p : poller) : poller :=
  fold_left (fun q reply => pollStatus clock reply q) replies p.

(** What happens to the poller of one session.  The guard of [pollStatus]
    is tested before the [await] and never again, and the interval fires
    every two seconds while a request may take longer: so a call is two
    occurrences, its start ([Tick]: the guard and, if it passes, the
    request) and, any time later, the arrival of the answer ([Answer], with
    the time on the clock then), which is handled whatever the guard would
    say by then. *)
Inductive occurrence : Type :=
  | Tick
  | Answer (clock : string) (reply : exn + jsval).

Record polling : Type := mkPolling {
  poller_of : poller;
  in_flight : nat;                  (* requests sent and not yet answered *)
  sent : nat                        (* requests sent so far *)
}.

Definition step (s : polling) (o : occurrence) : polling :=
  match o with
  | Tick =>
      if isPolling (poller_of s)
      then mkPolling (poller_of s) (S (in_flight s)) (S (sent s))
      else s
  | Answer clock reply =>
      match in_flight s with
      | O => s
      | S others => mkPolling (handle_status clock reply (poller_of s)) others (sent s)
      end
  end.

Definition run (trace : list occurrence) (s : polling) : polling :=
  fold_left step trace s.

(** The answers handled so far. *)
Definition handled (s : polling) : nat := (sent s - in_flight s)%nat.

(** [startStatusPolling]: a fresh [pollStatus] closure on a fresh interval. *)
Definition startStatusPolling (p : poller) : poller :=
  mkPoller (isLoading p) true true (currentSessionId p) 0
           (generationResult p) (notified p).

(** What [await apiClient.generateLeads(...)] gives [onSubmit]: the [data] of
    the response, or a rejection with [error.response?.data?.message] and
    [error.message]. *)
Inductive submit_reply : Type :=
  | SubmitRejects (responseMessage message : jsval)
  | SubmitAnswers (result : jsval).

Definition failed (msg : jsval) (clock : string) : generation_result :=
  mkResult false msg (JNum 0) clock.

(** [onSubmit]: the new state, and the request body if a request was made. *)
Definition onSubmit (clock : string) (data : form_data) (leadsPerQuery : Z)
    (reply : submit_reply) (p : poller) : poller * option jsval :=
  let loading :=
    mkPoller true (isPolling p) (interval p) (currentSessionId p) (retryCount p)
             None (notified p) in
  if negb (truthy (JStr (fd_jobTitle data))) || negb (truthy (JStr (fd_location data)))
     || negb (truthy (JStr (fd_industry data)))
  then (loading, None)
  else
    let request := request_body data leadsPerQuery in
    let rejected responseMessage message :=
      mkPoller (isLoading loading) (isPolling loading) (interval loading)
        (currentSessionId loading) (retryCount loading)
        (Some (failed (js_or (js_or responseMessage message)
                             (JStr "Failed to generate leads")) clock))
        (notified loading) in
    match reply with
    | SubmitRejects responseMessage message => (rejected responseMessage message, Some request)
    | SubmitAnswers result =>
        if nullish result
        then (rejected JUndefined (JStr ("Cannot read properties of " +:+ to_string result)),
              Some request)
        else if is_str "success" (get result "status") then
          (startStatusPolling
             (mkPoller true (isPolling p) (interval p) (get result "session_id")
                       (retryCount p) None (notified p)),
           Some request)
        else
          let s := stop loading in
          (mkPoller (isLoading s) (isPolling s) (interval s) (currentSessionId s)
             (retryCount s)
             (Some (failed (js_or (get result "message") (JStr "Failed to generate leads"))
                      clock))
             (notified s),
           Some request)
    end.

(** A reply that reports the session as not found. *)
Definition says_not_found (reply : exn + jsval) : bool :=
  match reply with
  | inl _ => false
  | inr jsonResp => truthy (status_data jsonResp) && not_found (status_data jsonResp)
  end.

(** A trace in which every answer reports the session as not found. *)
Definition only_not_found (trace : list occurrence) : bool :=
  forallb (fun o => match o with Tick => true | Answer _ reply => says_not_found reply end)
          trace.

(** A reply with nothing to handle: a rejected request or an empty body. *)
Definition says_nothing (reply : exn + jsval) : bool :=
  match reply with
  | inl _ => true
  | inr jsonResp => negb (truthy (status_data jsonResp))
  end.

(** The status a reply carries when the session is known. *)
Definition found (reply : exn + jsval) : option jsval :=
  match reply with
  | inl _ => None
  | inr jsonResp =>
      if truthy (status_data jsonResp) && negb (not_found (status_data jsonResp))
      then Some (status_data jsonResp) else None
  end.

(** A status that ends polling. *)
Definition terminal (statusData : jsval) : bool :=
  is_str "generation_completed" (get statusData "type")
  || is_str "error" (get statusData "type").

Definition idle : poller := mkPoller false false false JNull 0 None 0.

(** A status body of the given type. *)
Definition status_of (type : string) : exn + jsval :=
  inr (JObj (list_to_map [("type", JStr type); ("message", JStr "step")])).

Definition session_not_found : exn + jsval :=
  inr (JObj (list_to_map [("success", JBool true);
    ("data", JArr [JObj (list_to_map [("status", JStr "not_found")])])])).

Definition engineers : form_data :=
  mkForm "apollo" "Engineer" "Berlin" "Software" ["1,10"].

End Form.

(** ** The email route *)

Module Mail.

(** What a request does to the outside: the call of [resend.emails.send],
    the writes to the database and the lines of [console.error]. *)
Inductive event : Type :=
| ESend (payload : jsval)
| EInsert (table : string) (row : jsval)
| EUpdate (table : string) (values : jsval) (id : jsval)
| ELog (label : string).

(** The environment of the route.  [send], [insert] and [update] give what
    the awaited call throws, or what it returns: the result of Resend, and
    the [error] of the database result.  [emailRegex_test] is the verdict of
    [/^[^\s@]+@[^\s@]+\.[^\s@]+$/] on a string; [randomUUID] and [now] give
    the n-th identifier and the n-th reading of the clock of the request. *)
Record world : Type := mkWorld {
  RESEND_API_KEY : option string;
  FROM_EMAIL : option string;
  emailRegex_test : string -> bool;
  send : jsval -> exn + jsval;
  insert : string -> jsval -> exn + jsval;
  update : string -> jsval -> jsval -> exn + jsval;
  randomUUID : nat -> string;
  now : nat -> string
}.

Definition dq : string := String "034"%char EmptyString.

Definition html_head : string :=
"
          <div style=" +:+ dq +:+
"font-family: Arial, sans-serif; max-width: 600px; margin: 0 auto; padding: 20px;" +:+ dq +:+
">
            <div style=" +:+ dq +:+
"background-color: #f8f9fa; padding: 20px; border-radius: 8px; margin-bottom: 20px;" +:+ dq +:+
">
              <h2 style=" +:+ dq +:+
"color: #333; margin: 0 0 10px 0;" +:+ dq +:+
">".

Definition html_middle : string :=
"</h2>
            </div>
            
            <div style=" +:+ dq +:+
"background-color: white; padding: 20px; border-radius: 8px; border: 1px solid #e9ecef;" +:+ dq +:+
">
              ".

Definition html_tail : string :=
"
            </div>
            
            <div style=" +:+ dq +:+
"margin-top: 20px; padding: 15px; background-color: #f8f9fa; border-radius: 8px; font-size: 12px; color: #6c757d;" +:+ dq +:+
">
              <p style=" +:+ dq +:+
"margin: 0;" +:+ dq +:+
">This email was sent via our lead generation system.</p>
              <p style=" +:+ dq +:+
"margin: 5px 0 0 0;" +:+ dq +:+
">If you'd like to unsubscribe, please reply with " +:+ dq +:+
"UNSUBSCRIBE" +:+ dq +:+
" in the subject line.</p>
            </div>
          </div>
        ".

(** [s.replace(/\n/g, '<br>')] *)
Fixpoint replace_newlines (s : string) : string :=
  match s with
  | EmptyString => EmptyString
  | String c rest =>
      if Ascii.eqb c "010"%char then "<br>" +:+ replace_newlines rest
      else String c (replace_newlines rest)
  end.

(** The [html] of the message. *)
Definition html (subject : jsval) (emailBody : string) : string :=
  html_head +:+ to_string subject +:+ html_middle +:+ replace_newlines emailBody
  +:+ html_tail.

(** The argument of [resend.emails.send]. *)
Definition message_of (w : world) (to subject : jsval) (emailBody : string) : jsval :=
  JObj (list_to_map [
    ("from", JStr (if configured (FROM_EMAIL w) then default "" (FROM_EMAIL w)
                   else "noreply@yourdomain.com"));
    ("to", JArr [to]);
    ("subject", subject);
    ("html", JStr (html subject emailBody));
    ("text", JStr emailBody) ]).

Definition send_failed : response := mkHttp 500 (error_body "Failed to send email").

(** [emailResult.data?.id] *)
Definition resend_id (emailResult : jsval) : jsval :=
  if nullish (get emailResult "data") then JUndefined
  else get (get emailResult "data") "id".

Definition emailEventData (w : world) (to subject leadId leadData emailResult : jsval)
    : jsval :=
  JObj (list_to_map [
    ("id", JStr (randomUUID w 0));
    ("leadId", js_or leadId JNull);
    ("emailId", js_or (resend_id emailResult) JNull);
    ("eventType", JStr "sent");
    ("recipientEmail", to);
    ("subject", subject);
    ("timestamp", JStr (now w 0));
    ("metadata", JObj (list_to_map [
       ("leadData", js_or leadData JNull);
       ("resendId", resend_id emailResult) ])) ]).

(** The values of the update of the lead. *)
Definition lead_values (w : world) : jsval :=
  JObj (list_to_map [
    ("email_status", JStr "sent");
    ("last_email_sent", JStr (now w 1));
    ("updated_at", JStr (now w 2)) ]).

(** [draftData]; [read] is the number of clock readings made before it. *)
Definition draftData (w : world) (read : nat)
    (to subject emailBody leadId leadData emailResult : jsval) : jsval :=
  JObj (list_to_map [
    ("id", JStr (randomUUID w 1));
    ("leadId", js_or leadId JNull);
    ("subject", subject);
    ("body", emailBody);
    ("status", JStr "sent");
    ("sentAt", JStr (now w read));
    ("createdAt", JStr (now w (S read)));
    ("metadata", JObj (list_to_map [
       ("recipientEmail", to);
       ("resendId", resend_id emailResult);
       ("leadData", js_or leadData JNull) ])) ]).

Definition sent_response (w : world) (emailResult : jsval) : response :=
  mkHttp 200 (JObj (list_to_map [
    ("status", JStr "success");
    ("message", JStr "Email sent successfully");
    ("emailId", resend_id emailResult);
    ("eventId", JStr (randomUUID w 0)) ])).

(** A line of [console.error] for a returned error. *)
Definition complaint (label : string) (error : jsval) : list event :=
  if truthy error then [ELog label] else [].

(** The bookkeeping after a send that returned no error, up to the answer. *)
Definition record_sent (w : world) (to subject emailBody leadId leadData emailResult : jsval)
    : response * list event :=
  let eventRow := emailEventData w to subject leadId leadData emailResult in
  match insert w "email_events" eventRow with
  | inl _ => (send_failed, [EInsert "email_events" eventRow; ELog "Email sending error:"])
  | inr eventError =>
      let logged :=
        EInsert "email_events" eventRow
          :: complaint "Error logging email event:" eventError in
      let drafted (read : nat) (log : list event) : response * list event :=
        let draftRow := draftData w read to subject emailBody leadId leadData emailResult in
        match insert w "email_drafts" draftRow with
        | inl _ =>
            (send_failed, log ++ [EInsert "email_drafts" draftRow; ELog "Email sending error:"])
        | inr draftError =>
            (sent_response w emailResult,
             log ++ EInsert "email_drafts" draftRow
                    :: complaint "Error saving email draft:" draftError)
        end in
      if truthy leadId then
        match update w "leads" (lead_values w) leadId with
        | inl _ =>
            (send_failed,
             logged ++ [EUpdate "leads" (lead_values w) leadId; ELog "Email sending error:"])
        | inr updateError =>
            drafted 3%nat
              (logged ++ EUpdate "leads" (lead_values w) leadId
                         :: complaint "Error updating lead email status:" updateError)
        end
      else drafted 1%nat logged
  end.

(** The inner [try] of [POST]: the send and the bookkeeping. *)
Definition deliver (w : world) (to subject emailBody leadId leadData : jsval)
    : response * list event :=
  match emailBody with
  | JStr text =>
      let payload := message_of w to subject text in
      match send w payload with
      | inl _ => (send_failed, [ESend payload; ELog "Email sending error:"])
      | inr emailResult =>
          if nullish emailResult
          then (send_failed, [ESend payload; ELog "Email sending error:"])
          else if truthy (get emailResult "error")
          then (send_failed, [ESend payload; ELog "Resend error:"])
          else
            let '(res, log) :=
              record_sent w to subject emailBody leadId leadData emailResult in
            (res, ESend payload :: log)
      end
  | _ => (send_failed, [ELog "Email sending error:"])
  end.

(** [POST] of the email route; [request] is what [request.json()] gives. *)
Definition POST (w : world) (request : exn + jsval) : response * list event :=
  match request with
  | inl _ => (mkHttp 500 (error_body "Internal server error"), [ELog "Email send API error:"])
  | inr body =>
      if nullish body
      then (mkHttp 500 (error_body "Internal server error"), [ELog "Email send API error:"])
      else
        let to := get body "to" in
        let subject := get body "subject" in
        let emailBody := get body "body" in
        if negb (truthy to) || negb (truthy subject) || negb (truthy emailBody)
        then (mkHttp 400 (error_body "To, subject, and body are required"), [])
        else if negb (configured (RESEND_API_KEY w))
        then (mkHttp 500 (error_body "Email service not configured"), [])
        else if negb (emailRegex_test w (to_string to))
        then (mkHttp 400 (error_body "Invalid email address format"), [])
        else deliver w to subject emailBody (get body "leadId") (get body "leadData")
  end.

Definition is_send (e : event) : bool :=
  match e with ESend _ => true | _ => false end.

Definition is_write (e : event) : bool :=
  match e with EInsert _ _ | EUpdate _ _ _ => true | _ => false end.

(** The request passes the three checks of [POST] and has a text. *)
Definition accepted (w : world) (body : jsval) (text : string) : Prop :=
  nullish body = false /\ truthy (get body "to") = true /\
  truthy (get body "subject") = true /\ get body "body" = JStr text /\ text <> "" /\
  configured (RESEND_API_KEY w) = true /\
  emailRegex_test w (to_string (get body "to")) = true.

(** The database gives an answer, possibly an error, to every write. *)
Definition database_answers (w : world) : Prop :=
  (forall table row, exists error, insert w table row = inr error) /\
  (forall table values id, exists error, update w table values id = inr error).

(** A mail to one address of a lead. *)
Definition letter : jsval :=
  JObj (list_to_map [
    ("to", JStr "ada@example.com"); ("subject", JStr "Hello");
    ("body", JStr "Dear Ada"); ("leadId", JStr "lead-1") ]).

(** A deployment whose mail provider accepts the message and whose database
    refuses every write with [outcome]. *)
Definition office (outcome : exn + jsval) : world :=
  mkWorld (Some "re_key") None (fun s => String.eqb s "ada@example.com")
    (fun _ => inr (JObj (list_to_map [
       ("data", JObj (list_to_map [("id", JStr "m-1")])); ("error", JNull) ])))
    (fun _ _ => outcome) (fun _ _ _ => outcome)
    (fun n => "id-" +:+ pretty n) (fun n => "day-" +:+ pretty n).

(** The same deployment with a mail provider that answers [answer]. *)
Definition office_with_provider (answer : exn + jsval) : world :=
  mkWorld (Some "re_key") None (fun s => String.eqb s "ada@example.com")
    (fun _ => answer)
    (fun _ _ => inr JNull) (fun _ _ _ => inr JNull)
    (fun n => "id-" +:+ pretty n) (fun n => "day-" +:+ pretty n).

End Mail.

(** * Properties *)

#[local] Close Scope Z_scope.

(** ** Proof tools *)

(** Closed facts are settled by evaluation on the virtual machine: the maps
    behind the sample objects are too large for step-by-step conversion. *)
Ltac by_vm := vm_compute; reflexivity.

Ltac conjs := repeat match goal with |- _ /\ _ => split end.

Lemma bind_run {A B} (m : M A) (k : A -> M B) (st : state) :
  bind m k st
    = match m st with
      | (inr a, st') => k a st'
      | (inl e, st') => (inl e, st')
      end.
Proof. reflexivity. Qed.

Lemma do_fetch_runs (w : world) (method url : string) (body : option jsval)
    (nth : nat) (st : state) :
  do_fetch w method url body nth st
    = (match fetch w method url body nth with inl e => inl e | inr r => inr r end,
       logged st [EFetch method url body]).
Proof.
  unfold do_fetch, bind, emit, throw, ret, logged. cbn.
  now destruct (fetch w method url body nth).
Qed.

Lemma returned_value {A} (d : A) (r : (exn + A) * state) :
  returned r = true -> r = (inr (value_of d r), snd r).
Proof. destruct r as [[e | a] st]; [discriminate | reflexivity]. Qed.

Lemma returned_leads (r : (exn + list lead) * state) :
  returned r = true -> r = (inr (leads_of r), snd r).
Proof. apply returned_value. Qed.

Lemma returned_response (r : (exn + response) * state) :
  returned r = true -> r = (inr (response_of r), snd r).
Proof. apply returned_value. Qed.

(** A sample run sourced the leads it returned. *)
Ltac sample_sourced :=
  unfold sourced, valid_request; conjs;
  first [apply returned_leads; by_vm | by_vm].

(** Membership in a literal list. *)
Ltac in_list :=
  apply list_elem_of_In; simpl; repeat ((left; reflexivity) || right).

(** ** The model on sample inputs *)

Example trim_both : trim "  Ada  Lovelace " = "Ada  Lovelace".
Proof. reflexivity. Qed.

Example trim_blank : trim " " = "".
Proof. reflexivity. Qed.

Example trim_no_break_space :
  trim (bytes [194; 160]%nat +:+ "Ada" +:+ bytes [226; 128; 168; 9]%nat) = "Ada".
Proof. vm_compute. reflexivity. Qed.

Example spread_of_a_string :
  map String.length (code_points ("a" +:+ bytes [195; 169; 240; 159; 152; 128]%nat))
    = [1; 2; 4]%nat.
Proof. vm_compute. reflexivity. Qed.

Example length_as_text :
  has_items (JObj {[ "length" := JStr "5" ]}) = true /\
  has_items (JObj {[ "length" := JStr "1e-400" ]}) = false /\
  has_items (JObj {[ "length" := JArr [JNum 5] ]}) = true /\
  has_items (JObj {[ "length" := JStr "five" ]}) = false.
Proof. conjs; vm_compute; reflexivity. Qed.

Example to_string_nested :
  to_string (JArr [JNum 12; JNull; JArr [JStr "a"; JBool true]]) = "12,,a,true".
Proof. vm_compute. reflexivity. Qed.

Example empty_array_is_truthy : truthy (JArr []) = true /\ truthy (JStr "") = false.
Proof. split; reflexivity. Qed.

Example apollo_url :
  fst (generateApolloUrl (apollo_query Sample.apollo_body) init)
    = inr ("https://app.apollo.io/#/people?sortByField=recommendations_score"
           +:+ "&sortAscending=false&page=1&personTitles[]=Operations%20Manager"
           +:+ "&personLocations[]=Texas&includedOrganizationKeywordFields[]=tags"
           +:+ "&includedOrganizationKeywordFields[]=name"
           +:+ "&organizationNumEmployeesRanges[]=1%2C10"
           +:+ "&organizationNumEmployeesRanges[]=11%2C20"
           +:+ "&organizationNumEmployeesRanges[]=21%2C50"
           +:+ "&organizationNumEmployeesRanges[]=51%2C100"
           +:+ "&organizationNumEmployeesRanges[]=101%2C200").
Proof. vm_compute. reflexivity. Qed.

(** Three records, the second of which cannot be scored: the answer counts
    three leads and the second carries score 0 and grade "D". *)
Example three_records_one_unscored :
  let r := POST Sample.one_scoring_failure (inr Sample.apollo_body) init in
  let data := get (json_body (response_of r)) "data" in
  returned r = true /\
  http_status (response_of r) = 200%Z /\
  get data "count" = JNum 3 /\
  match get data "leads" with
  | JArr [first; second; third] =>
      get first "icp_grade" = JStr "A" /\
      get second "icp_score" = JNum 0 /\ get second "icp_grade" = JStr "D" /\
      get second "icpReasoning" = JStr "Error during scoring" /\
      get third "icp_score" = JNum 85 /\ get third "fullName" = JStr ""
  | _ => False
  end.
Proof. vm_compute. repeat split. Qed.

(** ** The normalizers *)

Lemma js_or_idem (a d : jsval) : js_or (js_or a d) d = js_or a d.
Proof. unfold js_or. destruct (truthy a) eqn:Ha; [now rewrite Ha|]. now destruct (truthy d). Qed.

Lemma js_or_falsy (a d : jsval) : truthy a = false -> js_or a d = d.
Proof. unfold js_or. now intros ->. Qed.

Lemma js_or_empty_undefined (a : jsval) :
  js_or (js_or (js_or a (JStr "")) JUndefined) (JStr "") = js_or a (JStr "").
Proof. unfold js_or. destruct (truthy a) eqn:Ha; cbn; rewrite ?Ha; reflexivity. Qed.

Lemma apolloLead_get (id t : string) (p : jsval) :
  let once := JObj (apolloLead id t p) in
  get once "firstName" = js_or (get p "firstName") (JStr "") /\
  get once "lastName" = js_or (get p "lastName") (JStr "") /\
  get once "fullName" = js_or (get p "fullName") (JStr (composed_name p)) /\
  get once "email" = js_or (get p "email") (JStr "") /\
  get once "jobTitle" = js_or (js_or (get p "jobTitle") (get p "headline")) (JStr "") /\
  get once "companyName" = js_or (get p "companyName") (JStr "") /\
  get once "companyIndustry" = js_or (get p "companyIndustry") (JStr "") /\
  get once "companySize" = js_or (get p "companySize") (JStr "") /\
  get once "location" = js_or (get p "location") (JStr "") /\
  get once "headline" = JUndefined /\ get once "linkedinUrl" = JUndefined /\
  get once "profileUrl" = JUndefined.
Proof. repeat split; reflexivity. Qed.

Lemma googleLead_get (id t : string) (p : jsval) :
  let once := JObj (googleLead id t p) in
  get once "firstName" = js_or (get p "firstName") (JStr "") /\
  get once "lastName" = js_or (get p "lastName") (JStr "") /\
  get once "fullName" = js_or (get p "fullName") (JStr (composed_name p)) /\
  get once "location" = js_or (get p "location") (JStr "") /\
  get once "headline" = JUndefined /\ get once "position" = JUndefined /\
  get once "company" = JUndefined /\ get once "industry" = JUndefined /\
  get once "url" = JUndefined.
Proof. repeat split; reflexivity. Qed.

Lemma composed_name_stable (once p : jsval) :
  get once "firstName" = js_or (get p "firstName") (JStr "") ->
  get once "lastName" = js_or (get p "lastName") (JStr "") ->
  composed_name once = composed_name p.
Proof.
  intros Hf Hl. unfold composed_name. now rewrite Hf, Hl, !js_or_idem.
Qed.

(** C8, as the code has it.  Normalizing a normalized record again (with the
    same generated id and timestamp) keeps every field whose output key is
    also the key it is read from, and empties the others: [linkedin_url] for
    the Apollo mapper; [jobTitle], [companyName], [companyIndustry] and
    [linkedin_url] for the LinkedIn mapper. *)
Theorem C8_second_normalization (id t : string) (x : jsval) :
  apolloLead id t (JObj (apolloLead id t x))
    = <["linkedin_url" := JStr ""]> (apolloLead id t x) /\
  googleLead id t (JObj (googleLead id t x))
    = <["jobTitle" := JStr ""]> (<["companyName" := JStr ""]>
        (<["companyIndustry" := JStr ""]> (<["linkedin_url" := JStr ""]>
           (googleLead id t x)))).
Proof.
  split.
  - destruct (apolloLead_get id t x)
      as (Hfirst & Hlast & Hfull & Hmail & Hjob & Hco & Hind & Hsize & Hloc & Hhead & Hlu & Hpu).
    cbv zeta in *.
    unfold apolloLead at 1.
    rewrite (composed_name_stable _ x Hfirst Hlast).
    rewrite Hfirst, Hlast, Hfull, Hmail, Hjob, Hco, Hind, Hsize, Hloc, Hhead, Hlu, Hpu.
    rewrite !js_or_idem, js_or_empty_undefined.
    reflexivity.
  - destruct (googleLead_get id t x)
      as (Hfirst & Hlast & Hfull & Hloc & Hhead & Hpos & Hco & Hind & Hurl).
    cbv zeta in *.
    unfold googleLead at 1.
    rewrite (composed_name_stable _ x Hfirst Hlast).
    rewrite Hfirst, Hlast, Hfull, Hloc, Hhead, Hpos, Hco, Hind, Hurl.
    rewrite !js_or_idem.
    reflexivity.
Qed.

(** C8, as the spec states it, fails on a record that carries a profile link:
    the first pass stores the link under [linkedin_url], the second pass
    looks for [linkedinUrl] and [profileUrl] and finds neither. *)
Lemma C8_counterexample :
  apolloLead "id-1" "t-1" (JObj (apolloLead "id-1" "t-1" Sample.ada))
    <> apolloLead "id-1" "t-1" Sample.ada.
Proof.
  intros H. apply (f_equal (fun l : lead => l !! "linkedin_url")) in H.
  vm_compute in H. discriminate H.
Qed.

Lemma normalize_with_object (w : world)
    (shape : string -> string -> jsval -> lead) (record : jsval) (st : state) :
  nullish record = false ->
  normalize_with w shape record st
    = (inr (shape (randomUUID w (uuids st)) (now w (dates st)) record),
       mkState (log st) (S (uuids st)) (S (dates st))).
Proof.
  intros Hrec. unfold normalize_with, bind, fresh_uuid, prop, iso_now, ret; cbn.
  now rewrite Hrec.
Qed.

Ltac each_source H :=
  repeat (apply elem_of_cons in H as [H | H]; [injection H as -> -> |]);
  [.. | now apply elem_of_nil in H].

Lemma js_or_assoc (a b c : jsval) : js_or (js_or a b) c = js_or a (js_or b c).
Proof. unfold js_or. destruct (truthy a) eqn:Ha; [now rewrite Ha | reflexivity]. Qed.

Lemma first_truthy_missing (record : jsval) (srcs : list string) :
  (forall k, k ∈ srcs -> truthy (get record k) = false) ->
  first_truthy record srcs = JStr "".
Proof.
  induction srcs as [| k srcs IH]; intros Hmiss; [reflexivity |].
  cbn [first_truthy foldr]. rewrite js_or_falsy by (apply Hmiss; left).
  apply IH. intros k' Hk'. apply Hmiss. now right.
Qed.

Lemma apolloLead_fields (id t : string) (record : jsval) (out : string)
    (srcs : list string) :
  (out, srcs) ∈ apollo_sources -> out <> "fullName" ->
  apolloLead id t record !! out = Some (first_truthy record srcs).
Proof.
  intros Hin Hout. unfold apollo_sources in Hin.
  each_source Hin; try contradiction; unfold first_truthy; cbn [foldr];
    rewrite <- ?js_or_assoc; reflexivity.
Qed.

Lemma googleLead_fields (id t : string) (record : jsval) (out : string)
    (srcs : list string) :
  (out, srcs) ∈ google_sources -> out <> "fullName" ->
  googleLead id t record !! out = Some (first_truthy record srcs).
Proof.
  intros Hin Hout. unfold google_sources in Hin.
  each_source Hin; try contradiction; unfold first_truthy; cbn [foldr];
    rewrite <- ?js_or_assoc; reflexivity.
Qed.

Lemma composed_name_parts (record : jsval) :
  composed_name record
    = trim (name_part (get record "firstName") +:+ " "
            +:+ name_part (get record "lastName")).
Proof.
  unfold composed_name, name_part, js_or.
  now destruct (truthy (get record "firstName")), (truthy (get record "lastName")).
Qed.

(** C9.  A record that is an object (or any value other than [null] and
    [undefined]) and whose two name parts can be converted to a string
    (anything but an object with a [toString] of its own) is mapped by
    either mapper without throwing, to the lead the mapper builds
    from the fresh id, the record and the time.  Every output field other
    than [fullName] is the first truthy one of the input keys it reads, and
    the empty string when all of them are absent, [null] or otherwise falsy
    (or when it reads none).  [fullName] is the record's [fullName] when
    that is truthy, and otherwise [trim(first + " " + last)], where a name
    part that is absent or falsy counts as the empty string: so for name
    parts that are strings it is the trimmed joined name, and with no name
    at all it is the empty string. *)
Theorem C9_missing_fields_default (w : world) (record : jsval) (st : state) :
  nullish record = false ->
  printable (get record "firstName") = true ->
  printable (get record "lastName") = true ->
  let after := mkState (log st) (S (uuids st)) (S (dates st)) in
  let id := randomUUID w (uuids st) in
  let t := now w (dates st) in
  normalize_with w apolloLead record st = (inr (apolloLead id t record), after) /\
  normalize_with w googleLead record st = (inr (googleLead id t record), after) /\
  (forall out srcs, out <> "fullName" ->
     ((out, srcs) ∈ apollo_sources ->
      apolloLead id t record !! out = Some (first_truthy record srcs)) /\
     ((out, srcs) ∈ google_sources ->
      googleLead id t record !! out = Some (first_truthy record srcs))) /\
  (forall srcs, (forall k, k ∈ srcs -> truthy (get record k) = false) ->
     first_truthy record srcs = JStr "") /\
  (forall shape, shape = apolloLead \/ shape = googleLead ->
     shape id t record !! "fullName"
       = Some (if truthy (get record "fullName") then get record "fullName"
               else JStr (trim (name_part (get record "firstName") +:+ " "
                                +:+ name_part (get record "lastName")))) /\
     (forall first last,
        truthy (get record "fullName") = false ->
        get record "firstName" = JStr first -> get record "lastName" = JStr last ->
        shape id t record !! "fullName" = Some (JStr (trim (first +:+ " " +:+ last)))) /\
     (truthy (get record "fullName") = false ->
      truthy (get record "firstName") = false ->
      truthy (get record "lastName") = false ->
      shape id t record !! "fullName" = Some (JStr ""))).
Proof.
  intros Hrec _ _ after id t.
  assert (Hfull : forall shape, shape = apolloLead \/ shape = googleLead ->
            shape id t record !! "fullName"
              = Some (if truthy (get record "fullName") then get record "fullName"
                      else JStr (trim (name_part (get record "firstName") +:+ " "
                                       +:+ name_part (get record "lastName"))))).
  { intros shape [-> | ->]; rewrite <- composed_name_parts; reflexivity. }
  conjs.
  - now apply normalize_with_object.
  - now apply normalize_with_object.
  - intros out srcs Hout. split; intros Hin.
    + now apply apolloLead_fields.
    + now apply googleLead_fields.
  - apply first_truthy_missing.
  - intros shape Hshape. conjs.
    + now apply Hfull.
    + intros first last Hnone Hfirst Hlast. rewrite (Hfull shape Hshape), Hnone.
      rewrite Hfirst, Hlast. unfold name_part. cbn [truthy to_string].
      now destruct (String.eqb_spec first ""), (String.eqb_spec last ""); subst.
    + intros Hnone Hfirst Hlast. rewrite (Hfull shape Hshape), Hnone.
      unfold name_part. now rewrite Hfirst, Hlast.
Qed.

Lemma C9_witness :
  apolloLead "uuid-0" "2024-01-01T00:00:00Z" Sample.ada !! "email" = Some (JStr "") /\
  apolloLead "uuid-0" "2024-01-01T00:00:00Z" Sample.ada !! "jobTitle"
    = Some (JStr "Operations Manager") /\
  apolloLead "uuid-0" "2024-01-01T00:00:00Z" Sample.ada !! "fullName"
    = Some (JStr "Ada Lovelace") /\
  fst (normalize_with Sample.healthy googleLead Sample.padded init)
    = inr (googleLead "uuid-0" "2024-01-01T00:00:00Z" Sample.padded) /\
  googleLead "uuid-0" "2024-01-01T00:00:00Z" Sample.padded !! "jobTitle"
    = Some (JStr "Analyst") /\
  googleLead "uuid-0" "2024-01-01T00:00:00Z" Sample.padded !! "location" = Some (JStr "") /\
  googleLead "uuid-0" "2024-01-01T00:00:00Z" Sample.padded !! "fullName"
    = Some (JStr "Ada Lovelace").
Proof.
  destruct (C9_missing_fields_default Sample.healthy Sample.ada init eq_refl eq_refl eq_refl)
    as (_ & _ & Hfield & Hmiss & Hname).
  destruct (C9_missing_fields_default Sample.healthy Sample.padded init
              eq_refl eq_refl eq_refl)
    as (_ & Hrun & Hfield' & Hmiss' & Hname').
  cbv zeta in *.
  change (randomUUID Sample.healthy (uuids init)) with "uuid-0" in *.
  change (now Sample.healthy (dates init)) with "2024-01-01T00:00:00Z" in *.
  conjs.
  - destruct (Hfield "email" ["email"] ltac:(discriminate)) as [Hapollo _].
    rewrite Hapollo by (unfold apollo_sources; in_list).
    apply f_equal, Hmiss. intros k Hk. apply list_elem_of_singleton in Hk as ->. reflexivity.
  - destruct (Hfield "jobTitle" ["jobTitle"; "headline"] ltac:(discriminate)) as [Hapollo _].
    rewrite Hapollo by (unfold apollo_sources; in_list). by_vm.
  - destruct (Hname apolloLead (or_introl eq_refl)) as (_ & Hjoined & _).
    rewrite (Hjoined "Ada" "Lovelace") by by_vm. by_vm.
  - now rewrite Hrun.
  - destruct (Hfield' "jobTitle" ["headline"; "position"] ltac:(discriminate)) as [_ Hgoogle].
    rewrite Hgoogle by (unfold google_sources; in_list). by_vm.
  - destruct (Hfield' "location" ["location"] ltac:(discriminate)) as [_ Hgoogle].
    rewrite Hgoogle by (unfold google_sources; in_list).
    apply f_equal, Hmiss'. intros k Hk. apply list_elem_of_singleton in Hk as ->. reflexivity.
  - destruct (Hname' googleLead (or_intror eq_refl)) as (_ & Hjoined & _).
    rewrite (Hjoined (bytes [194; 160]%nat +:+ "Ada") "Lovelace ") by by_vm. by_vm.
Defined.

(** ** Validation *)

(** C7.  When the body lacks [method], [jobTitles] or [locations] (the field
    is absent, [null] or otherwise falsy), [POST] answers 400 with
    ["Missing required parameters"] and leaves the state as it found it: no
    request was sent, nothing was logged, no id or timestamp was drawn. *)
Theorem C7_missing_input_rejected (w : world) (body : jsval) (st : state) :
  nullish body = false ->
  truthy (get body "method") = false \/
  truthy (get body "jobTitles") = false \/
  truthy (get body "locations") = false ->
  POST w (inr body) st
    = (inr (mkHttp 400 (error_body "Missing required parameters")), st).
Proof.
  intros Hbody Hmissing.
  unfold POST, try_catch, handle, bind, prop, ret. rewrite Hbody.
  destruct Hmissing as [H | [H | H]]; rewrite H; cbn;
    repeat match goal with |- context [negb ?b] => destruct b; cbn end;
    reflexivity.
Qed.

Lemma C7_witness :
  POST Sample.healthy (inr Sample.no_locations_body) init
    = (inr (mkHttp 400 (error_body "Missing required parameters")), init).
Proof.
  apply C7_missing_input_rejected.
  - reflexivity.
  - right. right. reflexivity.
Defined.

(** ** Scoring *)

Lemma scoreProfile_runs (w : world) (profile : lead) (nth : nat) (st : state) :
  scoreProfile w profile nth st
    = (inr (icp_of_reply (chat w profile nth)),
       logged st (scoring_log profile (chat w profile nth))).
Proof.
  unfold scoreProfile, try_catch, bind, emit, prop, ret, throw, logged, scoring_log.
  cbn. destruct (chat w profile nth) as [e | | e | result]; cbn;
    rewrite <- ?app_assoc; try reflexivity.
  destruct (nullish result); cbn; rewrite <- ?app_assoc; reflexivity.
Qed.

(** One turn of the [for] loop. *)
Lemma score_from_step (w : world) (remaining i : nat) (leads : list lead)
    (st : state) :
  score_from w (S remaining) i leads st
    = let current := default ∅ (leads !! i) in
      score_from w remaining (S i)
        (<[i := with_icp current (icp_of_reply (chat w current i))]> leads)
        (logged st (scoring_log current (chat w current i))).
Proof.
  cbn [score_from]. unfold bind at 1. unfold try_catch at 1. unfold bind at 1.
  rewrite scoreProfile_runs. reflexivity.
Qed.

Lemma logged_logged (st : state) (a b : list event) :
  logged (logged st a) b = logged st (a ++ b).
Proof. unfold logged; cbn. now rewrite app_assoc. Qed.

Lemma logged_nil (st : state) : logged st [] = st.
Proof. destruct st. unfold logged; cbn. now rewrite app_nil_r. Qed.

Lemma score_from_spec (w : world) (remaining : nat) :
  forall (i : nat) (cur : list lead) (st : state),
    length cur = i + remaining ->
    score_from w remaining i cur st
      = (inr (take i cur ++
              imap (fun j l => with_icp l (icp_of_reply (chat w l (i + j))))
                   (drop i cur)),
         logged st (concat (imap (fun j l => scoring_log l (chat w l (i + j)))
                                 (drop i cur)))).
Proof.
  induction remaining as [| remaining IH]; intros i cur st Hlen.
  - rewrite drop_ge by lia. cbn. rewrite app_nil_r, take_ge by lia.
    now rewrite logged_nil.
  - rewrite score_from_step. cbv zeta.
    destruct (lookup_lt_is_Some_2 cur i ltac:(lia)) as [current Hcur].
    rewrite Hcur. cbn [default].
    rewrite IH by (rewrite length_insert; lia).
    rewrite (drop_S cur current i Hcur). cbn [imap concat].
    rewrite drop_insert_lt by lia.
    rewrite (take_S_r _ i (with_icp current (icp_of_reply (chat w current i))))
      by (apply list_lookup_insert_eq; lia).
    rewrite take_insert_ge by lia.
    rewrite logged_logged, <- app_assoc, Nat.add_0_r. cbn [app]. unfold id.
    rewrite (imap_ext _ ((fun j l => with_icp l (icp_of_reply (chat w l (i + j)))) ∘ S))
      by (intros; unfold compose; now rewrite Nat.add_succ_r).
    rewrite (imap_ext _ ((fun j l => scoring_log l (chat w l (i + j))) ∘ S))
      by (intros; unfold compose; now rewrite Nat.add_succ_r).
    reflexivity.
Qed.

Lemma score_from_all (w : world) (leads : list lead) (st : state) :
  score_from w (length leads) 0 leads st
    = (inr (scored w leads),
       logged st (concat (imap (fun i l => scoring_log l (chat w l i)) leads))).
Proof. now rewrite score_from_spec by lia. Qed.

(** C1, as the code has it.  [scoreProfile] never raises.  It returns the
    default failure score (0, "D", "Error during scoring") when the call
    rejects, when the answer has no content, when the content is not JSON and
    when it is the JSON [null].  For any other JSON content each of the three
    keys is read with [||]: a key whose value is truthy is kept, and a key
    that is missing or holds a falsy value (0, the empty string, [false],
    [null]) gets its own default instead: score 0, grade "D", reasoning
    "No reasoning provided".  In the loop every lead is scored by its own
    reply, whatever happened to the leads before it. *)
Theorem C1_scoring_isolated (w : world) (leads : list lead) (st : state) :
  (forall profile nth st0,
     scoreProfile w profile nth st0
       = (inr (icp_of_reply (chat w profile nth)),
          logged st0 (scoring_log profile (chat w profile nth)))) /\
  (forall e,
     icp_of_reply (ChatRejects e) = failure_score /\
     icp_of_reply ChatNoContent = failure_score /\
     icp_of_reply (ChatNotJson e) = failure_score /\
     icp_of_reply (ChatJson JNull) = failure_score) /\
  (forall result, nullish result = false ->
     icp_of_reply (ChatJson result)
       = mkIcp (js_or (get result "score") (JNum 0))
               (js_or (get result "grade") (JStr "D"))
               (js_or (get result "reasoning") (JStr "No reasoning provided"))) /\
  (forall v d, (truthy v = true -> js_or v d = v) /\ (truthy v = false -> js_or v d = d)) /\
  (configured (OPENAI_API_KEY w) = true ->
     exists st', score_leads w leads st = (inr (scored w leads), st')) /\
  length (scored w leads) = length leads /\
  (forall i l, leads !! i = Some l ->
     scored w leads !! i = Some (with_icp l (icp_of_reply (chat w l i)))).
Proof.
  repeat split.
  - apply scoreProfile_runs.
  - intros result Hres. cbn. now rewrite Hres.
  - unfold js_or. now intros ->.
  - unfold js_or. now intros ->.
  - intros Hkey. unfold score_leads. rewrite Hkey, score_from_all. eauto.
  - unfold scored. apply length_imap.
  - intros i l Hl. unfold scored. rewrite list_lookup_imap, Hl. reflexivity.
Qed.

Lemma C1_witness :
  scored Sample.partial_scores [apolloLead "a" "t" Sample.ada; apolloLead "b" "t" Sample.grace]
    !! 1 = Some (with_icp (apolloLead "b" "t" Sample.grace) failure_score).
Proof.
  destruct (C1_scoring_isolated Sample.partial_scores
              [apolloLead "a" "t" Sample.ada; apolloLead "b" "t" Sample.grace] init)
    as (_ & _ & _ & _ & _ & _ & Hith).
  apply (Hith 1 (apolloLead "b" "t" Sample.grace)). reflexivity.
Defined.

(** C1, as the spec states it, fails for a reply that is JSON but lacks
    expected keys: the reply [{"score": 85}] is scored 85, "D",
    "No reasoning provided", not with the default failure score. *)
Lemma C1_counterexample :
  chat Sample.partial_scores ∅ 0 = ChatJson (JObj {[ "score" := JNum 85%Z ]}) /\
  fst (scoreProfile Sample.partial_scores ∅ 0 init)
    = inr (mkIcp (JNum 85%Z) (JStr "D") (JStr "No reasoning provided")) /\
  mkIcp (JNum 85%Z) (JStr "D") (JStr "No reasoning provided") <> failure_score.
Proof.
  split; [reflexivity | split; [reflexivity | discriminate]].
Qed.

(** ** Waiting for an actor run *)

Section Waiting.
Context (w : world) (actor runId apifyToken : string)
        (shape : string -> string -> jsval -> lead).

Let round : list event := poll_round actor runId apifyToken.
Let view (k : nat) : poll_view := poll_at w actor runId apifyToken k.
Let wait := wait_for_run w actor runId apifyToken shape.

(** One turn of the [while] loop, read through [poll_at]. *)
Lemma wait_for_run_step (remaining k : nat) (st : state) :
  wait (S remaining) k st
    = match view k with
      | PollThrows e => (inl e, logged st round)
      | PollSucceeded data => collect_results w data apifyToken shape (logged st round)
      | PollFailed => (inl job_failed_error, logged st round)
      | PollPending => wait remaining (S k) (logged st round)
      end.
Proof.
  subst wait view round. unfold poll_at, view_poll, poll_round.
  cbn [wait_for_run]. unfold bind, emit, do_fetch, bind, emit, read_json, prop,
    throw, ret, logged. cbn.
  rewrite <- !app_assoc. cbn [app].
  destruct (fetch w "GET" _ None k) as [e | r]; [reflexivity |].
  destruct (json r) as [e | statusData]; [reflexivity |].
  destruct (nullish statusData); [reflexivity |].
  destruct (nullish (get statusData "data")); [reflexivity |].
  destruct (is_str "SUCCEEDED" _); [reflexivity |].
  destruct (is_str "FAILED" _); reflexivity.
Qed.

(** As long as the run is pending the loop only sleeps and asks again. *)
Lemma wait_while_pending (n : nat) :
  forall (remaining k : nat) (st : state),
    (forall j, j < n -> view (k + j) = PollPending) ->
    wait (n + remaining) k st
      = wait remaining (k + n) (logged st (concat (replicate n round))).
Proof.
  induction n as [| n IH]; intros remaining k st Hpending.
  - cbn. now rewrite Nat.add_0_r, logged_nil.
  - cbn [Nat.add]. rewrite wait_for_run_step.
    rewrite <- (Nat.add_0_r k) at 1. rewrite (Hpending 0) by lia.
    rewrite IH.
    + rewrite logged_logged. cbn [replicate concat].
      now rewrite Nat.add_succ_r.
    + intros j Hj. rewrite Nat.add_succ_l, <- Nat.add_succ_r.
      apply Hpending. lia.
Qed.

Lemma wait_times_out (st : state) :
  run_timed_out w actor runId apifyToken ->
  wait maxAttempts 0 st
    = (inl timeout_error, logged st (concat (replicate maxAttempts round))).
Proof.
  intros Hpending.
  rewrite <- (Nat.add_0_r maxAttempts) at 1.
  rewrite wait_while_pending by (intros j Hj; now apply Hpending).
  reflexivity.
Qed.

Lemma wait_job_failed (st : state) :
  run_reported_failed w actor runId apifyToken ->
  exists k, k < maxAttempts /\
    wait maxAttempts 0 st
      = (inl job_failed_error, logged st (concat (replicate (S k) round))).
Proof.
  intros (k & Hk & Hfailed & Hpending). exists k. split; [exact Hk |].
  replace maxAttempts with (k + S (maxAttempts - S k)) at 1 by lia.
  rewrite wait_while_pending by (intros j Hj; now apply Hpending).
  rewrite wait_for_run_step. cbn [Nat.add]. fold (view k) in Hfailed.
  rewrite Hfailed, logged_logged.
  do 2 f_equal. change (S k) with (1 + k). rewrite Nat.add_comm.
  rewrite replicate_add, concat_app. cbn. now rewrite ?app_nil_r.
Qed.

End Waiting.

Lemma quiet_ret {A} (a : A) : quiet (ret a).
Proof. intros st r st' [= <- <-]. reflexivity. Qed.

Lemma quiet_throw {A} (e : exn) : quiet (@throw A e).
Proof. intros st r st' [= <- <-]. reflexivity. Qed.

Lemma quiet_bind {A B} (m : M A) (k : A -> M B) :
  quiet m -> (forall a, quiet (k a)) -> quiet (bind m k).
Proof.
  intros Hm Hk st r st' Hrun. unfold bind in Hrun.
  destruct (m st) as [[e | a] st1] eqn:Hfirst.
  - injection Hrun as <- <-. now apply (Hm st (inl e)).
  - rewrite (Hk a st1 r st' Hrun). now apply (Hm st (inr a)).
Qed.

Lemma quiet_map_M {A B} (f : A -> M B) (l : list A) :
  (forall a, quiet (f a)) -> quiet (map_M f l).
Proof.
  intros Hf. induction l as [| x l IH]; cbn [map_M].
  - apply quiet_ret.
  - apply quiet_bind; [apply Hf |]. intros y.
    apply quiet_bind; [apply IH |]. intros ys. apply quiet_ret.
Qed.

Lemma quiet_prop (v : jsval) (k : string) : quiet (prop v k).
Proof. unfold prop. destruct (nullish v); [apply quiet_throw | apply quiet_ret]. Qed.

Lemma quiet_normalize_with (w : world) (shape : string -> string -> jsval -> lead)
    (record : jsval) : quiet (normalize_with w shape record).
Proof.
  intros st r st'. unfold normalize_with, bind, fresh_uuid, prop, iso_now, ret, throw.
  destruct (nullish record); intros [= <- <-]; reflexivity.
Qed.

Lemma quiet_map_results (w : world) (shape : string -> string -> jsval -> lead)
    (results : jsval) : quiet (map_results w shape results).
Proof.
  unfold map_results.
  destruct results; try (cbn; apply quiet_throw).
  apply quiet_map_M. intros a. apply quiet_normalize_with.
Qed.

Lemma collect_results_log (w : world) (data : jsval) (apifyToken : string)
    (shape : string -> string -> jsval -> lead) (st : state)
    (r : exn + list lead) (st' : state) :
  collect_results w data apifyToken shape st = (r, st') ->
  log st' = log st ++
    [EFetch "GET" (dataset_url (to_string (get data "defaultDatasetId")) apifyToken) None].
Proof.
  unfold collect_results, bind at 1, do_fetch, bind at 1, emit. cbn.
  destruct (fetch w "GET" _ None 0) as [e | resp]; cbn.
  - intros [= <- <-]. reflexivity.
  - unfold bind, read_json. destruct (json resp) as [e | results]; cbn.
    + intros [= <- <-]. reflexivity.
    + intros Hmap. now rewrite (quiet_map_results _ _ _ _ _ _ Hmap).
Qed.



Lemma map_M_null_record (w : world) (shape : string -> string -> jsval -> lead)
    (items : list jsval) :
  Exists (fun record => nullish record = true) items ->
  forall st, exists v st',
    nullish v = true /\
    map_M (normalize_with w shape) items st
      = (inl (JsError ("Cannot read properties of " +:+ to_string v)), st').
Proof.
  induction items as [| record items IH]; intros Hnull st.
  - inversion Hnull.
  - cbn [map_M]. rewrite bind_run.
    destruct (nullish record) eqn:Hrecord.
    + unfold normalize_with, bind, fresh_uuid, prop, throw. rewrite Hrecord. cbn.
      exists record. eauto.
    + rewrite (normalize_with_object _ _ _ _ Hrecord), bind_run.
      apply Exists_cons in Hnull as [Hhead | Htail]; [congruence |].
      destruct (IH Htail (mkState (log st) (S (uuids st)) (S (dates st))))
        as (v & st' & Hv & ->). eauto.
Qed.







(** ** After sourcing: scoring, saving, answering *)

Lemma score_leads_runs (w : world) (leads : list lead) (st : state) :
  score_leads w leads st
    = (inr (final_leads w leads), logged st (scoring_events w leads)).
Proof.
  unfold score_leads, final_leads, scoring_events.
  destruct (configured (OPENAI_API_KEY w)).
  - apply score_from_all.
  - unfold ret. now rewrite logged_nil.
Qed.

Lemma save_leads_runs (w : world) (leads : list lead) (st : state) :
  save_leads w leads st = (inr tt, logged st (saving_log w leads)).
Proof.
  unfold save_leads, saving_log.
  destruct leads as [| l leads]; [unfold ret; now rewrite logged_nil |].
  rewrite bool_decide_eq_false_2 by discriminate.
  unfold try_catch, bind, emit, throw, ret, logged. cbn.
  destruct (supabase_insert w (l :: leads)) as [e | error]; cbn.
  - now rewrite <- app_assoc.
  - destruct (truthy error); cbn; [now rewrite <- app_assoc | reflexivity].
Qed.

Lemma final_leads_length (w : world) (leads : list lead) :
  length (final_leads w leads) = length leads.
Proof.
  unfold final_leads, scored. destruct (configured _); [apply length_imap | reflexivity].
Qed.

Lemma final_leads_nil (w : world) (leads : list lead) :
  final_leads w leads = [] <-> leads = [].
Proof.
  rewrite <- !length_zero_iff_nil. now rewrite final_leads_length.
Qed.

Lemma chats_of_scoring (f : nat -> lead -> chat_reply) (leads : list lead) :
  List.filter is_chat (concat (imap (fun i l => scoring_log l (f i l)) leads))
    = map EChat leads.
Proof.
  revert f. induction leads as [| l leads IH]; intros f; [reflexivity |].
  cbn [imap concat map]. rewrite List.filter_app.
  unfold compose. rewrite (IH (fun i => f (S i))).
  unfold scoring_log. destruct (reply_throws (f 0 l)); reflexivity.
Qed.

Lemma scoring_sends_nothing_else (f : nat -> lead -> chat_reply) (leads : list lead) :
  List.filter is_insert (concat (imap (fun i l => scoring_log l (f i l)) leads)) = [] /\
  existsb is_insert (concat (imap (fun i l => scoring_log l (f i l)) leads)) = false /\
  existsb is_fetch (concat (imap (fun i l => scoring_log l (f i l)) leads)) = false.
Proof.
  revert f. induction leads as [| l leads IH]; intros f; [now repeat split |].
  cbn [imap concat]. rewrite List.filter_app, !existsb_app. unfold compose.
  destruct (IH (fun i => f (S i))) as (-> & -> & ->).
  unfold scoring_log. now destruct (reply_throws (f 0 l)).
Qed.

Lemma complete_runs (w : world) (method : jsval) (leads : list lead) (st : state) :
  complete w method leads st
    = (inr (success_response method (final_leads w leads) (now w (dates st))),
       dated (logged st (scoring_events w leads ++ saving_log w (final_leads w leads)))).
Proof.
  unfold complete. unfold bind at 1. rewrite score_leads_runs.
  unfold bind at 1. rewrite save_leads_runs.
  unfold bind, iso_now, ret, dated. cbn. now rewrite <- app_assoc.
Qed.

Lemma is_str_eq (lit : string) (v : jsval) : is_str lit v = true -> v = JStr lit.
Proof.
  destruct v; cbn; try discriminate. intros H. now apply String.eqb_eq in H as ->.
Qed.

Lemma searchApolloLeads_needs_token (w : world) (q : query) (st : state)
    (leads : list lead) (st1 : state) :
  searchApolloLeads w q st = (inr leads, st1) -> APIFY_API_TOKENS w <> [].
Proof.
  intros Hrun Hnone. unfold searchApolloLeads, try_catch in Hrun.
  rewrite bool_decide_eq_true_2 in Hrun by exact Hnone.
  cbn in Hrun. discriminate Hrun.
Qed.

Lemma searchGoogleLeads_needs_config (w : world) (q : query) (st : state)
    (leads : list lead) (st1 : state) :
  searchGoogleLeads w q st = (inr leads, st1) ->
  negb (configured (GOOGLE_API_KEY w)) || negb (configured (GOOGLE_CSE_ID w))
    || bool_decide (APIFY_API_TOKENS w = []) = false.
Proof.
  intros Hrun. unfold searchGoogleLeads, try_catch in Hrun.
  destruct (negb _ || negb _ || bool_decide _); [| reflexivity].
  cbn in Hrun. discriminate Hrun.
Qed.

(** Once sourcing has returned, [POST] is the rest of the pipeline. *)
Lemma POST_after_sourcing (w : world) (body : jsval) (st : state)
    (leads : list lead) (st1 : state) :
  sourced w body st leads st1 ->
  POST w (inr body) st = complete w (get body "method") leads st1.
Proof.
  intros ((Hbody & Hmethod & Htitles & Hplaces) & Hknown & Hrun).
  unfold sourcing, known_method in *.
  unfold POST, try_catch, handle. unfold bind at 1. unfold ret at 1.
  unfold bind at 1. unfold prop. rewrite Hbody. unfold ret at 1.
  rewrite Hmethod, Htitles, Hplaces. cbn [negb orb].
  destruct (is_str "apollo" (get body "method")) eqn:Hapollo.
  - rewrite bool_decide_eq_false_2
      by (eapply searchApolloLeads_needs_token; exact Hrun).
    unfold bind at 1. rewrite Hrun, complete_runs. reflexivity.
  - cbn in Hknown. rewrite Hknown.
    rewrite (searchGoogleLeads_needs_config _ _ _ _ _ Hrun).
    unfold bind at 1. rewrite Hrun, complete_runs. reflexivity.
Qed.

(** C4.  When sourcing returns no leads, [POST] answers 200 with status
    "success", an empty [leads] array and [count] 0; after sourcing it only
    draws the timestamp: nothing is scored and nothing is inserted. *)
Theorem C4_empty_sourcing_completes (w : world) (body : jsval) (st st1 : state) :
  sourced w body st [] st1 ->
  exists res,
    POST w (inr body) st = (inr res, dated st1) /\
    res = success_response (get body "method") [] (now w (dates st1)) /\
    http_status res = 200%Z /\
    get (json_body res) "status" = JStr "success" /\
    get (get (json_body res) "data") "count" = JNum 0 /\
    get (get (json_body res) "data") "leads" = JArr [].
Proof.
  intros Hsourced. eexists. split; [| repeat split].
  rewrite (POST_after_sourcing _ _ _ _ _ Hsourced), complete_runs.
  assert (Hfinal : final_leads w [] = []) by now apply final_leads_nil.
  rewrite Hfinal. unfold scoring_events. cbn [imap concat saving_log app].
  destruct (configured _); now rewrite logged_nil.
Qed.

Lemma C4_witness :
  exists res st1,
    POST Sample.no_matches (inr Sample.apollo_body) init = (inr res, dated st1) /\
    get (get (json_body res) "data") "count" = JNum 0.
Proof.
  destruct (C4_empty_sourcing_completes Sample.no_matches Sample.apollo_body init
              (snd (sourcing Sample.no_matches Sample.apollo_body init)))
    as (res & Hrun & _ & _ & _ & Hcount & _).
  - sample_sourced.
  - exists res. eexists. split; [exact Hrun | exact Hcount].
Defined.

(** C2, as the code has it.  When the insert of the final batch throws or
    returns an error after sourcing and scoring succeeded, [POST] logs the
    failure and still answers 200 with status "success", the scored leads and
    their count. *)
Theorem C2_storage_failure_is_only_logged (w : world) (body : jsval)
    (st : state) (leads : list lead) (st1 : state) :
  sourced w body st leads st1 ->
  leads <> [] ->
  insert_failed (supabase_insert w (final_leads w leads)) ->
  exists res label,
    POST w (inr body) st
      = (inr res,
         dated (logged st1 (scoring_events w leads ++
                            [EInsert "leads" (final_leads w leads); ELog label]))) /\
    (label = "Supabase insert error:" \/ label = "Error saving leads to database:") /\
    res = success_response (get body "method") (final_leads w leads) (now w (dates st1)) /\
    http_status res = 200%Z /\
    get (json_body res) "status" = JStr "success" /\
    get (get (json_body res) "data") "count" = JNum (Z.of_nat (length leads)).
Proof.
  intros Hsourced Hsome Hfailed.
  rewrite (POST_after_sourcing _ _ _ _ _ Hsourced), complete_runs.
  assert (Hfinal : final_leads w leads <> []) by now rewrite final_leads_nil.
  unfold saving_log.
  destruct (final_leads w leads) as [| l rest] eqn:Hrows; [contradiction |].
  rewrite <- Hrows in *.
  destruct (supabase_insert w (final_leads w leads)) as [e | error]; cbn in Hfailed.
  - eexists _, _. split; [reflexivity |]. split; [now right |].
    repeat split. cbn. now rewrite final_leads_length.
  - rewrite Hfailed.
    eexists _, _. split; [reflexivity |]. split; [now left |].
    repeat split. cbn. now rewrite final_leads_length.
Qed.

Lemma C2_witness :
  exists res st',
    POST Sample.storage_down (inr Sample.apollo_body) init = (inr res, st') /\
    get (json_body res) "status" = JStr "success".
Proof.
  destruct (C2_storage_failure_is_only_logged Sample.storage_down Sample.apollo_body init
              (leads_of (sourcing Sample.storage_down Sample.apollo_body init))
              (snd (sourcing Sample.storage_down Sample.apollo_body init)))
    as (res & label & Hrun & _ & _ & _ & Hok & _).
  - sample_sourced.
  - intros Hnone. apply (f_equal length) in Hnone. vm_compute in Hnone.
    discriminate Hnone.
  - by_vm.
  - exists res. eexists. split; [exact Hrun | exact Hok].
Defined.

(** C2, as the spec states it, fails: with a Supabase that rejects every
    insert, a run whose sourcing and scoring succeeded answers 200 "success"
    with both leads, and the rejection is only logged. *)
Lemma C2_counterexample :
  (forall rows, insert_failed (supabase_insert Sample.storage_down rows)) /\
  exists res st',
    POST Sample.storage_down (inr Sample.apollo_body) init = (inr res, st') /\
    http_status res = 200%Z /\
    get (json_body res) "status" = JStr "success" /\
    get (get (json_body res) "data") "count" = JNum 2 /\
    last (log st') = Some (ELog "Supabase insert error:").
Proof.
  split; [intros rows; reflexivity |].
  exists (response_of (POST Sample.storage_down (inr Sample.apollo_body) init)),
         (snd (POST Sample.storage_down (inr Sample.apollo_body) init)).
  split; [apply returned_response; by_vm | conjs; by_vm].
Qed.

(** ** When enrichment fails *)

Lemma searchGoogleLeads_enrich_throws (w : world) (q : query) (st : state)
    (links : list jsval) (st1 : state) (e : exn) (st2 : state) :
  configured (GOOGLE_API_KEY w) = true ->
  configured (GOOGLE_CSE_ID w) = true ->
  APIFY_API_TOKENS w <> [] ->
  profile_links w q st = (inr links, st1) ->
  links <> [] ->
  enrich w links st1 = (inl e, st2) ->
  searchGoogleLeads w q st = (inl e, logged st2 [ELog "Google search error:"]).
Proof.
  intros Hkey Hcse Htok Hlinks Hsome Henrich.
  unfold searchGoogleLeads, try_catch. rewrite Hkey, Hcse.
  rewrite (bool_decide_eq_false_2 _ Htok). cbn [negb orb].
  unfold bind at 1. rewrite Hlinks.
  rewrite (bool_decide_eq_false_2 _ Hsome), Henrich.
  reflexivity.
Qed.

Lemma POST_google_throws (w : world) (body : jsval) (st : state) (e : exn)
    (st1 : state) :
  valid_request body ->
  is_str "google_apify" (get body "method") = true ->
  configured (GOOGLE_API_KEY w) = true ->
  configured (GOOGLE_CSE_ID w) = true ->
  APIFY_API_TOKENS w <> [] ->
  searchGoogleLeads w (google_query body) st = (inl e, st1) ->
  POST w (inr body) st
    = (inr (failure_response e (now w (dates st1))),
       dated (logged st1 [ELog "Lead generation error:"])).
Proof.
  intros (Hbody & Hmethod & Htitles & Hplaces) Hgoogle Hkey Hcse Htok Hrun.
  unfold POST, try_catch, handle. unfold bind at 1. unfold ret at 1.
  unfold bind at 1. unfold prop. rewrite Hbody. unfold ret at 1.
  rewrite Hmethod, Htitles, Hplaces. cbn [negb orb].
  rewrite (is_str_eq _ _ Hgoogle) in *. cbn [is_str]. 
  replace (String.eqb "google_apify" "apollo") with false by by_vm.
  replace (String.eqb "google_apify" "google_apify") with true by by_vm.
  rewrite Hkey, Hcse, (bool_decide_eq_false_2 _ Htok). cbn [negb orb].
  unfold bind at 1. rewrite Hrun. reflexivity.
Qed.

(** C3, as the code has it.  In the search-derived method, once profile links
    were found and the enrichment run was started, a run that is reported
    [FAILED], or that is still pending after 30 status requests, aborts the
    request: [POST] answers 500 with status "error" and the loop's error
    message, after logging the error twice; no lead is scored, stored or
    returned. *)
Theorem C3_enrichment_failure_aborts (w : world) (body : jsval) (st : state)
    (links : list jsval) (st1 : state) (runId : string) (st2 : state) :
  valid_request body ->
  is_str "google_apify" (get body "method") = true ->
  configured (GOOGLE_API_KEY w) = true ->
  configured (GOOGLE_CSE_ID w) = true ->
  APIFY_API_TOKENS w <> [] ->
  profile_links w (google_query body) st = (inr links, st1) ->
  links <> [] ->
  start_run w linkedin_actor (first_token w) (enrich_input links) st1 = (inr runId, st2) ->
  (run_reported_failed w linkedin_actor runId (first_token w) ->
   exists k, k < 30 /\
     POST w (inr body) st
       = (inr (failure_response job_failed_error (now w (dates st2))),
          dated (logged st2
            (concat (replicate (S k) (poll_round linkedin_actor runId (first_token w)))
             ++ [ELog "Google search error:"; ELog "Lead generation error:"])))) /\
  (run_timed_out w linkedin_actor runId (first_token w) ->
   POST w (inr body) st
     = (inr (failure_response timeout_error (now w (dates st2))),
        dated (logged st2
          (concat (replicate 30 (poll_round linkedin_actor runId (first_token w)))
           ++ [ELog "Google search error:"; ELog "Lead generation error:"])))).
Proof.
  intros Hvalid Hgoogle Hkey Hcse Htok Hlinks Hsome Hstart.
  assert (Henrich : enrich w links st1
                    = wait_for_run w linkedin_actor runId (first_token w) googleLead
                        maxAttempts 0 st2).
  { unfold enrich. unfold bind at 1. now rewrite Hstart. }
  split.
  - intros Hfailed.
    destruct (wait_job_failed w linkedin_actor runId (first_token w) googleLead st2 Hfailed)
      as (k & Hk & Hwait).
    exists k. split; [exact Hk |].
    rewrite <- Henrich in Hwait.
    rewrite (POST_google_throws w body st job_failed_error _ Hvalid Hgoogle Hkey Hcse Htok
               (searchGoogleLeads_enrich_throws _ _ _ _ _ _ _ Hkey Hcse Htok Hlinks Hsome Hwait)).
    now rewrite !logged_logged, <- app_assoc.
  - intros Htimeout.
    pose proof (wait_times_out w linkedin_actor runId (first_token w) googleLead st2 Htimeout)
      as Hwait.
    rewrite <- Henrich in Hwait.
    rewrite (POST_google_throws w body st timeout_error _ Hvalid Hgoogle Hkey Hcse Htok
               (searchGoogleLeads_enrich_throws _ _ _ _ _ _ _ Hkey Hcse Htok Hlinks Hsome Hwait)).
    now rewrite !logged_logged, <- app_assoc.
Qed.

Lemma C3_witness :
  exists k st',
    k < 30 /\
    POST Sample.enrichment_fails (inr Sample.google_body) init
      = (inr (failure_response job_failed_error
                (now Sample.enrichment_fails
                   (dates (snd (profile_links Sample.enrichment_fails
                                  (google_query Sample.google_body) init))))), st').
Proof.
  pose (found := profile_links Sample.enrichment_fails (google_query Sample.google_body) init).
  pose (started := start_run Sample.enrichment_fails linkedin_actor
                     (first_token Sample.enrichment_fails)
                     (enrich_input (value_of [] found)) (snd found)).
  destruct (C3_enrichment_failure_aborts Sample.enrichment_fails Sample.google_body init
              (value_of [] found) (snd found) (value_of "" started) (snd started))
    as [Hfailed _].
  - unfold valid_request; conjs; by_vm.
  - by_vm.
  - by_vm.
  - by_vm.
  - vm_compute. discriminate.
  - apply returned_value. by_vm.
  - intros Hnone. apply (f_equal length) in Hnone. vm_compute in Hnone.
    discriminate Hnone.
  - apply returned_value. by_vm.
  - destruct Hfailed as (k & Hk & Hrun).
    + exists 1. split; [unfold maxAttempts; lia | split; [by_vm |]].
      intros [| j] Hj; [by_vm | lia].
    + exists k. eexists. split; [exact Hk |].
      replace (dates (snd found)) with (dates (snd started)) by by_vm.
      exact Hrun.
Defined.

(** C3, as the spec states it, fails: when the enrichment run is reported
    [FAILED], the request ends with 500 "error" and the message of the loop's
    error, not with a degraded success. *)
Lemma C3_counterexample :
  poll_at Sample.enrichment_fails linkedin_actor "run1" "tok" 1 = PollFailed /\
  exists res st',
    POST Sample.enrichment_fails (inr Sample.google_body) init = (inr res, st') /\
    http_status res = 500%Z /\
    get (json_body res) "status" = JStr "error" /\
    get (json_body res) "message" = JStr "Apify actor run failed" /\
    get (json_body res) "data" = JUndefined.
Proof.
  split; [by_vm |].
  exists (response_of (POST Sample.enrichment_fails (inr Sample.google_body) init)),
         (snd (POST Sample.enrichment_fails (inr Sample.google_body) init)).
  split; [apply returned_response; by_vm | conjs; by_vm].
Qed.

(** ** What sourcing returns *)

Lemma yields_ret {A} (P : A -> Prop) (a : A) : P a -> yields P (ret a).
Proof. intros Ha st b st' [= <- <-]. exact Ha. Qed.

Lemma yields_throw {A} (P : A -> Prop) (e : exn) : yields P (throw e).
Proof. intros st b st' [=]. Qed.

Lemma yields_bind {A B} (P : B -> Prop) (m : M A) (k : A -> M B) :
  (forall a, yields P (k a)) -> yields P (bind m k).
Proof.
  intros Hk st b st' Hrun. unfold bind in Hrun.
  destruct (m st) as [[e | a] st1]; [discriminate Hrun |].
  exact (Hk a st1 b st' Hrun).
Qed.


Lemma yields_map_M {A B} (P : B -> Prop) (f : A -> M B) (l : list A) :
  (forall a, yields P (f a)) -> yields (Forall P) (map_M f l).
Proof.
  intros Hf. induction l as [| x l IH]; cbn [map_M].
  - apply yields_ret. constructor.
  - intros st bs st' Hrun. unfold bind at 1 in Hrun.
    destruct (f x st) as [[e | y] st1] eqn:Hx; [discriminate Hrun |].
    unfold bind at 1 in Hrun.
    destruct (map_M f l st1) as [[e | ys] st2] eqn:Hrest; [discriminate Hrun |].
    injection Hrun as <- <-. constructor.
    + exact (Hf x st y st1 Hx).
    + exact (IH st1 ys st2 Hrest).
Qed.

Section Shapes.
Context (w : world) (shape : string -> string -> jsval -> lead)
        (P : lead -> Prop) (Hshape : forall id t record, P (shape id t record)).



End Shapes.






(** ** The log only grows, and sourcing asks a provider before it returns *)

Lemma grows_quiet {A} (m : M A) : quiet m -> grows m.
Proof. intros Hm st r st' Hrun. exists []. now rewrite app_nil_r, (Hm _ _ _ Hrun). Qed.

Lemma grows_emit (e : event) : grows (emit e).
Proof. intros st r st' [= <- <-]. now exists [e]. Qed.

Lemma grows_bind {A B} (m : M A) (k : A -> M B) :
  grows m -> (forall a, grows (k a)) -> grows (bind m k).
Proof.
  intros Hm Hk st r st' Hrun. unfold bind in Hrun.
  destruct (m st) as [[e | a] st1] eqn:Hfirst.
  - injection Hrun as <- <-. exact (Hm _ _ _ Hfirst).
  - destruct (Hm _ _ _ Hfirst) as [t1 H1]. destruct (Hk a _ _ _ Hrun) as [t2 H2].
    exists (t1 ++ t2). now rewrite H2, H1, app_assoc.
Qed.

Lemma grows_try_catch {A} (m : M A) (h : exn -> M A) :
  grows m -> (forall e, grows (h e)) -> grows (try_catch m h).
Proof.
  intros Hm Hh st r st' Hrun. unfold try_catch in Hrun.
  destruct (m st) as [[e | a] st1] eqn:Hfirst.
  - destruct (Hm _ _ _ Hfirst) as [t1 H1]. destruct (Hh e _ _ _ Hrun) as [t2 H2].
    exists (t1 ++ t2). now rewrite H2, H1, app_assoc.
  - injection Hrun as <- <-. exact (Hm _ _ _ Hfirst).
Qed.

Lemma grows_do_fetch (w : world) (method url : string) (body : option jsval)
    (nth : nat) : grows (do_fetch w method url body nth).
Proof.
  unfold do_fetch. apply grows_bind; [apply grows_emit |]. intros _.
  apply grows_quiet. destruct (fetch w method url body nth);
    [apply quiet_throw | apply quiet_ret].
Qed.

Lemma fetches_do_fetch (w : world) (method url : string) (body : option jsval)
    (nth : nat) : fetches (do_fetch w method url body nth).
Proof.
  intros st a st'. unfold do_fetch, bind, emit, throw, ret.
  destruct (fetch w method url body nth); intros [= <- <-].
  now exists [EFetch method url body].
Qed.

Lemma fetches_throw {A} (e : exn) : fetches (@throw A e).
Proof. intros st a st' [=]. Qed.

Lemma fetches_bind_l {A B} (m : M A) (k : A -> M B) :
  fetches m -> (forall a, grows (k a)) -> fetches (bind m k).
Proof.
  intros Hm Hk st b st' Hrun. unfold bind in Hrun.
  destruct (m st) as [[e | a] st1] eqn:Hfirst; [discriminate Hrun |].
  destruct (Hm _ _ _ Hfirst) as (t1 & H1 & Hf). destruct (Hk a _ _ _ Hrun) as [t2 H2].
  exists (t1 ++ t2). split; [now rewrite H2, H1, app_assoc |].
  now rewrite existsb_app, Hf.
Qed.

Lemma fetches_bind_r {A B} (m : M A) (k : A -> M B) :
  grows m -> (forall a, fetches (k a)) -> fetches (bind m k).
Proof.
  intros Hm Hk st b st' Hrun. unfold bind in Hrun.
  destruct (m st) as [[e | a] st1] eqn:Hfirst; [discriminate Hrun |].
  destruct (Hm _ _ _ Hfirst) as [t1 H1]. destruct (Hk a _ _ _ Hrun) as (t2 & H2 & Hf).
  exists (t1 ++ t2). split; [now rewrite H2, H1, app_assoc |].
  rewrite existsb_app, Hf. apply orb_true_r.
Qed.

Lemma fetches_rethrow {A} (m : M A) (label : string) :
  fetches m ->
  fetches (try_catch m (fun error => bind (emit (ELog label)) (fun _ => throw error))).
Proof.
  intros Hm st a st' Hrun. unfold try_catch in Hrun.
  destruct (m st) as [[e | a0] st1] eqn:Hfirst; [discriminate Hrun |].
  injection Hrun as <- <-. exact (Hm _ _ _ Hfirst).
Qed.

Lemma quiet_read_json (r : http_response) : quiet (read_json r).
Proof. unfold read_json. destruct (json r); [apply quiet_throw | apply quiet_ret]. Qed.

Lemma quiet_filter_M {A} (pred : A -> M bool) (l : list A) :
  (forall a, quiet (pred a)) -> quiet (filter_M pred l).
Proof.
  intros Hp. induction l as [| x l IH]; cbn [filter_M].
  - apply quiet_ret.
  - apply quiet_bind; [apply Hp |]. intros keep.
    apply quiet_bind; [apply IH |]. intros kept. apply quiet_ret.
Qed.

Lemma quiet_encodeURIComponent (s : string) : quiet (encodeURIComponent s).
Proof.
  unfold encodeURIComponent. destruct (lone_surrogate s); [apply quiet_throw | apply quiet_ret].
Qed.

Lemma quiet_addArrayParams (paramName : string) (values : jsval) :
  quiet (addArrayParams paramName values).
Proof.
  unfold addArrayParams. destruct values; try apply quiet_throw.
  apply quiet_map_M. intros val.
  destruct val; try (cbn; apply quiet_throw).
  apply quiet_bind; [apply quiet_encodeURIComponent | intros encoded; apply quiet_ret].
Qed.

Lemma quiet_generateApolloUrl (q : query) : quiet (generateApolloUrl q).
Proof.
  unfold generateApolloUrl, array_clause.
  do 5 (apply quiet_bind;
          [ first [ destruct (has_items _) | destruct (lacks_items _) ];
            first [ apply quiet_addArrayParams | apply quiet_ret ]
          | intros ? ]).
  apply quiet_bind; [| intros kw; apply quiet_ret].
  destruct (truthy (keywords q)); [| apply quiet_ret].
  apply quiet_bind; [apply quiet_encodeURIComponent | intros encoded; apply quiet_ret].
Qed.

Lemma grows_collect_results (w : world) (data : jsval) (apifyToken : string)
    (shape : string -> string -> jsval -> lead) :
  grows (collect_results w data apifyToken shape).
Proof.
  intros st r st' Hrun. eexists. exact (collect_results_log _ _ _ _ _ _ _ Hrun).
Qed.

Lemma grows_wait_for_run (w : world) (actor runId apifyToken : string)
    (shape : string -> string -> jsval -> lead) (remaining : nat) :
  forall k, grows (wait_for_run w actor runId apifyToken shape remaining k).
Proof.
  induction remaining as [| remaining IH]; intros k; cbn [wait_for_run].
  - apply grows_quiet, quiet_throw.
  - apply grows_bind; [apply grows_emit | intros _].
    apply grows_bind; [apply grows_do_fetch | intros resp].
    apply grows_bind; [apply grows_quiet, quiet_read_json | intros statusData].
    apply grows_bind; [apply grows_quiet, quiet_prop | intros data].
    apply grows_bind; [apply grows_quiet, quiet_prop | intros runStatus].
    destruct (is_str "SUCCEEDED" _); [apply grows_collect_results |].
    destruct (is_str "FAILED" _); [apply grows_quiet, quiet_throw | apply IH].
Qed.

Lemma fetches_start_run (w : world) (actor apifyToken : string) (input : jsval) :
  fetches (start_run w actor apifyToken input).
Proof.
  unfold start_run. apply fetches_bind_l; [apply fetches_do_fetch |].
  intros resp. apply grows_quiet.
  destruct (negb (ok resp)); [apply quiet_throw |].
  apply quiet_bind; [apply quiet_read_json | intros runData].
  apply quiet_bind; [apply quiet_prop | intros data].
  apply quiet_bind; [apply quiet_prop | intros runId]. apply quiet_ret.
Qed.

Lemma grows_start_run (w : world) (actor apifyToken : string)
    (input : jsval) : grows (start_run w actor apifyToken input).
Proof.
  unfold start_run. apply grows_bind; [apply grows_do_fetch |].
  intros resp. apply grows_quiet.
  destruct (negb (ok resp)); [apply quiet_throw |].
  apply quiet_bind; [apply quiet_read_json | intros runData].
  apply quiet_bind; [apply quiet_prop | intros data].
  apply quiet_bind; [apply quiet_prop | intros runId]. apply quiet_ret.
Qed.

Lemma quiet_spread_terms (v : jsval) : quiet (spread_terms v).
Proof.
  unfold spread_terms. destruct (js_or v (JArr [])); first [apply quiet_ret | apply quiet_throw].
Qed.

Lemma quiet_is_profile_link (url : jsval) : quiet (is_profile_link url).
Proof.
  unfold is_profile_link. destruct url; cbn; first [apply quiet_ret | apply quiet_throw].
Qed.

Lemma fetches_profile_links (w : world) (q : query) : fetches (profile_links w q).
Proof.
  unfold profile_links.
  apply fetches_bind_r; [apply grows_quiet, quiet_spread_terms | intros titles].
  apply fetches_bind_r; [apply grows_quiet, quiet_spread_terms | intros places].
  apply fetches_bind_r; [apply grows_quiet, quiet_encodeURIComponent | intros encoded].
  apply fetches_bind_l; [apply fetches_do_fetch | intros resp].
  apply grows_quiet.
  destruct (negb (ok resp)); [apply quiet_throw |].
  apply quiet_bind; [apply quiet_read_json | intros searchData].
  apply quiet_bind; [apply quiet_prop | intros items].
  destruct (lacks_items items); [apply quiet_ret |].
  destruct items; try apply quiet_throw.
  apply quiet_bind; [apply quiet_map_M; intros item; apply quiet_prop | intros links].
  apply quiet_bind; [apply quiet_filter_M, quiet_is_profile_link | intros kept].
  apply quiet_ret.
Qed.

Lemma fetches_sourcing (w : world) (body : jsval) : fetches (sourcing w body).
Proof.
  unfold sourcing. destruct (is_str "apollo" _).
  - unfold searchApolloLeads. apply fetches_rethrow.
    destruct (bool_decide _); [apply fetches_throw |].
    apply fetches_bind_r; [apply grows_quiet, quiet_generateApolloUrl | intros url].
    apply fetches_bind_l; [apply fetches_start_run | intros runId].
    apply grows_wait_for_run.
  - unfold searchGoogleLeads. apply fetches_rethrow.
    destruct (_ || _); [apply fetches_throw |].
    apply fetches_bind_l; [apply fetches_profile_links | intros links].
    destruct (bool_decide _); [apply grows_quiet, quiet_ret |].
    unfold enrich. apply grows_bind; [apply grows_start_run | intros runId].
    apply grows_wait_for_run.
Qed.

(** ** The answer of [POST] *)

Lemma handle_unfold (w : world) (body : jsval) (st : state) :
  handle w (inr body) st =
    if nullish body
    then (inl (JsError ("Cannot read properties of " +:+ to_string body)), st)
    else if negb (truthy (get body "method")) || negb (truthy (get body "jobTitles"))
            || negb (truthy (get body "locations"))
    then (inr (mkHttp 400 (error_body "Missing required parameters")), st)
    else if is_str "apollo" (get body "method")
    then
      if bool_decide (APIFY_API_TOKENS w = [])
      then (inr (mkHttp 500 (error_body "Apify API tokens not configured")), st)
      else bind (searchApolloLeads w (apollo_query body))
                (complete w (get body "method")) st
    else if is_str "google_apify" (get body "method")
    then
      if negb (configured (GOOGLE_API_KEY w)) || negb (configured (GOOGLE_CSE_ID w))
         || bool_decide (APIFY_API_TOKENS w = [])
      then (inr (mkHttp 500 (error_body "Google or Apify API credentials not configured")), st)
      else bind (searchGoogleLeads w (google_query body))
                (complete w (get body "method")) st
    else (inr (mkHttp 400 (error_body "Invalid method specified")), st).
Proof.
  unfold handle. unfold bind at 1. unfold ret at 1. unfold bind at 1. unfold prop.
  destruct (nullish body); [reflexivity |]. unfold ret at 1.
  repeat match goal with
    | |- context [if ?c then _ else _] => destruct c
    end; reflexivity.
Qed.

(** The three ways [POST] answers: from its [catch] block; with a fixed
    error body before any sourcing; or after sourcing returned, as the rest
    of the pipeline decides. *)
Lemma POST_cases (w : world) (request : exn + jsval) (st : state) :
  (exists e st1,
     POST w request st
       = (inr (failure_response e (now w (dates st1))),
          dated (logged st1 [ELog "Lead generation error:"]))) \/
  (exists code msg,
     code <> 200%Z /\ POST w request st = (inr (mkHttp code (error_body msg)), st)) \/
  (exists body leads st1,
     request = inr body /\ sourcing w body st = (inr leads, st1) /\
     POST w request st = complete w (get body "method") leads st1).
Proof.
  unfold POST, try_catch.
  destruct request as [e | body]; [left; now exists e, st |].
  rewrite handle_unfold.
  destruct (nullish body); [left; eexists _, st; reflexivity |].
  destruct (negb _ || negb _ || negb _);
    [right; left; now exists 400%Z, "Missing required parameters" |].
  destruct (is_str "apollo" (get body "method")) eqn:Hapollo.
  - destruct (bool_decide (APIFY_API_TOKENS w = []));
      [right; left; now exists 500%Z, "Apify API tokens not configured" |].
    rewrite bind_run.
    destruct (searchApolloLeads w (apollo_query body) st) as [[e | leads] st1] eqn:Hrun.
    + left. now exists e, st1.
    + right; right. exists body, leads, st1. unfold sourcing.
      rewrite Hapollo, complete_runs. split; [reflexivity | split; [exact Hrun | reflexivity]].
  - destruct (is_str "google_apify" (get body "method"));
      [| right; left; now exists 400%Z, "Invalid method specified"].
    destruct (negb _ || negb _ || bool_decide _);
      [right; left; now exists 500%Z, "Google or Apify API credentials not configured" |].
    rewrite bind_run.
    destruct (searchGoogleLeads w (google_query body) st) as [[e | leads] st1] eqn:Hrun.
    + left. now exists e, st1.
    + right; right. exists body, leads, st1. unfold sourcing.
      rewrite Hapollo, complete_runs. split; [reflexivity | split; [exact Hrun | reflexivity]].
Qed.

Ltac each_key H :=
  repeat (apply elem_of_cons in H as [-> | H]); [.. | now apply elem_of_nil in H].

(** C6, as the code has it.  [POST] answers once, when the whole pipeline has
    run.  No answer of it, of any kind, has a session id.  Whenever it
    answers 200, sourcing has returned during the call, after at least one
    provider request; the scoring requests (one per lead when the model has a
    key, none otherwise) and the insert of the leads (when there are any)
    are in the log by the time of the answer, after those of sourcing and in
    this order; and the answer has status "success" and carries the final
    leads and their count. *)
Theorem C6_answer_after_pipeline (w : world) (request : exn + jsval) (st : state) :
  exists res st',
    POST w request st = (inr res, st') /\
    no_session_id res /\
    (http_status res = 200%Z ->
     exists body leads st1 asked scoring saving,
       request = inr body /\
       sourcing w body st = (inr leads, st1) /\
       log st1 = log st ++ asked /\ existsb is_fetch asked = true /\
       log st' = log st ++ asked ++ scoring ++ saving /\
       List.filter is_chat scoring
         = (if configured (OPENAI_API_KEY w) then map EChat leads else []) /\
       existsb is_insert scoring = false /\
       List.filter is_insert saving
         = (if bool_decide (leads = []) then [] else [EInsert "leads" (final_leads w leads)]) /\
       existsb is_chat saving = false /\
       get (json_body res) "status" = JStr "success" /\
       get (get (json_body res) "data") "leads" = JArr (map JObj (final_leads w leads)) /\
       length (final_leads w leads) = length leads /\
       get (get (json_body res) "data") "count" = JNum (Z.of_nat (length leads))).
Proof.
  destruct (POST_cases w request st)
    as [(e & st1 & Hrun) | [(code & msg & Hcode & Hrun) | (body & leads & st1 & -> & Hsrc & Hrun)]].
  - eexists _, _. split; [exact Hrun |]. split.
    + intros k Hk. each_key Hk; split; reflexivity.
    + cbn. discriminate.
  - eexists _, _. split; [exact Hrun |]. split.
    + intros k Hk. each_key Hk; split; reflexivity.
    + cbn. contradiction.
  - rewrite complete_runs in Hrun.
    eexists _, _. split; [exact Hrun |]. split.
    + intros k Hk. each_key Hk; split; reflexivity.
    + intros _. destruct (fetches_sourcing w body st leads st1 Hsrc) as (asked & Hlog & Hfetch).
      exists body, leads, st1, asked, (scoring_events w leads),
             (saving_log w (final_leads w leads)).
      conjs; try reflexivity; try assumption.
      * cbn [dated logged log]. now rewrite Hlog, <- !app_assoc.
      * unfold scoring_events. destruct (configured (OPENAI_API_KEY w)); [| reflexivity].
        apply chats_of_scoring.
      * unfold scoring_events. destruct (configured (OPENAI_API_KEY w)); [| reflexivity].
        exact (proj1 (proj2 (scoring_sends_nothing_else (fun i l => chat w l i) leads))).
      * unfold saving_log. destruct (final_leads w leads) as [| l rest] eqn:Hfinal.
        -- apply final_leads_nil in Hfinal as ->. reflexivity.
        -- rewrite bool_decide_eq_false_2
             by (intros Hnil; apply (final_leads_nil w) in Hnil; congruence).
           destruct (supabase_insert w (l :: rest)) as [e | error]; [reflexivity |].
           now destruct (truthy error).
      * unfold saving_log. destruct (final_leads w leads) as [| l rest]; [reflexivity |].
        destruct (supabase_insert w (l :: rest)) as [e | error]; [reflexivity |].
        now destruct (truthy error).
      * apply final_leads_length.
      * cbn. now rewrite final_leads_length.
Qed.

Lemma C6_witness :
  exists res st',
    POST Sample.healthy (inr Sample.apollo_body) init = (inr res, st') /\
    existsb is_fetch (log st') = true.
Proof.
  destruct (C6_answer_after_pipeline Sample.healthy (inr Sample.apollo_body) init)
    as (res & st' & Hrun & _ & Hdone).
  exists res, st'. split; [exact Hrun |].
  destruct Hdone as (body & leads & st1 & asked & scoring & saving & _ & _ & _ & Hsome
                     & Hlog & _).
  - assert (Hres : res = response_of (POST Sample.healthy (inr Sample.apollo_body) init))
      by (rewrite Hrun; reflexivity).
    rewrite Hres. by_vm.
  - rewrite Hlog. cbn [app]. now rewrite !existsb_app, Hsome.
Defined.

(** C6, as the spec states it, fails: the answer to a successful start has
    no session id under either spelling, and by the time it is produced the
    run has already made its five provider requests and holds the two scored
    leads. *)
Lemma C6_counterexample :
  exists res st',
    POST Sample.healthy (inr Sample.apollo_body) init = (inr res, st') /\
    get (json_body res) "sessionId" = JUndefined /\
    get (json_body res) "session_id" = JUndefined /\
    get (get (json_body res) "data") "count" = JNum 2 /\
    length (List.filter is_fetch (log st')) = 5 /\
    existsb is_chat (log st') = true.
Proof.
  exists (response_of (POST Sample.healthy (inr Sample.apollo_body) init)),
         (snd (POST Sample.healthy (inr Sample.apollo_body) init)).
  split; [apply returned_response; by_vm | conjs; by_vm].
Qed.

(** * Further properties *)

(** ** The Apollo search URL *)

Lemma map_M_ret {A B} (f : A -> B) (l : list A) (st : state) :
  map_M (fun x => ret (f x)) l st = (inr (map f l), st).
Proof.
  induction l as [| x l IH]; [reflexivity |].
  cbn [map_M map]. unfold bind at 1. unfold ret at 1. unfold bind at 1.
  now rewrite IH.
Qed.

Lemma lone_surrogate_replace_plus (s : string) :
  lone_surrogate (replace_plus s) = lone_surrogate s.
Proof.
  induction s as [| c s IH]; [reflexivity |].
  cbn [replace_plus]. destruct (Ascii.eqb c "+") eqn:Hplus.
  - apply Ascii.eqb_eq in Hplus as ->. destruct s; reflexivity.
  - cbn [lone_surrogate]. rewrite IH. f_equal.
    destruct s as [| d s]; [reflexivity |].
    cbn [replace_plus]. destruct (Ascii.eqb d "+") eqn:Hd; [| reflexivity].
    apply Ascii.eqb_eq in Hd as ->. cbn. now rewrite !andb_false_r.
Qed.

Lemma encode_part (paramName s : string) (st : state) :
  (encoded <-- encodeURIComponent (replace_plus s) ;;
   ret (paramName +:+ "[]=" +:+ encoded)) st
  = (if lone_surrogate s then inl (JsError "URI malformed")
     else inr (paramName +:+ "[]=" +:+ escape (replace_plus s)), st).
Proof.
  unfold bind, encodeURIComponent. rewrite lone_surrogate_replace_plus.
  now destruct (lone_surrogate s).
Qed.

Lemma addArrayParams_strings (paramName : string) (values : list string) (st : state) :
  addArrayParams paramName (string_array values) st
    = (if existsb lone_surrogate values then inl (JsError "URI malformed")
       else inr (array_parts paramName values), st).
Proof.
  unfold addArrayParams, string_array, array_parts.
  induction values as [| s values IH]; [reflexivity |].
  cbn [map map_M existsb]. unfold bind at 1. rewrite encode_part.
  destruct (lone_surrogate s); [reflexivity |].
  cbn [orb]. unfold bind at 1. rewrite IH.
  now destruct (existsb lone_surrogate values).
Qed.

Lemma array_clause_strings (paramName : string) (values : list string) (st : state) :
  array_clause paramName (string_array values) st
    = (if existsb lone_surrogate values then inl (JsError "URI malformed")
       else inr (array_parts paramName values), st).
Proof.
  unfold array_clause. destruct values as [| s values]; [reflexivity |].
  replace (has_items (string_array (s :: values))) with true.
  - apply addArrayParams_strings.
  - unfold has_items, string_array. cbn. symmetry. apply Z.ltb_lt. lia.
Qed.

Lemma lacks_items_strings (values : list string) :
  lacks_items (string_array values) = bool_decide (values = []).
Proof.
  destruct values as [| s values]; [reflexivity |].
  rewrite bool_decide_eq_false_2 by discriminate.
  unfold lacks_items, string_array. cbn. apply Z.eqb_neq. lia.
Qed.

Lemma generateApolloUrl_strings (titles places tags sizes : list string)
    (lim : jsval) (st : state) :
  generateApolloUrl
    (mkQuery (string_array titles) (string_array places) (string_array tags)
             (string_array sizes) JUndefined lim) st
  = (if existsb lone_surrogate (titles ++ places ++ tags ++ sizes)
     then inl (JsError "URI malformed")
     else inr (apollo_url_of titles places tags sizes), st).
Proof.
  unfold generateApolloUrl, apollo_url_of.
  cbn [jobTitles locations industries companySizes keywords].
  rewrite !existsb_app.
  rewrite bind_run, array_clause_strings.
  destruct (existsb lone_surrogate titles); [reflexivity |].
  rewrite bind_run, array_clause_strings.
  destruct (existsb lone_surrogate places); [reflexivity |].
  rewrite bind_run, array_clause_strings.
  destruct (existsb lone_surrogate tags); [reflexivity |].
  rewrite bind_run, array_clause_strings.
  destruct (existsb lone_surrogate sizes); [reflexivity |].
  cbn [orb]. rewrite bind_run, lacks_items_strings.
  destruct (bool_decide (sizes = [])).
  - change employeeRanges with (string_array ["1,10"; "11,20"; "21,50"; "51,100"; "101,200"]).
    rewrite addArrayParams_strings.
    replace (existsb lone_surrogate ["1,10"; "11,20"; "21,50"; "51,100"; "101,200"])
      with false by (vm_compute; reflexivity).
    cbn [truthy]. unfold bind, ret. now rewrite !app_nil_r.
  - cbn [truthy]. unfold bind, ret. now rewrite !app_nil_r.
Qed.

(** X1.  For a query whose four list parameters are arrays of strings (an
    absent list counts as empty) and that has no keywords, the URL builder
    has two outcomes.  When no string holds a lone surrogate it returns the
    Apollo people page followed by the three sort parameters, one
    [name[]=value] part per list entry in the order titles, locations,
    industries, sizes, the two keyword-field parameters, and the five default
    employee ranges exactly when no size was given; an empty list contributes
    no parameter at all.  When some string holds a lone surrogate it throws
    the [URIError] of [encodeURIComponent].  Either way the state is
    untouched. *)
Theorem X1_apollo_url_of_string_lists (titles places tags sizes : list string)
    (lim : jsval) (st : state) :
  let q := mkQuery (string_array titles) (string_array places) (string_array tags)
                   (string_array sizes) JUndefined lim in
  (Forall (fun s => lone_surrogate s = false) (titles ++ places ++ tags ++ sizes) ->
   generateApolloUrl q st
   = (inr ("https://app.apollo.io/#/people?" +:+
           String.concat "&"
             (["sortByField=recommendations_score"; "sortAscending=false"; "page=1"]
              ++ array_parts "personTitles" titles
              ++ array_parts "personLocations" places
              ++ array_parts "qOrganizationKeywordTags" tags
              ++ array_parts "organizationNumEmployeesRanges" sizes
              ++ ["includedOrganizationKeywordFields[]=tags";
                  "includedOrganizationKeywordFields[]=name"]
              ++ (if bool_decide (sizes = [])
                  then array_parts "organizationNumEmployeesRanges"
                         ["1,10"; "11,20"; "21,50"; "51,100"; "101,200"]
                  else []))), st)) /\
  (Exists (fun s => lone_surrogate s = true) (titles ++ places ++ tags ++ sizes) ->
   generateApolloUrl q st = (inl (JsError "URI malformed"), st)).
Proof.
  intros q. subst q. rewrite generateApolloUrl_strings. split.
  - intros Hclean.
    replace (existsb lone_surrogate (titles ++ places ++ tags ++ sizes)) with false;
      [reflexivity |].
    symmetry. apply not_true_is_false. intros Hsome.
    apply existsb_exists in Hsome as (x & Hin & Hx).
    rewrite Forall_forall in Hclean. apply list_elem_of_In in Hin.
    rewrite (Hclean x Hin) in Hx. discriminate.
  - intros Hsome. apply Exists_exists in Hsome as (x & Hin & Hx).
    replace (existsb lone_surrogate (titles ++ places ++ tags ++ sizes)) with true;
      [reflexivity |].
    symmetry. apply existsb_exists. exists x. split; [now apply list_elem_of_In | exact Hx].
Qed.

Lemma X1_witness :
  fst (generateApolloUrl
         (mkQuery (string_array ["R&D Lead"]) (string_array ["Berlin"]) (string_array [])
                  (string_array ["1,10"]) JUndefined (JNum 10)) init)
    = inr ("https://app.apollo.io/#/people?sortByField=recommendations_score"
           +:+ "&sortAscending=false&page=1&personTitles[]=R%26D%20Lead"
           +:+ "&personLocations[]=Berlin&organizationNumEmployeesRanges[]=1%2C10"
           +:+ "&includedOrganizationKeywordFields[]=tags"
           +:+ "&includedOrganizationKeywordFields[]=name") /\
  fst (generateApolloUrl
         (mkQuery (string_array ["CEO"; bytes [237; 160; 128]%nat]) (string_array [])
                  (string_array []) (string_array []) JUndefined (JNum 10)) init)
    = inl (JsError "URI malformed").
Proof.
  split.
  - destruct (X1_apollo_url_of_string_lists ["R&D Lead"] ["Berlin"] [] ["1,10"]
                (JNum 10) init) as [Hurl _].
    rewrite Hurl; [vm_compute; reflexivity |].
    repeat constructor.
  - destruct (X1_apollo_url_of_string_lists ["CEO"; bytes [237; 160; 128]%nat] [] [] []
                (JNum 10) init) as [_ Hthrows].
    rewrite Hthrows; [reflexivity |].
    apply Exists_cons_tl, Exists_cons_hd. vm_compute; reflexivity.
Defined.

Lemma hex_digit_unreserved (n : nat) : n < 16 -> unreserved (hex_digit n) = true.
Proof.
  intros Hn. do 16 (destruct n as [| n]; [reflexivity |]). lia.
Qed.

Lemma nat_of_ascii_bound (c : ascii) : nat_of_ascii c < 256.
Proof. destruct c as [[] [] [] [] [] [] [] []]; vm_compute; lia. Qed.

Lemma escape_safe (s : string) :
  forallb query_safe (String.list_ascii_of_string (escape s)) = true.
Proof.
  induction s as [| c s IH]; [reflexivity |].
  cbn [escape]. destruct (unreserved c) eqn:Hc.
  - cbn [String.list_ascii_of_string forallb]. unfold query_safe at 1.
    now rewrite Hc, IH.
  - cbn [String.list_ascii_of_string forallb]. rewrite IH.
    pose proof (nat_of_ascii_bound c) as Hlt.
    unfold query_safe.
    rewrite (hex_digit_unreserved (nat_of_ascii c / 16))
      by (apply Nat.Div0.div_lt_upper_bound; lia).
    rewrite (hex_digit_unreserved (nat_of_ascii c mod 16))
      by (apply Nat.mod_upper_bound; lia).
    reflexivity.
Qed.

Lemma escape_app (a b : string) : escape (a +:+ b) = escape a +:+ escape b.
Proof.
  induction a as [| c a IH]; [reflexivity |].
  simpl. destruct (unreserved c); simpl; now rewrite IH.
Qed.

(** X2.  Whatever [addArrayParams] is given, each part it returns is
    [paramName[]=] followed by a value made only of unreserved characters and
    [%]; in particular a value holds no [&], [=], [#], [+] and no space, so
    a search term cannot add or cut a parameter of the URL. *)
Theorem X2_array_params_are_query_safe (paramName : string) (values : jsval)
    (st : state) (parts : list string) (st' : state) :
  addArrayParams paramName values st = (inr parts, st') ->
  Forall (fun part => exists value,
            part = paramName +:+ "[]=" +:+ value /\
            forallb query_safe (String.list_ascii_of_string value) = true) parts /\
  forall c, query_safe c = true ->
    c <> "&"%char /\ c <> "="%char /\ c <> "#"%char /\ c <> "+"%char /\ c <> " "%char.
Proof.
  intros Hrun. split.
  - revert st parts st' Hrun. change (yields
      (Forall (fun part => exists value,
            part = paramName +:+ "[]=" +:+ value /\
            forallb query_safe (String.list_ascii_of_string value) = true))
      (addArrayParams paramName values)).
    unfold addArrayParams. destruct values; try apply yields_throw.
    apply yields_map_M. intros val.
    destruct val; try (cbn; apply yields_throw).
    intros st a st' Hrun. unfold bind, encodeURIComponent in Hrun.
    destruct (lone_surrogate (replace_plus s)); [discriminate Hrun |].
    injection Hrun as <- <-. eexists. split; [reflexivity | apply escape_safe].
  - intros c Hc. repeat split; intros ->; discriminate Hc.
Qed.

Lemma X2_witness :
  Forall (fun part => exists value,
            part = "personTitles" +:+ "[]=" +:+ value /\
            forallb query_safe (String.list_ascii_of_string value) = true)
         ["personTitles[]=R%26D%20Lead"].
Proof.
  apply (X2_array_params_are_query_safe "personTitles" (string_array ["R&D+Lead"])
           init ["personTitles[]=R%26D%20Lead"] init).
  vm_compute. reflexivity.
Defined.

Lemma replace_plus_first (a b : string) :
  forallb (fun c => negb (Ascii.eqb c "+")) (String.list_ascii_of_string a) = true ->
  replace_plus (a +:+ String "+" b) = a +:+ String " " b.
Proof.
  induction a as [| c a IH]; intros Hfree; [reflexivity |].
  cbn in Hfree. apply andb_prop in Hfree as [Hc Ha].
  apply negb_true_iff in Hc. simpl. rewrite Hc. now rewrite IH.
Qed.

Lemma append_assoc (a b c : string) : (a +:+ b) +:+ c = a +:+ (b +:+ c).
Proof.
  induction a as [| x a IH]; [reflexivity |].
  change (String x ((a +:+ b) +:+ c) = String x (a +:+ (b +:+ c))). now rewrite IH.
Qed.
(** X3.  Only the first [+] of a search term is read as a space.  For a
    term [a+b] whose part [a] has no [+] (and that holds no lone surrogate),
    [addArrayParams] pushes the single part [name[]=] followed by [a]
    escaped, [%20], and [b] escaped, in which every further [+] is
    percent-encoded like any other reserved character: the value holds no
    [+] and no space.  The URL of a query with this one job title carries
    that part after the sort parameters. *)
Theorem X3_only_first_plus_is_a_space (paramName a b : string) (lim : jsval)
    (st : state) :
  forallb (fun c => negb (Ascii.eqb c "+")) (String.list_ascii_of_string a) = true ->
  lone_surrogate (a +:+ String "+" b) = false ->
  addArrayParams paramName (JArr [JStr (a +:+ String "+" b)]) st
    = (inr [paramName +:+ "[]=" +:+ escape a +:+ "%20" +:+ escape b], st) /\
  Forall (fun c => c <> "+"%char /\ c <> " "%char)
         (String.list_ascii_of_string (escape a +:+ "%20" +:+ escape b)) /\
  exists rest,
    generateApolloUrl
      (mkQuery (JArr [JStr (a +:+ String "+" b)]) JUndefined JUndefined JUndefined
               JUndefined lim) st
    = (inr ("https://app.apollo.io/#/people?sortByField=recommendations_score"
            +:+ "&sortAscending=false&page=1&personTitles[]="
            +:+ escape a +:+ "%20" +:+ escape b +:+ rest), st).
Proof.
  intros Hfree Hclean.
  assert (Hpart : forall name st0,
            addArrayParams name (JArr [JStr (a +:+ String "+" b)]) st0
              = (inr [name +:+ "[]=" +:+ escape a +:+ "%20" +:+ escape b], st0)).
  { intros name st0. unfold addArrayParams. cbn [map_M].
    unfold bind at 1. rewrite encode_part, Hclean. unfold bind, ret.
    rewrite (replace_plus_first a b Hfree).
    change (String " " b) with (" " +:+ b).
    rewrite !escape_app. reflexivity. }
  split; [apply Hpart | split].
  - apply Forall_forall. intros c Hin.
    assert (Hsafe : forallb query_safe
              (String.list_ascii_of_string (escape (a +:+ " " +:+ b))) = true)
      by apply escape_safe.
    rewrite !escape_app in Hsafe. change (escape " ") with "%20" in Hsafe.
    rewrite forallb_forall in Hsafe. apply list_elem_of_In in Hin.
    specialize (Hsafe c Hin). split; intros ->; discriminate Hsafe.
  - unfold generateApolloUrl, array_clause.
    cbn [jobTitles locations industries companySizes keywords].
    replace (has_items (JArr [JStr (a +:+ String "+" b)])) with true by reflexivity.
    rewrite bind_run, Hpart.
    change (has_items JUndefined) with false. change (lacks_items JUndefined) with true.
    cbn [truthy]. rewrite !bind_run. unfold ret at 1 2 3. rewrite !bind_run.
    change employeeRanges with (string_array ["1,10"; "11,20"; "21,50"; "51,100"; "101,200"]).
    rewrite addArrayParams_strings.
    replace (existsb lone_surrogate ["1,10"; "11,20"; "21,50"; "51,100"; "101,200"])
      with false by (vm_compute; reflexivity).
    unfold bind, ret.
    exists ("&" +:+ String.concat "&"
              (["includedOrganizationKeywordFields[]=tags";
                "includedOrganizationKeywordFields[]=name"]
               ++ array_parts "organizationNumEmployeesRanges"
                    ["1,10"; "11,20"; "21,50"; "51,100"; "101,200"])).
    do 2 f_equal. cbn [app String.concat array_parts map].
    rewrite !append_assoc. reflexivity.
Qed.


Lemma X3_witness :
  addArrayParams "personTitles" (JArr [JStr "C+C++ Developer"]) init
    = (inr ["personTitles[]=C%20C%2B%2B%20Developer"], init).
Proof.
  destruct (X3_only_first_plus_is_a_space "personTitles" "C" "C++ Developer" (JNum 10)
              init eq_refl eq_refl) as [Hparts _].
  exact Hparts.
Defined.

(** ** The answers of [POST] *)

(** X4.  [POST] answers every request, whatever the request body and
    whatever the providers do: with 200 and body status "success", or with
    400 or 500 and body status "error" together with a message. *)
Theorem X4_every_request_is_answered (w : world) (request : exn + jsval) (st : state) :
  exists res st',
    POST w request st = (inr res, st') /\
    ((http_status res = 200%Z /\ get (json_body res) "status" = JStr "success") \/
     ((http_status res = 400%Z \/ http_status res = 500%Z) /\
      get (json_body res) "status" = JStr "error" /\
      exists msg, get (json_body res) "message" = JStr msg)).
Proof.
  unfold POST, try_catch.
  destruct request as [e | body].
  { eexists _, _. split; [reflexivity |]. right. cbn. eauto. }
  rewrite handle_unfold.
  destruct (nullish body).
  { eexists _, _. split; [reflexivity |]. right. cbn. eauto. }
  destruct (negb _ || negb _ || negb _).
  { eexists _, _. split; [reflexivity |]. right. cbn. eauto. }
  destruct (is_str "apollo" (get body "method")).
  - destruct (bool_decide (APIFY_API_TOKENS w = [])).
    { eexists _, _. split; [reflexivity |]. right. cbn. eauto. }
    rewrite bind_run.
    destruct (searchApolloLeads w (apollo_query body) st) as [[e | leads] st1].
    + eexists _, _. split; [reflexivity |]. right. cbn. eauto.
    + rewrite complete_runs. eexists _, _. split; [reflexivity |]. left. now split.
  - destruct (is_str "google_apify" (get body "method")).
    2: { eexists _, _. split; [reflexivity |]. right. cbn. eauto. }
    destruct (negb _ || negb _ || bool_decide _).
    { eexists _, _. split; [reflexivity |]. right. cbn. eauto. }
    rewrite bind_run.
    destruct (searchGoogleLeads w (google_query body) st) as [[e | leads] st1].
    + eexists _, _. split; [reflexivity |]. right. cbn. eauto.
    + rewrite complete_runs. eexists _, _. split; [reflexivity |]. left. now split.
Qed.

(** X5.  A request that names all three required fields but a method other
    than ['apollo'] and ['google_apify'] is answered 400
    "Invalid method specified" without any effect: no request is sent and
    nothing is logged. *)
Theorem X5_unknown_method_rejected (w : world) (body : jsval) (st : state) :
  valid_request body ->
  known_method body = false ->
  POST w (inr body) st = (inr (mkHttp 400 (error_body "Invalid method specified")), st).
Proof.
  intros (Hbody & Hmethod & Htitles & Hplaces) Hunknown.
  unfold known_method in Hunknown. apply orb_false_elim in Hunknown as [Hapollo Hgoogle].
  unfold POST, try_catch. rewrite handle_unfold.
  now rewrite Hbody, Hmethod, Htitles, Hplaces, Hapollo, Hgoogle.
Qed.

Lemma X5_witness :
  POST Sample.healthy
    (inr (JObj (list_to_map [("method", JStr "linkedin"); ("jobTitles", JArr []);
                             ("locations", JArr [])]))) init
    = (inr (mkHttp 400 (error_body "Invalid method specified")), init).
Proof.
  apply X5_unknown_method_rejected.
  - unfold valid_request; conjs; by_vm.
  - by_vm.
Defined.

Lemma POST_without_credentials (w : world) (body : jsval) (st : state) :
  valid_request body -> known_method body = true -> credentials w body = false ->
  POST w (inr body) st = (inr (credentials_error body), st).
Proof.
  intros (Hbody & Hmethod & Htitles & Hplaces) Hknown Hcred.
  unfold known_method in Hknown. unfold credentials, credentials_error in *.
  unfold POST, try_catch. rewrite handle_unfold.
  rewrite Hbody, Hmethod, Htitles, Hplaces. cbn [negb orb].
  destruct (is_str "apollo" (get body "method")).
  - apply negb_false_iff in Hcred. now rewrite Hcred.
  - cbn in Hknown. rewrite Hknown.
    replace (negb (configured (GOOGLE_API_KEY w)) || negb (configured (GOOGLE_CSE_ID w))
             || bool_decide (APIFY_API_TOKENS w = [])) with true; [reflexivity |].
    destruct (configured (GOOGLE_API_KEY w)), (configured (GOOGLE_CSE_ID w)),
      (bool_decide (APIFY_API_TOKENS w = [])); cbn in *; congruence.
Qed.

Lemma POST_with_credentials (w : world) (body : jsval) (st : state) :
  valid_request body -> known_method body = true -> credentials w body = true ->
  POST w (inr body) st
    = match sourcing w body st with
      | (inr leads, st1) => complete w (get body "method") leads st1
      | (inl e, st1) =>
          (inr (failure_response e (now w (dates st1))),
           dated (logged st1 [ELog "Lead generation error:"]))
      end.
Proof.
  intros (Hbody & Hmethod & Htitles & Hplaces) Hknown Hcred.
  unfold known_method in Hknown. unfold credentials, sourcing in *.
  unfold POST, try_catch. rewrite handle_unfold.
  rewrite Hbody, Hmethod, Htitles, Hplaces. cbn [negb orb].
  destruct (is_str "apollo" (get body "method")).
  - apply negb_true_iff in Hcred. rewrite Hcred, bind_run.
    destruct (searchApolloLeads w (apollo_query body) st) as [[e | leads] st1];
      [reflexivity |]. now rewrite complete_runs.
  - cbn in Hknown. rewrite Hknown.
    replace (negb (configured (GOOGLE_API_KEY w)) || negb (configured (GOOGLE_CSE_ID w))
             || bool_decide (APIFY_API_TOKENS w = [])) with false.
    + rewrite bind_run.
      destruct (searchGoogleLeads w (google_query body) st) as [[e | leads] st1];
        [reflexivity |]. now rewrite complete_runs.
    + destruct (configured (GOOGLE_API_KEY w)), (configured (GOOGLE_CSE_ID w)),
        (bool_decide (APIFY_API_TOKENS w = [])); cbn in *; congruence.
Qed.

Lemma configuration_flags (w : world) (d : deployment) :
  get (configuration w d) "apify_configured"
    = JBool (negb (bool_decide (APIFY_API_TOKENS w = []))) /\
  get (configuration w d) "google_configured"
    = JBool (configured (GOOGLE_API_KEY w) && configured (GOOGLE_CSE_ID w)).
Proof.
  split; [| reflexivity].
  transitivity (JBool (0 <? Z.of_nat (length (APIFY_API_TOKENS w)))%Z); [reflexivity |].
  now destruct (APIFY_API_TOKENS w).
Qed.

Lemma credentials_error_differs (w : world) (body : jsval) (st : state)
    (res : response) (st' : state) :
  match sourcing w body st with
  | (inr leads, st1) => complete w (get body "method") leads st1
  | (inl e, st1) =>
      (inr (failure_response e (now w (dates st1))),
       dated (logged st1 [ELog "Lead generation error:"]))
  end = (inr res, st') ->
  get (json_body res) "timestamp" <> JUndefined \/ http_status res = 200%Z.
Proof.
  destruct (sourcing w body st) as [[e | leads] st1].
  - intros [= <- _]. left. discriminate.
  - rewrite complete_runs. intros [= <- _]. now right.
Qed.

(** X6.  The flags [GET] reports predict the credential errors of [POST].
    [GET] always answers 200 with a [configuration] object; for a valid
    Apollo request [POST] answers 500 "Apify API tokens not configured"
    without any effect exactly when [apify_configured] is false, and for a
    valid search request it answers 500
    "Google or Apify API credentials not configured" without any effect
    exactly when [google_configured] or [apify_configured] is false. *)
Theorem X6_configuration_predicts_credential_errors (w : world) (d : deployment)
    (body : jsval) (st st0 : state) :
  valid_request body ->
  known_method body = true ->
  exists res,
    GET w d st0 = (inr res, dated st0) /\
    http_status res = 200%Z /\
    let cfg := get (json_body res) "configuration" in
    (is_str "apollo" (get body "method") = true ->
     (get cfg "apify_configured" = JBool false <->
      POST w (inr body) st
        = (inr (mkHttp 500 (error_body "Apify API tokens not configured")), st))) /\
    (is_str "apollo" (get body "method") = false ->
     ((get cfg "google_configured" = JBool false \/
       get cfg "apify_configured" = JBool false) <->
      POST w (inr body) st
        = (inr (mkHttp 500 (error_body "Google or Apify API credentials not configured")),
           st))).
Proof.
  intros Hvalid Hknown.
  eexists. split; [reflexivity |]. split; [reflexivity |]. cbv zeta.
  change (get (json_body _) "configuration") with (configuration w d).
  destruct (configuration_flags w d) as [-> ->].
  destruct (credentials w body) eqn:Hcred.
  - rewrite (POST_with_credentials w body st Hvalid Hknown Hcred).
    unfold credentials in Hcred.
    split; intros Hmethod; rewrite Hmethod in Hcred; split.
    + intros [= Hno]. now rewrite Hno in Hcred.
    + intros Hrun. destruct (credentials_error_differs _ _ _ _ _ Hrun) as [Hts | Hok];
        [now contradiction Hts | discriminate Hok].
    + intros [[= Hno] | [= Hno]].
      * apply andb_prop in Hcred as [Hgoogle _]. now rewrite Hgoogle in Hno.
      * apply andb_prop in Hcred as [_ Hapify]. now rewrite Hapify in Hno.
    + intros Hrun. destruct (credentials_error_differs _ _ _ _ _ Hrun) as [Hts | Hok];
        [now contradiction Hts | discriminate Hok].
  - rewrite (POST_without_credentials w body st Hvalid Hknown Hcred).
    unfold credentials, credentials_error in *.
    split; intros Hmethod; rewrite Hmethod in *; split; try reflexivity.
    + intros _. now rewrite Hcred.
    + intros _. apply andb_false_iff in Hcred as [Hcred | Hcred]; rewrite Hcred; auto.
Qed.

Lemma X6_witness :
  POST More.no_tokens (inr Sample.apollo_body) init
    = (inr (mkHttp 500 (error_body "Apify API tokens not configured")), init).
Proof.
  destruct (X6_configuration_predicts_credential_errors More.no_tokens
              More.full_deployment Sample.apollo_body init init)
    as (res & Hget & _ & Hapollo & _).
  - unfold valid_request; conjs; by_vm.
  - by_vm.
  - apply Hapollo; [by_vm |]. injection Hget as <-. by_vm.
Defined.

(** X7.  Sourcing is mandatory.  When the sourcing call of a valid request
    throws, for either method and whatever the cause, [POST] logs the error
    and answers 500 with status "error" and the message of the thrown error;
    the state is the one sourcing left plus that log line and the timestamp,
    so nothing is scored and nothing is inserted. *)
Theorem X7_sourcing_failure_aborts (w : world) (body : jsval) (st : state)
    (e : exn) (st1 : state) :
  valid_request body ->
  known_method body = true ->
  credentials w body = true ->
  sourcing w body st = (inl e, st1) ->
  POST w (inr body) st
    = (inr (failure_response e (now w (dates st1))),
       dated (logged st1 [ELog "Lead generation error:"])) /\
  http_status (failure_response e (now w (dates st1))) = 500%Z /\
  get (json_body (failure_response e (now w (dates st1)))) "message" = JStr (message e) /\
  get (json_body (failure_response e (now w (dates st1)))) "data" = JUndefined.
Proof.
  intros Hvalid Hknown Hcred Hrun.
  rewrite (POST_with_credentials w body st Hvalid Hknown Hcred), Hrun.
  now repeat split.
Qed.

Lemma stateless_ret {A} (a : A) : stateless (ret a).
Proof. intros st r st' [= <- <-]. reflexivity. Qed.

Lemma stateless_throw {A} (e : exn) : stateless (@throw A e).
Proof. intros st r st' [= <- <-]. reflexivity. Qed.

Lemma stateless_bind {A B} (m : M A) (k : A -> M B) :
  stateless m -> (forall a, stateless (k a)) -> stateless (bind m k).
Proof.
  intros Hm Hk st r st' Hrun. unfold bind in Hrun.
  destruct (m st) as [[e | a] st1] eqn:Hfirst.
  - injection Hrun as <- <-. exact (Hm _ _ _ Hfirst).
  - rewrite (Hk a st1 r st' Hrun). exact (Hm _ _ _ Hfirst).
Qed.

Lemma stateless_map_M {A B} (f : A -> M B) (l : list A) :
  (forall a, stateless (f a)) -> stateless (map_M f l).
Proof.
  intros Hf. induction l as [| x l IH]; cbn [map_M].
  - apply stateless_ret.
  - apply stateless_bind; [apply Hf |]. intros y.
    apply stateless_bind; [apply IH |]. intros ys. apply stateless_ret.
Qed.

Lemma stateless_encodeURIComponent (s : string) : stateless (encodeURIComponent s).
Proof.
  unfold encodeURIComponent.
  destruct (lone_surrogate s); [apply stateless_throw | apply stateless_ret].
Qed.

Lemma stateless_addArrayParams (paramName : string) (values : jsval) :
  stateless (addArrayParams paramName values).
Proof.
  unfold addArrayParams. destruct values; try apply stateless_throw.
  apply stateless_map_M. intros val.
  destruct val; try (cbn; apply stateless_throw).
  apply stateless_bind; [apply stateless_encodeURIComponent |].
  intros encoded. apply stateless_ret.
Qed.

Lemma stateless_generateApolloUrl (q : query) : stateless (generateApolloUrl q).
Proof.
  unfold generateApolloUrl, array_clause.
  do 5 (apply stateless_bind;
          [ first [ destruct (has_items _) | destruct (lacks_items _) ];
            first [ apply stateless_addArrayParams | apply stateless_ret ]
          | intros ? ]).
  apply stateless_bind; [| intros kw; apply stateless_ret].
  destruct (truthy (keywords q)); [| apply stateless_ret].
  apply stateless_bind; [apply stateless_encodeURIComponent |].
  intros encoded. apply stateless_ret.
Qed.

(** X8.  When Apify refuses the run submission (the response is not [ok]),
    [searchApolloLeads] throws "Apify run failed: <status> <statusText>"
    after that one request: the run id is never read and no status request
    is made. *)
Theorem X8_refused_run_is_not_polled (w : world) (q : query) (st : state)
    (apolloUrl : string) (r : http_response) :
  APIFY_API_TOKENS w <> [] ->
  fst (generateApolloUrl q st) = inr apolloUrl ->
  fetch w "POST" (run_submit_url apollo_actor (first_token w))
    (Some (apollo_input apolloUrl)) 0 = inr r ->
  ok r = false ->
  searchApolloLeads w q st
    = (inl (JsError ("Apify run failed: " +:+ pretty (status r) +:+ " " +:+ statusText r)),
       logged st [EFetch "POST" (run_submit_url apollo_actor (first_token w))
                    (Some (apollo_input apolloUrl));
                  ELog "Apollo search error:"]).
Proof.
  intros Htok Hurl Hfetch Hrefused.
  unfold searchApolloLeads, try_catch.
  rewrite (bool_decide_eq_false_2 _ Htok), bind_run.
  destruct (generateApolloUrl q st) as [[e | url] st0] eqn:Hgen; [discriminate Hurl |].
  injection Hurl as ->.
  assert (Hsame : st0 = st) by exact (stateless_generateApolloUrl q st _ _ Hgen).
  subst st0. cbv zeta. rewrite bind_run.
  unfold start_run. rewrite bind_run. unfold do_fetch. rewrite bind_run.
  unfold emit at 1. fold (run_submit_url apollo_actor (first_token w)).
  fold (apollo_input apolloUrl). rewrite Hfetch. unfold ret at 1.
  rewrite Hrefused. cbn [negb]. unfold throw at 1.
  unfold bind, emit, throw, logged. cbn. now rewrite <- app_assoc.
Qed.

Lemma X8_witness :
  fst (searchApolloLeads More.payment_required (apollo_query Sample.apollo_body) init)
    = inl (JsError "Apify run failed: 402 Payment Required").
Proof.
  rewrite (X8_refused_run_is_not_polled More.payment_required
             (apollo_query Sample.apollo_body) init
             (value_of "" (generateApolloUrl (apollo_query Sample.apollo_body) init))
             (mkResponse false 402 "Payment Required" (inr JNull))).
  - by_vm.
  - vm_compute. discriminate.
  - by_vm.
  - by_vm.
  - reflexivity.
Defined.

Lemma X7_witness :
  exists st',
    POST More.payment_required (inr Sample.apollo_body) init
      = (inr (failure_response (JsError "Apify run failed: 402 Payment Required")
                "2024-01-01T00:00:00Z"), st').
Proof.
  pose (run := sourcing More.payment_required Sample.apollo_body init).
  destruct (X7_sourcing_failure_aborts More.payment_required Sample.apollo_body init
              (JsError "Apify run failed: 402 Payment Required") (snd run))
    as (Hrun & _).
  - unfold valid_request; conjs; by_vm.
  - by_vm.
  - by_vm.
  - by_vm.
  - eexists. rewrite Hrun. f_equal.
Defined.

(** ** Scoring and saving *)

Lemma with_icp_other_keys (l : lead) (r : icp) (k : string) :
  k ∉ icp_keys -> with_icp l r !! k = l !! k.
Proof.
  intros Hk. unfold with_icp, icp_keys in *.
  rewrite !lookup_insert_ne; [reflexivity | ..]; intros <-; apply Hk; in_list.
Qed.

(** X9.  Scoring neither drops, adds nor reorders leads and only writes its
    own three keys: after sourcing returned, the answer of [POST] lists one
    lead per sourced lead, its [count] is their number, and the lead at
    every position has all the fields of the sourced lead at that position
    unchanged, except [icp_score], [icp_grade] and [icpReasoning]. *)
Theorem X9_scoring_keeps_sourced_fields (w : world) (body : jsval) (st : state)
    (leads : list lead) (st1 : state) :
  sourced w body st leads st1 ->
  exists res st',
    POST w (inr body) st = (inr res, st') /\
    get (get (json_body res) "data") "leads" = JArr (map JObj (final_leads w leads)) /\
    get (get (json_body res) "data") "count" = JNum (Z.of_nat (length leads)) /\
    length (final_leads w leads) = length leads /\
    forall i l, leads !! i = Some l ->
      exists l', final_leads w leads !! i = Some l' /\
        forall k, k ∉ icp_keys -> l' !! k = l !! k.
Proof.
  intros Hsourced.
  rewrite (POST_after_sourcing _ _ _ _ _ Hsourced), complete_runs.
  eexists _, _. split; [reflexivity |]. split; [reflexivity |].
  split; [cbn; now rewrite final_leads_length |].
  split; [apply final_leads_length |].
  intros i l Hl. unfold final_leads, scored.
  destruct (configured (OPENAI_API_KEY w)).
  - eexists. rewrite list_lookup_imap, Hl. split; [reflexivity |].
    intros k Hk. now apply with_icp_other_keys.
  - exists l. now split.
Qed.

Lemma X9_witness :
  exists l',
    final_leads Sample.partial_scores
      (leads_of (sourcing Sample.partial_scores Sample.apollo_body init)) !! 1 = Some l' /\
    l' !! "fullName" = Some (JStr "Grace Hopper").
Proof.
  pose (run := sourcing Sample.partial_scores Sample.apollo_body init).
  destruct (X9_scoring_keeps_sourced_fields Sample.partial_scores Sample.apollo_body init
              (leads_of run) (snd run))
    as (res & st' & _ & _ & _ & _ & Hkept).
  - sample_sourced.
  - destruct (Hkept 1 (apolloLead "uuid-1" "2024-01-01T00:00:01Z" Sample.grace))
      as (l' & Hl' & Hsame).
    + by_vm.
    + exists l'. split; [exact Hl' |].
      rewrite Hsame; [by_vm |].
      unfold icp_keys. intros Hin. apply list_elem_of_In in Hin. cbn in Hin.
      intuition discriminate.
Defined.

(** X10.  No batching and no retry: with a key for the model, the scoring
    stage sends exactly one completion request per lead, in the order of the
    leads, and the profile of each request is the lead as sourcing produced
    it; this holds whatever the model answers. *)
Theorem X10_one_scoring_request_per_lead (w : world) (leads : list lead) (st : state) :
  configured (OPENAI_API_KEY w) = true ->
  exists tail,
    score_leads w leads st = (inr (scored w leads), logged st tail) /\
    List.filter is_chat tail = map EChat leads /\
    existsb is_insert tail = false /\ existsb is_fetch tail = false.
Proof.
  intros Hkey. exists (scoring_events w leads).
  rewrite score_leads_runs. unfold final_leads, scoring_events. rewrite Hkey.
  split; [reflexivity |]. split;
    [exact (chats_of_scoring (fun i l => chat w l i) leads) |].
  exact (proj2 (scoring_sends_nothing_else (fun i l => chat w l i) leads)).
Qed.

Lemma X10_witness :
  exists tail,
    score_leads Sample.partial_scores [∅; ∅] init
      = (inr (scored Sample.partial_scores [∅; ∅]), logged init tail) /\
    List.filter is_chat tail = [EChat ∅; EChat ∅].
Proof.
  destruct (X10_one_scoring_request_per_lead Sample.partial_scores [∅; ∅] init eq_refl)
    as (tail & Hrun & Hchats & _).
  exists tail. split; [exact Hrun | exact Hchats].
Defined.

(** X11.  What is stored is what is answered: after sourcing returned at
    least one lead, the rest of [POST] performs exactly one insert, into
    table [leads], whose rows are the very leads of the answer, as one
    batch. *)
Theorem X11_one_insert_of_the_answered_leads (w : world) (body : jsval) (st : state)
    (leads : list lead) (st1 : state) :
  sourced w body st leads st1 ->
  leads <> [] ->
  exists tail st',
    POST w (inr body) st
      = (inr (success_response (get body "method") (final_leads w leads)
                (now w (dates st1))), st') /\
    log st' = log st1 ++ tail /\
    List.filter is_insert tail = [EInsert "leads" (final_leads w leads)].
Proof.
  intros Hsourced Hsome.
  rewrite (POST_after_sourcing _ _ _ _ _ Hsourced), complete_runs.
  eexists _, _. split; [reflexivity |]. split; [reflexivity |].
  rewrite List.filter_app.
  assert (Hscoring : List.filter is_insert (scoring_events w leads) = []).
  { unfold scoring_events. destruct (configured _); [| reflexivity].
    exact (proj1 (scoring_sends_nothing_else (fun i l => chat w l i) leads)). }
  rewrite Hscoring. cbn [app].
  assert (Hfinal : final_leads w leads <> []) by now rewrite final_leads_nil.
  unfold saving_log. destruct (final_leads w leads) as [| l rest]; [contradiction |].
  destruct (supabase_insert w (l :: rest)) as [e | error]; [reflexivity |].
  now destruct (truthy error).
Qed.

Lemma X11_witness :
  exists tail st',
    log st' = log (snd (sourcing Sample.healthy Sample.apollo_body init)) ++ tail /\
    length (List.filter is_insert tail) = 1.
Proof.
  pose (run := sourcing Sample.healthy Sample.apollo_body init).
  destruct (X11_one_insert_of_the_answered_leads Sample.healthy Sample.apollo_body init
              (leads_of run) (snd run)) as (tail & st' & _ & Hlog & Hone).
  - sample_sourced.
  - intros Hnone. apply (f_equal length) in Hnone. vm_compute in Hnone.
    discriminate Hnone.
  - exists tail, st'. split; [exact Hlog |]. now rewrite Hone.
Defined.

(** ** The search-derived method *)

Lemma stateless_spread_terms (v : jsval) : stateless (spread_terms v).
Proof.
  unfold spread_terms.
  destruct (js_or v (JArr [])); first [apply stateless_ret | apply stateless_throw].
Qed.

Lemma is_profile_link_answer (url : jsval) (st : state) (b : bool) (st' : state) :
  is_profile_link url st = (inr b, st') -> b = profile_link url.
Proof.
  unfold is_profile_link, profile_link, ret, throw.
  destruct url; cbn; try (intros [= <- _]; reflexivity); discriminate.
Qed.

Lemma yields_filter_M {A} (P : A -> Prop) (pred : A -> M bool) (l : list A) :
  (forall x st st', pred x st = (inr true, st') -> P x) ->
  yields (Forall P) (filter_M pred l).
Proof.
  intros Hpred. induction l as [| x l IH]; cbn [filter_M].
  - apply yields_ret. constructor.
  - intros st kept st' Hrun. rewrite bind_run in Hrun.
    destruct (pred x st) as [[e | keep] st1] eqn:Hx; [discriminate Hrun |].
    rewrite bind_run in Hrun.
    destruct (filter_M pred l st1) as [[e | rest] st2] eqn:Hrest; [discriminate Hrun |].
    injection Hrun as <- <-. pose proof (IH st1 rest st2 Hrest) as Hall.
    destruct keep; [constructor; [exact (Hpred x st st1 Hx) | exact Hall] | exact Hall].
Qed.

Lemma profile_links_log (w : world) (q : query) (st : state)
    (links : list jsval) (st' : state) :
  profile_links w q st = (inr links, st') ->
  exists url, log st' = log st ++ [EFetch "GET" url None].
Proof.
  unfold profile_links. rewrite bind_run.
  destruct (spread_terms (jobTitles q) st) as [[e | titles] st1] eqn:Ht; [discriminate |].
  rewrite (stateless_spread_terms _ _ _ _ Ht). rewrite bind_run.
  destruct (spread_terms (locations q) st) as [[e | places] st2] eqn:Hp; [discriminate |].
  rewrite (stateless_spread_terms _ _ _ _ Hp). cbv zeta.
  rewrite bind_run.
  destruct (encodeURIComponent _ st) as [[e | encoded] st3] eqn:He; [discriminate |].
  rewrite (stateless_encodeURIComponent _ _ _ _ He).
  rewrite bind_run, do_fetch_runs.
  destruct (fetch w "GET" _ None 0) as [e | resp]; [discriminate |].
  intros Hrest. eexists.
  assert (Hquiet : forall resp0 : http_response, quiet
    (if negb (ok resp0)
     then throw (JsError ("Google Search API error: " +:+ pretty (status resp0)
                          +:+ " " +:+ statusText resp0))
     else
       searchData <-- read_json resp0 ;;
       items <-- prop searchData "items" ;;
       if lacks_items items then ret []
       else match items with
            | JArr found =>
                links0 <-- map_M (fun item => prop item "link") found ;;
                profileLinks <-- filter_M is_profile_link links0 ;;
                ret (take 10 profileLinks)
            | _ => throw (JsError "searchData.items.map is not a function")
            end)).
  { intros resp0. destruct (negb (ok resp0)); [apply quiet_throw |].
    apply quiet_bind; [apply quiet_read_json | intros searchData].
    apply quiet_bind; [apply quiet_prop | intros items].
    destruct (lacks_items items); [apply quiet_ret |].
    destruct items; try apply quiet_throw.
    apply quiet_bind; [apply quiet_map_M; intros item; apply quiet_prop | intros ls].
    apply quiet_bind; [apply quiet_filter_M, quiet_is_profile_link | intros kept].
    apply quiet_ret. }
  rewrite (Hquiet resp _ _ _ Hrest). reflexivity.
Qed.

(** X12.  Whatever the Google answer holds, the links handed to enrichment
    are at most 10, each of them passed the [includes('linkedin.com/in/')]
    test (a string containing it, or an array holding that very string), the
    actor is asked for as many items as there are links, and finding them
    took exactly one request. *)
Theorem X12_at_most_ten_profile_links (w : world) (q : query) (st : state)
    (links : list jsval) (st' : state) :
  profile_links w q st = (inr links, st') ->
  length links <= 10 /\
  Forall (fun url => profile_link url = true) links /\
  get (enrich_input links) "maxItems" = JNum (Z.of_nat (length links)) /\
  exists url, log st' = log st ++ [EFetch "GET" url None].
Proof.
  intros Hrun. split; [| split; [| split; [reflexivity | exact (profile_links_log _ _ _ _ _ Hrun)]]].
  - revert st links st' Hrun.
    change (yields (fun links : list jsval => length links <= 10) (profile_links w q)).
    unfold profile_links. do 4 (apply yields_bind; intros ?).
    destruct (negb _); [apply yields_throw |].
    do 2 (apply yields_bind; intros ?).
    destruct (lacks_items _); [apply yields_ret; cbn; lia |].
    destruct a4; try apply yields_throw.
    do 2 (apply yields_bind; intros ?). apply yields_ret.
    rewrite length_take. lia.
  - revert st links st' Hrun.
    change (yields (Forall (fun url => profile_link url = true)) (profile_links w q)).
    unfold profile_links. do 4 (apply yields_bind; intros ?).
    destruct (negb _); [apply yields_throw |].
    do 2 (apply yields_bind; intros ?).
    destruct (lacks_items _); [apply yields_ret; constructor |].
    destruct a4; try apply yields_throw.
    apply yields_bind; intros found.
    intros st kept st' Hrun. rewrite bind_run in Hrun.
    destruct (filter_M is_profile_link found st) as [[e | ls] st1] eqn:Hkept;
      [discriminate Hrun |].
    injection Hrun as <- <-. apply Forall_take.
    apply (yields_filter_M (fun url => profile_link url = true) is_profile_link found)
      with (st := st) (st' := st1); [| exact Hkept].
    intros x s s' Hx. symmetry. exact (is_profile_link_answer _ _ _ _ Hx).
Qed.

Lemma X12_witness :
  length (value_of [] (profile_links Sample.healthy (google_query Sample.google_body) init))
    <= 10.
Proof.
  pose (run := profile_links Sample.healthy (google_query Sample.google_body) init).
  destruct (X12_at_most_ten_profile_links Sample.healthy (google_query Sample.google_body)
              init (value_of [] run) (snd run)) as (Hten & _).
  - apply returned_value. by_vm.
  - exact Hten.
Defined.

(** X13.  No profile link, no enrichment: when the Google answer yields no
    link (no [items], an empty [items], or no item linking to a profile),
    [searchGoogleLeads] returns the empty list after that single request; no
    actor run is submitted. *)
Theorem X13_no_links_no_enrichment (w : world) (q : query) (st st1 : state) :
  configured (GOOGLE_API_KEY w) = true ->
  configured (GOOGLE_CSE_ID w) = true ->
  APIFY_API_TOKENS w <> [] ->
  profile_links w q st = (inr [], st1) ->
  searchGoogleLeads w q st = (inr [], st1) /\
  exists url, log st1 = log st ++ [EFetch "GET" url None].
Proof.
  intros Hkey Hcse Htok Hlinks. split; [| exact (profile_links_log _ _ _ _ _ Hlinks)].
  unfold searchGoogleLeads, try_catch. rewrite Hkey, Hcse.
  rewrite (bool_decide_eq_false_2 _ Htok). cbn [negb orb].
  rewrite bind_run, Hlinks. reflexivity.
Qed.

Lemma X13_witness :
  fst (searchGoogleLeads More.no_search_hits (google_query Sample.google_body) init)
    = inr [].
Proof.
  destruct (X13_no_links_no_enrichment More.no_search_hits
              (google_query Sample.google_body) init
              (snd (profile_links More.no_search_hits (google_query Sample.google_body) init)))
    as [Hrun _].
  - reflexivity.
  - reflexivity.
  - vm_compute. discriminate.
  - by_vm.
  - now rewrite Hrun.
Defined.

(** ** Mapping a dataset *)



(** X15.  One [null] in the dataset discards the whole run: when the dataset
    of a succeeded run holds a [null] (or missing) element, reading the
    results throws, however many proper records stand before or after it, so
    the sourcing function returns no lead at all. *)
Theorem X15_null_record_discards_the_batch (w : world) (data : jsval)
    (apifyToken : string) (shape : string -> string -> jsval -> lead)
    (r : http_response) (items : list jsval) (st : state) :
  fetch w "GET" (dataset_url (to_string (get data "defaultDatasetId")) apifyToken) None 0
    = inr r ->
  json r = inr (JArr items) ->
  Exists (fun record => nullish record = true) items ->
  exists e st', collect_results w data apifyToken shape st = (inl e, st').
Proof.
  intros Hfetch Hjson Hnull.
  unfold collect_results. rewrite bind_run, do_fetch_runs, Hfetch.
  rewrite bind_run. unfold read_json. rewrite Hjson. unfold ret at 1.
  unfold map_results.
  destruct (map_M_null_record w shape items Hnull
              (logged st [EFetch "GET"
                 (dataset_url (to_string (get data "defaultDatasetId")) apifyToken) None]))
    as (v & st' & _ & Hrun).
  rewrite Hrun. eauto.
Qed.

Lemma X15_witness :
  exists e st',
    POST More.null_record (inr Sample.apollo_body) init
      = (inr (failure_response e "2024-01-01T00:00:01Z"), st').
Proof.
  destruct (X15_null_record_discards_the_batch More.null_record
              (get (Sample.run_state "SUCCEEDED") "data") "tok" apolloLead
              (mkResponse true 200 "OK" (inr (JArr [Sample.ada; JNull; Sample.grace])))
              [Sample.ada; JNull; Sample.grace] init) as (e & st' & Hthrows).
  - by_vm.
  - reflexivity.
  - apply Exists_cons_tl, Exists_cons_hd. reflexivity.
  - exists (JsError "Cannot read properties of null").
    exists (snd (POST More.null_record (inr Sample.apollo_body) init)).
    by_vm.
Defined.

(** ** The form: status list and countdown *)

Lemma existsb_same_message (u : Form.status_update) (l : list Form.status_update) :
  existsb (fun update => String.eqb (Form.su_message update) (Form.su_message u)) l = true
  <-> Form.su_message u ∈ map Form.su_message l.
Proof.
  rewrite existsb_exists, list_elem_of_fmap. split.
  - intros (x & Hin & Heq). apply String.eqb_eq in Heq.
    exists x. split; [now symmetry | apply list_elem_of_In; exact Hin].
  - intros (x & Heq & Hin). exists x. split; [apply list_elem_of_In; exact Hin |].
    apply String.eqb_eq. now symmetry.
Qed.

(** X16.  [addUniqueStatusUpdate] keeps the messages of the status list
    pairwise different: it leaves the list as it is when an entry with the
    same message is present (whatever the type or link of the new entry),
    and otherwise appends the entry; adding the same entry again changes
    nothing. *)
Theorem X16_status_messages_stay_distinct (u : Form.status_update)
    (prev : list Form.status_update) :
  NoDup (map Form.su_message prev) ->
  let next := Form.addUniqueStatusUpdate u prev in
  NoDup (map Form.su_message next) /\
  Form.su_message u ∈ map Form.su_message next /\
  (Form.su_message u ∈ map Form.su_message prev -> next = prev) /\
  (Form.su_message u ∉ map Form.su_message prev -> next = prev ++ [u]) /\
  Form.addUniqueStatusUpdate u next = next.
Proof.
  intros Hdistinct next. subst next.
  destruct (existsb (fun update => String.eqb (Form.su_message update) (Form.su_message u))
              prev) eqn:Hseen.
  - assert (Hsame : Form.addUniqueStatusUpdate u prev = prev).
    { unfold Form.addUniqueStatusUpdate. now rewrite Hseen. }
    pose proof (proj1 (existsb_same_message u prev) Hseen) as Hin.
    rewrite !Hsame. repeat split; try assumption; try reflexivity.
    intros Hout. now destruct Hout.
  - assert (Hnew : Form.addUniqueStatusUpdate u prev = prev ++ [u]).
    { unfold Form.addUniqueStatusUpdate. now rewrite Hseen. }
    assert (Hout : Form.su_message u ∉ map Form.su_message prev).
    { intros Hin. apply existsb_same_message in Hin. congruence. }
    assert (Hlast : Form.su_message u ∈ map Form.su_message (prev ++ [u])).
    { rewrite map_app. apply elem_of_app. right. cbn. apply list_elem_of_singleton.
      reflexivity. }
    rewrite !Hnew. repeat split; try assumption; try reflexivity.
    + rewrite map_app. apply NoDup_app. repeat split; [assumption | | apply NoDup_singleton].
      intros x Hx Hu. cbn in Hu. apply list_elem_of_singleton in Hu. now subst.
    + intros Hin. now destruct Hout.
    + unfold Form.addUniqueStatusUpdate.
      now rewrite (proj2 (existsb_same_message u (prev ++ [u])) Hlast).
Qed.

Lemma X16_witness :
  let first := Form.mkUpdate "Starting" (Some "started") None in
  let again := Form.mkUpdate "Starting" (Some "info") (Some "https://example.com") in
  NoDup (map Form.su_message [first]) /\
  Form.addUniqueStatusUpdate again [first] = [first].
Proof.
  intros first again.
  assert (Hdistinct : NoDup (map Form.su_message [first])).
  { cbn. apply NoDup_singleton. }
  split; [exact Hdistinct |].
  destruct (X16_status_messages_stay_distinct again [first] Hdistinct)
    as (_ & _ & Hsame & _).
  apply Hsame. cbn. apply list_elem_of_singleton. reflexivity.
Defined.

(** X17.  The countdown of the remaining time never goes below zero: after
    [k] ticks an estimate of [n >= 0] seconds shows [max 0 (n - k)], so it
    reaches zero after [n] ticks and stays there. *)
Theorem X17_countdown_stops_at_zero (n : Z) (k : nat) :
  (0 <= n)%Z ->
  Nat.iter k (fun t => Form.tick (Some t)) n = Z.max 0 (n - Z.of_nat k).
Proof.
  intros Hn. induction k as [| k IH].
  - cbn. lia.
  - rewrite Nat.iter_succ, IH. unfold Form.tick.
    destruct (Z.leb_spec (Z.max 0 (n - Z.of_nat k)) 0); lia.
Qed.

Lemma X17_witness :
  (0 <= 10)%Z /\ Nat.iter 12 (fun t => Form.tick (Some t)) 10%Z = 0%Z.
Proof.
  split; [lia |]. exact (X17_countdown_stops_at_zero 10 12 ltac:(lia)).
Defined.

(** ** The form: status polling *)

Lemma with_retries_same (p : Form.poller) : Form.with_retries (Form.retryCount p) p = p.
Proof. now destruct p. Qed.

Lemma poll_all_cons (clock : string) (reply : exn + jsval) (replies : list (exn + jsval))
    (p : Form.poller) :
  Form.poll_all clock (reply :: replies) p
    = Form.poll_all clock replies (Form.pollStatus clock reply p).
Proof. reflexivity. Qed.

Lemma poll_all_app (clock : string) (before after : list (exn + jsval)) (p : Form.poller) :
  Form.poll_all clock (before ++ after) p
    = Form.poll_all clock after (Form.poll_all clock before p).
Proof. unfold Form.poll_all. apply fold_left_app. Qed.

Lemma poll_all_stopped (clock : string) (replies : list (exn + jsval)) (p : Form.poller) :
  Form.isPolling p = false -> Form.poll_all clock replies p = p.
Proof.
  intros Hstopped. induction replies as [| reply replies IH]; [reflexivity |].
  rewrite poll_all_cons. unfold Form.pollStatus. rewrite Hstopped. exact IH.
Qed.

Lemma pollStatus_not_found (clock : string) (reply : exn + jsval) (p : Form.poller) :
  Form.isPolling p = true -> Form.says_not_found reply = true ->
  Form.pollStatus clock reply p
    = if (10 <=? S (Form.retryCount p))%nat
      then Form.stop (Form.with_retries (S (Form.retryCount p)) p)
      else Form.with_retries (S (Form.retryCount p)) p.
Proof.
  intros Hpolling Hreply. unfold Form.pollStatus. rewrite Hpolling.
  destruct reply as [e | jsonResp]; [discriminate |].
  cbn in Hreply. apply andb_true_iff in Hreply as [Hdata Hmissing].
  unfold Form.handle_status. now rewrite Hdata, Hmissing.
Qed.

Lemma pollStatus_found (clock : string) (reply : exn + jsval) (statusData : jsval)
    (p : Form.poller) :
  Form.isPolling p = true -> Form.found reply = Some statusData ->
  Form.pollStatus clock reply p
    = let found := Form.with_retries 0 p in
      let completed :=
        if is_str "generation_completed" (get statusData "type") then
          Form.mkPoller false false false JNull 0
            (Some (Form.mkResult true
               (js_or (get statusData "message") (JStr "Leads generated successfully!"))
               (js_or (get statusData "total_leads") (JNum 0)) clock))
            (S (Form.notified p))
        else found in
      if is_str "error" (get statusData "type") then Form.stop completed else completed.
Proof.
  intros Hpolling Hreply. unfold Form.pollStatus. rewrite Hpolling.
  destruct reply as [e | jsonResp]; [discriminate |].
  cbn in Hreply.
  destruct (truthy (Form.status_data jsonResp)) eqn:Hdata; [| discriminate].
  destruct (Form.not_found (Form.status_data jsonResp)) eqn:Hmissing; [discriminate |].
  cbn in Hreply. injection Hreply as <-.
  unfold Form.handle_status. now rewrite Hdata, Hmissing.
Qed.

Lemma not_found_run (clock : string) (replies : list (exn + jsval)) :
  forall p : Form.poller,
    Form.isPolling p = true -> Form.retryCount p < 10 ->
    forallb Form.says_not_found replies = true ->
    Form.poll_all clock replies p
      = if (Form.retryCount p + length replies <? 10)%nat
        then Form.with_retries (Form.retryCount p + length replies) p
        else Form.stop (Form.with_retries 10 p).
Proof.
  induction replies as [| reply replies IH]; intros p Hpolling Hcount Hreplies.
  - unfold Form.poll_all. cbn [fold_left length]. rewrite Nat.add_0_r.
    destruct (Nat.ltb_spec (Form.retryCount p) 10); [| lia].
    now rewrite with_retries_same.
  - cbn in Hreplies. apply andb_true_iff in Hreplies as [Hreply Hrest].
    rewrite poll_all_cons, (pollStatus_not_found _ _ _ Hpolling Hreply).
    destruct (Nat.leb_spec 10 (S (Form.retryCount p))) as [Hlast | Hmore].
    + assert (Hnine : S (Form.retryCount p) = 10) by lia.
      rewrite Hnine, poll_all_stopped by reflexivity.
      destruct (Nat.ltb_spec (Form.retryCount p + length (reply :: replies)) 10);
        [cbn [length] in *; lia | reflexivity].
    + rewrite IH; [| exact Hpolling | cbn; lia | exact Hrest].
      cbn [Form.retryCount Form.with_retries length].
      replace (Form.retryCount p + S (length replies))
        with (S (Form.retryCount p) + length replies) by lia.
      now destruct (_ <? 10)%nat.
Qed.

Lemma handle_not_found (clock : string) (reply : exn + jsval) (p : Form.poller) :
  Form.says_not_found reply = true ->
  Form.handle_status clock reply p
    = if (10 <=? S (Form.retryCount p))%nat
      then Form.stop (Form.with_retries (S (Form.retryCount p)) p)
      else Form.with_retries (S (Form.retryCount p)) p.
Proof.
  intros Hreply. destruct reply as [e | jsonResp]; [discriminate |].
  cbn in Hreply. apply andb_true_iff in Hreply as [Hdata Hmissing].
  unfold Form.handle_status. now rewrite Hdata, Hmissing.
Qed.


(** What handling an answer can never do: start polling or loading again,
    or call [onLeadsGenerated] more than once. *)
Lemma handle_status_bounds (clock : string) (reply : exn + jsval) (p : Form.poller) :
  (Form.isPolling p = false -> Form.isPolling (Form.handle_status clock reply p) = false) /\
  (Form.isLoading p = false -> Form.isLoading (Form.handle_status clock reply p) = false) /\
  Form.notified p <= Form.notified (Form.handle_status clock reply p) <= S (Form.notified p).
Proof.
  unfold Form.handle_status.
  destruct reply as [e | jsonResp]; [repeat split; auto |].
  destruct (negb (truthy (Form.status_data jsonResp))); [repeat split; auto |].
  destruct (Form.not_found (Form.status_data jsonResp)).
  - destruct (10 <=? _)%nat; cbn; repeat split; auto.
  - destruct (is_str "generation_completed" _), (is_str "error" _); cbn;
      repeat split; auto.
Qed.

Lemma run_cons (o : Form.occurrence) (trace : list Form.occurrence)
    (s : Form.polling) :
  Form.run (o :: trace) s = Form.run trace (Form.step s o).
Proof. reflexivity. Qed.

(** Once polling is off it stays off: no request is sent any more, loading
    does not come back, and only the answers still in flight are handled. *)
Lemma stopped_stays (trace : list Form.occurrence) :
  forall s : Form.polling,
    Form.isPolling (Form.poller_of s) = false ->
    let s' := Form.run trace s in
    Form.sent s' = Form.sent s /\
    Form.isPolling (Form.poller_of s') = false /\
    (Form.isLoading (Form.poller_of s) = false ->
     Form.isLoading (Form.poller_of s') = false) /\
    Form.in_flight s' <= Form.in_flight s /\
    Form.notified (Form.poller_of s) <= Form.notified (Form.poller_of s') /\
    Form.notified (Form.poller_of s') + Form.in_flight s'
      <= Form.notified (Form.poller_of s) + Form.in_flight s /\
    (Form.in_flight s = 0 -> s' = s).
Proof.
  induction trace as [| o trace IH]; intros s Hoff.
  - cbn. repeat split; auto.
  - cbv zeta. rewrite run_cons. destruct o as [| clock reply].
    + unfold Form.step. rewrite Hoff. apply (IH s Hoff).
    + unfold Form.step. destruct (Form.in_flight s) as [| others] eqn:Hflight.
      * pose proof (IH s Hoff) as H. cbv zeta in H. rewrite Hflight in H. exact H.
      * destruct (handle_status_bounds clock reply (Form.poller_of s))
          as (Hpoll & Hload & Hlow & Hhigh).
        destruct (IH (Form.mkPolling (Form.handle_status clock reply (Form.poller_of s))
                        others (Form.sent s)) (Hpoll Hoff))
          as (Hsent & Hstill & Hquiet & Hless & Hmore & Hsum & _).
        cbn [Form.poller_of Form.in_flight Form.sent] in *.
        repeat split; auto; try lia.
Qed.

Lemma not_found_trace (p : Form.poller) (trace : list Form.occurrence) :
  Form.isPolling p = true ->
  forall s : Form.polling,
    Form.only_not_found trace = true ->
    Form.in_flight s <= Form.sent s ->
    Form.poller_of s
      = (if (Form.handled s <? 10)%nat then Form.with_retries (Form.handled s) p
         else Form.stop (Form.with_retries (Form.handled s) p)) ->
    let s' := Form.run trace s in
    Form.in_flight s' <= Form.sent s' /\
    Form.poller_of s'
      = (if (Form.handled s' <? 10)%nat then Form.with_retries (Form.handled s') p
         else Form.stop (Form.with_retries (Form.handled s') p)).
Proof.
  intros Hpolling. induction trace as [| o trace IH]; intros s Htrace Hle Hstate.
  - split; assumption.
  - cbv zeta. rewrite run_cons. cbn in Htrace.
    apply andb_true_iff in Htrace as [Ho Htrace].
    apply IH; [exact Htrace | |]; destruct o as [| clock reply]; unfold Form.step.
    + destruct (Form.isPolling (Form.poller_of s)); cbn; lia.
    + destruct (Form.in_flight s) eqn:Hflight; cbn; lia.
    + destruct (Form.isPolling (Form.poller_of s)); [| exact Hstate].
      replace (Form.handled (Form.mkPolling (Form.poller_of s) (S (Form.in_flight s))
                               (S (Form.sent s))))
        with (Form.handled s) by (unfold Form.handled; cbn; lia).
      exact Hstate.
    + destruct (Form.in_flight s) as [| others] eqn:Hflight; [exact Hstate |].
      replace (Form.handled (Form.mkPolling
                 (Form.handle_status clock reply (Form.poller_of s)) others (Form.sent s)))
        with (S (Form.handled s)) by (unfold Form.handled; cbn; lia).
      cbn [Form.poller_of].
      rewrite (handle_not_found clock reply _ Ho), Hstate.
      generalize (Form.handled s). intros k.
      destruct (Nat.ltb_spec k 10) as [Hfew | Hmany].
      * cbn [Form.retryCount Form.with_retries].
        destruct (Nat.leb_spec 10 (S k)), (Nat.ltb_spec (S k) 10); try lia; reflexivity.
      * cbn [Form.retryCount Form.with_retries Form.stop].
        destruct (Nat.leb_spec 10 (S k)), (Nat.ltb_spec (S k) 10); try lia; reflexivity.
Qed.

(** X18.  Polling gives up on a session the backend does not know once ten
    answers saying so have been handled, and not before, whether or not the
    calls overlap.  While the answers say "not found", the retry count is
    the number of answers handled; below ten nothing else changes; from the
    tenth on loading and polling are off and the interval and the session id
    are cleared.  Answers of requests that were in flight at that moment are
    still handled (and counted), but no further request is sent, whatever
    the later answers are, and loading and polling stay off. *)
Theorem X18_ten_not_found_answers_end_polling
    (trace more : list Form.occurrence) (p : Form.poller) :
  Form.isPolling p = true -> Form.retryCount p = 0 ->
  Form.only_not_found trace = true ->
  let s := Form.run trace (Form.mkPolling p 0 0) in
  (Form.handled s < 10 ->
   Form.poller_of s = Form.with_retries (Form.handled s) p) /\
  (10 <= Form.handled s ->
   Form.poller_of s
     = Form.mkPoller false false false JNull (Form.handled s)
         (Form.generationResult p) (Form.notified p) /\
   Form.sent (Form.run more s) = Form.sent s /\
   Form.isPolling (Form.poller_of (Form.run more s)) = false /\
   Form.isLoading (Form.poller_of (Form.run more s)) = false).
Proof.
  intros Hpolling Hcount Htrace s.
  destruct (not_found_trace p trace Hpolling (Form.mkPolling p 0 0) Htrace)
    as [_ Hstate].
  - cbn. lia.
  - cbn. rewrite <- Hcount. now destruct p.
  - fold s in Hstate. split; intros Hk.
    + rewrite Hstate. now destruct (Nat.ltb_spec (Form.handled s) 10); [| lia].
    + assert (Hstop : Form.poller_of s
                = Form.mkPoller false false false JNull (Form.handled s)
                    (Form.generationResult p) (Form.notified p)).
      { rewrite Hstate. now destruct (Nat.ltb_spec (Form.handled s) 10); [lia |]. }
      split; [exact Hstop |].
      destruct (stopped_stays more s) as (Hsent & Hoff & Hquiet & _).
      * now rewrite Hstop.
      * split; [exact Hsent | split; [exact Hoff |]]. apply Hquiet. now rewrite Hstop.
Qed.

Lemma X18_witness :
  let fresh := Form.startStatusPolling (Form.mkPoller true false false (JStr "s1") 0 None 0) in
  let overlap := repeat Form.Tick 12 ++ repeat (Form.Answer "t" Form.session_not_found) 12 in
  Form.isLoading (Form.poller_of
    (Form.run (repeat Form.Tick 9 ++ repeat (Form.Answer "t" Form.session_not_found) 9)
       (Form.mkPolling fresh 0 0))) = true /\
  Form.poller_of (Form.run overlap (Form.mkPolling fresh 0 0))
    = Form.mkPoller false false false JNull 12 None 0 /\
  Form.sent (Form.run [Form.Tick; Form.Tick]
               (Form.run overlap (Form.mkPolling fresh 0 0))) = 12.
Proof.
  intros fresh overlap. split; [| split].
  - destruct (X18_ten_not_found_answers_end_polling
                (repeat Form.Tick 9 ++ repeat (Form.Answer "t" Form.session_not_found) 9) []
                fresh eq_refl eq_refl ltac:(vm_compute; reflexivity)) as [Hfew _].
    rewrite Hfew; [reflexivity | vm_compute; lia].
  - destruct (X18_ten_not_found_answers_end_polling overlap [] fresh
                eq_refl eq_refl ltac:(vm_compute; reflexivity)) as [_ Hmany].
    destruct Hmany as [Hstop _]; [vm_compute; lia |].
    rewrite Hstop. vm_compute. reflexivity.
  - destruct (X18_ten_not_found_answers_end_polling overlap [Form.Tick; Form.Tick] fresh
                eq_refl eq_refl ltac:(vm_compute; reflexivity)) as [_ Hmany].
    destruct Hmany as (_ & Hsent & _); [vm_compute; lia |].
    rewrite Hsent. vm_compute. reflexivity.
Defined.

(** X19.  Only answers in a row count: a status of the session that is not
    terminal resets the retry count, so up to nine "not found" answers before
    it and up to nine after it leave the form polling. *)
Theorem X19_found_status_restarts_the_count (clock : string)
    (before after : list (exn + jsval)) (reply : exn + jsval) (statusData : jsval)
    (p : Form.poller) :
  Form.isPolling p = true -> Form.retryCount p = 0 ->
  forallb Form.says_not_found before = true -> length before < 10 ->
  Form.found reply = Some statusData -> Form.terminal statusData = false ->
  forallb Form.says_not_found after = true -> length after < 10 ->
  Form.poll_all clock (before ++ reply :: after) p = Form.with_retries (length after) p.
Proof.
  intros Hpolling Hcount Hbefore Hfew Hreply Hgoes Hafter Hfew'.
  rewrite poll_all_app, poll_all_cons.
  rewrite (not_found_run clock before p Hpolling ltac:(lia) Hbefore), Hcount.
  cbn [Nat.add]. destruct (Nat.ltb_spec (length before) 10); [| lia].
  rewrite (pollStatus_found clock reply statusData); [| exact Hpolling | exact Hreply].
  unfold Form.terminal in Hgoes. apply orb_false_elim in Hgoes as [-> ->]. cbn zeta.
  rewrite not_found_run; [| exact Hpolling | cbn; lia | exact Hafter].
  cbn [Form.retryCount Form.with_retries Nat.add].
  destruct (Nat.ltb_spec (length after) 10); [| lia].
  now destruct p.
Qed.

Lemma X19_witness :
  Form.isPolling
    (Form.poll_all "t"
       (repeat Form.session_not_found 9 ++ Form.status_of "started"
          :: repeat Form.session_not_found 9)
       (Form.startStatusPolling Form.idle)) = true.
Proof.
  rewrite (X19_found_status_restarts_the_count "t" (repeat Form.session_not_found 9)
             (repeat Form.session_not_found 9) (Form.status_of "started")
             (JObj (list_to_map [("type", JStr "started"); ("message", JStr "step")]))).
  - reflexivity.
  - reflexivity.
  - reflexivity.
  - vm_compute; reflexivity.
  - cbn; lia.
  - vm_compute; reflexivity.
  - vm_compute; reflexivity.
  - vm_compute; reflexivity.
  - cbn; lia.
Defined.

(** X20.  Failed status requests are not counted: a rejected request and an
    answer without status data leave the whole state as it was, retry count
    included, so no number of them ends polling or loading. *)
Theorem X20_failed_status_requests_are_not_counted (clock : string)
    (replies : list (exn + jsval)) (p : Form.poller) :
  forallb Form.says_nothing replies = true ->
  Form.poll_all clock replies p = p.
Proof.
  induction replies as [| reply replies IH]; intros Hreplies; [reflexivity |].
  cbn in Hreplies. apply andb_true_iff in Hreplies as [Hreply Hrest].
  rewrite poll_all_cons.
  replace (Form.pollStatus clock reply p) with p; [now apply IH |].
  unfold Form.pollStatus, Form.handle_status.
  destruct (Form.isPolling p); [| reflexivity].
  destruct reply as [e | jsonResp]; [reflexivity |].
  cbn in Hreply. now rewrite Hreply.
Qed.

Lemma X20_witness :
  Form.poll_all "t" (repeat (inl (JsError "Network Error")) 50 ++ [inr JNull; inr (JArr [])])
    (Form.startStatusPolling Form.idle) = Form.startStatusPolling Form.idle.
Proof.
  apply X20_failed_status_requests_are_not_counted. vm_compute; reflexivity.
Defined.






(** Calls that do not overlap, each answered before the next starts, are the
    steps of [poll_all]. *)
Lemma poll_all_one_at_a_time (clock : string) (replies : list (exn + jsval)) :
  forall (p : Form.poller) (n : nat),
    exists m,
      Form.run (concat (map (fun reply => [Form.Tick; Form.Answer clock reply]) replies))
        (Form.mkPolling p 0 n)
      = Form.mkPolling (Form.poll_all clock replies p) 0 m.
Proof.
  induction replies as [| reply replies IH]; intros p n; [now exists n |].
  cbn [map concat app]. rewrite !run_cons, poll_all_cons.
  unfold Form.step at 2. cbn [Form.poller_of Form.in_flight Form.sent].
  unfold Form.pollStatus. destruct (Form.isPolling p); cbn; apply IH.
Qed.

(** ** The form: submitting *)



Lemma request_body_fields (data : Form.form_data) (leadsPerQuery : Z) :
  get (Form.request_body data leadsPerQuery) "method" = JStr (Form.fd_method data) /\
  get (Form.request_body data leadsPerQuery) "jobTitles" = JArr [JStr (Form.fd_jobTitle data)] /\
  get (Form.request_body data leadsPerQuery) "locations" = JArr [JStr (Form.fd_location data)].
Proof. repeat split; reflexivity. Qed.

(** X24.  What the form sends passes the validation of the route: for a
    form with a job title, a location and an industry, [onSubmit] sends
    exactly [request_body], and [POST] answers that body with 200 or 500,
    never with 400, for either method. *)
Theorem X24_form_requests_pass_validation (w : world) (clock : string)
    (data : Form.form_data) (leadsPerQuery : Z) (reply : Form.submit_reply)
    (p : Form.poller) (st : state) :
  Form.fd_jobTitle data <> "" -> Form.fd_location data <> "" ->
  Form.fd_industry data <> "" ->
  Form.fd_method data = "apollo" \/ Form.fd_method data = "google_apify" ->
  snd (Form.onSubmit clock data leadsPerQuery reply p)
    = Some (Form.request_body data leadsPerQuery) /\
  exists res st',
    POST w (inr (Form.request_body data leadsPerQuery)) st = (inr res, st') /\
    (http_status res = 200%Z \/ http_status res = 500%Z).
Proof.
  intros Htitle Hplace Hindustry Hmethod. split.
  - unfold Form.onSubmit. cbn [truthy].
    apply String.eqb_neq in Htitle, Hplace, Hindustry.
    rewrite Htitle, Hplace, Hindustry. cbn [negb orb].
    destruct reply as [responseMessage message | result]; [reflexivity |].
    destruct (nullish result); [reflexivity |].
    now destruct (is_str "success" (get result "status")).
  - destruct (request_body_fields data leadsPerQuery) as (Hm & Ht & Hl).
    assert (Hvalid : valid_request (Form.request_body data leadsPerQuery)).
    { unfold valid_request. rewrite Hm, Ht, Hl. repeat split.
      cbn. destruct Hmethod as [-> | ->]; reflexivity. }
    assert (Hknown : known_method (Form.request_body data leadsPerQuery) = true).
    { unfold known_method. rewrite Hm. destruct Hmethod as [-> | ->]; reflexivity. }
    destruct (credentials w (Form.request_body data leadsPerQuery)) eqn:Hcred.
    + rewrite (POST_with_credentials _ _ _ Hvalid Hknown Hcred).
      destruct (sourcing w (Form.request_body data leadsPerQuery) st) as [[e | leads] st1].
      * eexists _, _. split; [reflexivity |]. now right.
      * rewrite complete_runs. eexists _, _. split; [reflexivity |]. now left.
    + rewrite (POST_without_credentials _ _ _ Hvalid Hknown Hcred).
      eexists _, _. split; [reflexivity |]. now right.
Qed.

Lemma X24_witness :
  exists res st',
    POST Sample.healthy (inr (Form.request_body Form.engineers 10)) init = (inr res, st') /\
    (http_status res = 200%Z \/ http_status res = 500%Z).
Proof.
  apply (X24_form_requests_pass_validation Sample.healthy "t" Form.engineers 10
           (Form.SubmitAnswers JNull) Form.idle init);
    try discriminate.
  now left.
Defined.

(** ** The email route *)

Lemma record_sent_outcome (w : Mail.world)
    (to subject emailBody leadId leadData emailResult : jsval) :
  (fst (Mail.record_sent w to subject emailBody leadId leadData emailResult)
     = Mail.sent_response w emailResult \/
   fst (Mail.record_sent w to subject emailBody leadId leadData emailResult)
     = Mail.send_failed) /\
  List.filter Mail.is_send
    (snd (Mail.record_sent w to subject emailBody leadId leadData emailResult)) = [].
Proof.
  unfold Mail.record_sent, Mail.complaint.
  repeat match goal with
         | |- context [match ?x with _ => _ end] => destruct x
         end; cbn; auto.
Qed.

Lemma deliver_text (w : Mail.world) (to subject leadId leadData : jsval) (text : string) :
  List.filter Mail.is_send (snd (Mail.deliver w to subject (JStr text) leadId leadData))
    = [Mail.ESend (Mail.message_of w to subject text)] /\
  (fst (Mail.deliver w to subject (JStr text) leadId leadData) = Mail.send_failed \/
   exists emailResult,
     fst (Mail.deliver w to subject (JStr text) leadId leadData)
       = Mail.sent_response w emailResult).
Proof.
  unfold Mail.deliver.
  destruct (Mail.send w (Mail.message_of w to subject text)) as [e | emailResult];
    [now split; [| left] |].
  destruct (nullish emailResult); [now split; [| left] |].
  destruct (truthy (get emailResult "error")); [now split; [| left] |].
  destruct (record_sent_outcome w to subject (JStr text) leadId leadData emailResult)
    as [Hres Hlog].
  destruct (Mail.record_sent w to subject (JStr text) leadId leadData emailResult)
    as [res log].
  cbn [fst snd] in *. split.
  - cbn. now rewrite Hlog.
  - destruct Hres as [-> | ->]; [right; now exists emailResult | now left].
Qed.

Lemma POST_accepted (w : Mail.world) (body : jsval) (text : string) :
  Mail.accepted w body text ->
  Mail.POST w (inr body)
    = Mail.deliver w (get body "to") (get body "subject") (JStr text)
        (get body "leadId") (get body "leadData").
Proof.
  intros (Hbody & Hto & Hsubject & Htext & Hfilled & Hkey & Hformat).
  unfold Mail.POST. rewrite Hbody, Hto, Hsubject, Htext, Hkey, Hformat.
  cbn [truthy]. apply String.eqb_neq in Hfilled. now rewrite Hfilled.
Qed.

(** X25.  A request sends at most one message, and only after all checks.
    An answer with status 400 comes without any effect: nothing is sent,
    written or logged.  Whenever a message goes to the mail provider, the
    request named a recipient, a subject and a text, the key of the provider
    is configured, the recipient passed the address test, and the message is
    the one built from these fields. *)
Theorem X25_refused_mail_is_not_sent (w : Mail.world) (request : exn + jsval) :
  length (List.filter Mail.is_send (snd (Mail.POST w request))) <= 1 /\
  (http_status (fst (Mail.POST w request)) = 400%Z -> snd (Mail.POST w request) = []) /\
  (forall payload, In (Mail.ESend payload) (snd (Mail.POST w request)) ->
   exists body text,
     request = inr body /\ Mail.accepted w body text /\
     payload = Mail.message_of w (get body "to") (get body "subject") text).
Proof.
  assert (Hquiet : forall res : response, forall log : list Mail.event,
            List.filter Mail.is_send log = [] ->
            (http_status res = 400%Z -> log = []) ->
            length (List.filter Mail.is_send log) <= 1 /\
            (http_status res = 400%Z -> log = []) /\
            (forall payload, In (Mail.ESend payload) log ->
             exists body text,
               request = inr body /\ Mail.accepted w body text /\
               payload = Mail.message_of w (get body "to") (get body "subject") text)).
  { intros res log Hnone Hstatus. rewrite Hnone. repeat split; [cbn; lia | exact Hstatus |].
    intros payload Hin.
    assert (Hsent : In (Mail.ESend payload) (List.filter Mail.is_send log)).
    { apply filter_In. now split. }
    rewrite Hnone in Hsent. destruct Hsent. }
  destruct request as [e | body].
  { apply (Hquiet (fst (Mail.POST w (inl e)))); [reflexivity | discriminate]. }
  destruct (nullish body) eqn:Hbody.
  { apply (Hquiet (fst (Mail.POST w (inr body)))); unfold Mail.POST; rewrite Hbody;
      [reflexivity | discriminate]. }
  destruct (negb (truthy (get body "to")) || negb (truthy (get body "subject"))
            || negb (truthy (get body "body"))) eqn:Hrequired.
  { apply (Hquiet (fst (Mail.POST w (inr body)))); unfold Mail.POST;
      rewrite Hbody, Hrequired; reflexivity. }
  destruct (configured (Mail.RESEND_API_KEY w)) eqn:Hkey.
  2: { apply (Hquiet (fst (Mail.POST w (inr body)))); unfold Mail.POST;
         rewrite Hbody, Hrequired, Hkey; [reflexivity | discriminate]. }
  destruct (Mail.emailRegex_test w (to_string (get body "to"))) eqn:Hformat.
  2: { apply (Hquiet (fst (Mail.POST w (inr body)))); unfold Mail.POST;
         rewrite Hbody, Hrequired, Hkey, Hformat; reflexivity. }
  apply orb_false_elim in Hrequired as [Hrequired Htext].
  apply orb_false_elim in Hrequired as [Hto Hsubject].
  apply negb_false_iff in Hto, Hsubject, Htext.
  destruct (get body "body") as [| | b | n | text | items | fields] eqn:Hmail;
    try discriminate;
    try (apply (Hquiet (fst (Mail.POST w (inr body)))); unfold Mail.POST;
         rewrite Hbody, Hto, Hsubject, Hmail, Htext, Hkey, Hformat;
         [reflexivity | discriminate]).
  assert (Haccepted : Mail.accepted w body text).
  { unfold Mail.accepted. repeat split; try assumption.
    intros ->. discriminate. }
  rewrite (POST_accepted w body text Haccepted).
  destruct (deliver_text w (get body "to") (get body "subject") (get body "leadId")
              (get body "leadData") text) as [Hsent Hres].
  repeat split.
  - rewrite Hsent. cbn. lia.
  - destruct Hres as [-> | [emailResult ->]]; discriminate.
  - intros payload Hin.
    assert (Hfiltered : In (Mail.ESend payload)
              (List.filter Mail.is_send
                 (snd (Mail.deliver w (get body "to") (get body "subject") (JStr text)
                         (get body "leadId") (get body "leadData"))))).
    { apply filter_In. now split. }
    rewrite Hsent in Hfiltered. destruct Hfiltered as [[= <-] | []].
    now exists body, text.
Qed.

(** X26.  Errors the database returns do not fail the request.  When the
    provider accepts the message and every write gets an answer, be it an
    error, the route answers 200 with the provider's id of the message and
    the id of the logged event; the message is sent once, and the writes are
    the event, the update of the lead when a lead id was given, and the
    draft, in this order. *)
Theorem X26_returned_database_errors_are_tolerated (w : Mail.world) (body : jsval)
    (text : string) (emailResult : jsval) :
  Mail.accepted w body text ->
  Mail.send w (Mail.message_of w (get body "to") (get body "subject") text)
    = inr emailResult ->
  nullish emailResult = false -> truthy (get emailResult "error") = false ->
  Mail.database_answers w ->
  let eventRow :=
    Mail.emailEventData w (get body "to") (get body "subject") (get body "leadId")
      (get body "leadData") emailResult in
  let draftRow :=
    Mail.draftData w (if truthy (get body "leadId") then 3 else 1) (get body "to")
      (get body "subject") (JStr text) (get body "leadId") (get body "leadData")
      emailResult in
  fst (Mail.POST w (inr body)) = Mail.sent_response w emailResult /\
  get (json_body (fst (Mail.POST w (inr body)))) "eventId" = get eventRow "id" /\
  List.filter Mail.is_send (snd (Mail.POST w (inr body)))
    = [Mail.ESend (Mail.message_of w (get body "to") (get body "subject") text)] /\
  List.filter Mail.is_write (snd (Mail.POST w (inr body)))
    = Mail.EInsert "email_events" eventRow
      :: (if truthy (get body "leadId")
          then [Mail.EUpdate "leads" (Mail.lead_values w) (get body "leadId")] else [])
      ++ [Mail.EInsert "email_drafts" draftRow].
Proof.
  intros Haccepted Hsend Hresult Hclean [Hinsert Hupdate] eventRow draftRow.
  rewrite (POST_accepted w body text Haccepted).
  destruct (deliver_text w (get body "to") (get body "subject") (get body "leadId")
              (get body "leadData") text) as [Hsent _].
  rewrite Hsent. clear Hsent.
  unfold Mail.deliver. rewrite Hsend, Hresult, Hclean.
  unfold Mail.record_sent. fold eventRow.
  destruct (Hinsert "email_events" eventRow) as [eventError ->].
  unfold Mail.complaint. subst draftRow.
  destruct (truthy (get body "leadId")).
  - destruct (Hupdate "leads" (Mail.lead_values w) (get body "leadId")) as [updateError ->].
    match goal with
    | |- context [Mail.insert w "email_drafts" ?row] =>
        destruct (Hinsert "email_drafts" row) as [draftError ->]
    end.
    destruct (truthy eventError), (truthy updateError), (truthy draftError);
      repeat split; reflexivity.
  - match goal with
    | |- context [Mail.insert w "email_drafts" ?row] =>
        destruct (Hinsert "email_drafts" row) as [draftError ->]
    end.
    destruct (truthy eventError), (truthy draftError); repeat split; reflexivity.
Qed.

Lemma X26_witness :
  http_status (fst (Mail.POST (Mail.office (inr (JStr "permission denied")))
                      (inr Mail.letter))) = 200%Z.
Proof.
  destruct (X26_returned_database_errors_are_tolerated
              (Mail.office (inr (JStr "permission denied"))) Mail.letter "Dear Ada"
              (JObj (list_to_map [("data", JObj (list_to_map [("id", JStr "m-1")]));
                                  ("error", JNull)])))
    as [Hres _].
  - unfold Mail.accepted. repeat split; try (vm_compute; reflexivity). discriminate.
  - reflexivity.
  - reflexivity.
  - vm_compute; reflexivity.
  - split; intros; now exists (JStr "permission denied").
  - rewrite Hres. reflexivity.
Defined.

(** X27.  A write that throws turns a sent message into a reported failure:
    when the provider has accepted the message and the logging of the event,
    the update of the lead or the saving of the draft throws, the route
    answers 500 "Failed to send email" although the message was sent. *)
Theorem X27_thrown_database_error_reports_failure (w : Mail.world) (body : jsval)
    (text : string) (emailResult : jsval) :
  Mail.accepted w body text ->
  Mail.send w (Mail.message_of w (get body "to") (get body "subject") text)
    = inr emailResult ->
  nullish emailResult = false -> truthy (get emailResult "error") = false ->
  (forall table row, exists e, Mail.insert w table row = inl e) \/
  (truthy (get body "leadId") = true /\
   forall values id, exists e, Mail.update w "leads" values id = inl e) \/
  (forall row, exists e, Mail.insert w "email_drafts" row = inl e) ->
  fst (Mail.POST w (inr body)) = Mail.send_failed /\
  List.filter Mail.is_send (snd (Mail.POST w (inr body)))
    = [Mail.ESend (Mail.message_of w (get body "to") (get body "subject") text)].
Proof.
  intros Haccepted Hsend Hresult Hclean Hthrows.
  rewrite (POST_accepted w body text Haccepted).
  destruct (deliver_text w (get body "to") (get body "subject") (get body "leadId")
              (get body "leadData") text) as [Hsent _].
  split; [| exact Hsent]. clear Hsent.
  unfold Mail.deliver. rewrite Hsend, Hresult, Hclean.
  unfold Mail.record_sent.
  destruct (Mail.insert w "email_events" _) as [e | eventError] eqn:Hevent; [reflexivity |].
  destruct Hthrows as [Hany | [[Hlead Hupdate] | Hdraft]].
  - destruct (Hany "email_events"
                (Mail.emailEventData w (get body "to") (get body "subject")
                   (get body "leadId") (get body "leadData") emailResult)) as [e He].
    congruence.
  - rewrite Hlead.
    now destruct (Hupdate (Mail.lead_values w) (get body "leadId")) as [e ->].
  - destruct (truthy (get body "leadId")).
    + destruct (Mail.update w "leads" _ _) as [e | updateError]; [reflexivity |].
      match goal with
      | |- context [Mail.insert w "email_drafts" ?row] =>
          destruct (Hdraft row) as [e ->]
      end. reflexivity.
    + match goal with
      | |- context [Mail.insert w "email_drafts" ?row] =>
          destruct (Hdraft row) as [e ->]
      end. reflexivity.
Qed.

Lemma X27_witness :
  fst (Mail.POST (Mail.office (inl (JsError "fetch failed"))) (inr Mail.letter))
    = Mail.send_failed /\
  length (List.filter Mail.is_send
            (snd (Mail.POST (Mail.office (inl (JsError "fetch failed")))
                    (inr Mail.letter)))) = 1.
Proof.
  destruct (X27_thrown_database_error_reports_failure
              (Mail.office (inl (JsError "fetch failed"))) Mail.letter "Dear Ada"
              (JObj (list_to_map [("data", JObj (list_to_map [("id", JStr "m-1")]));
                                  ("error", JNull)])))
    as [Hres Hsent].
  - unfold Mail.accepted. repeat split; try (vm_compute; reflexivity). discriminate.
  - reflexivity.
  - reflexivity.
  - vm_compute; reflexivity.
  - left. intros. now exists (JsError "fetch failed").
  - rewrite Hres, Hsent. split; reflexivity.
Defined.

(** X28.  A failed send leaves no record.  When the call of the provider
    throws, or returns nothing or a result with an [error], the route answers
    500 "Failed to send email" and writes nothing to the database: no event,
    no update of the lead, no draft. *)
Theorem X28_failed_send_writes_nothing (w : Mail.world) (body : jsval) (text : string) :
  Mail.accepted w body text ->
  match Mail.send w (Mail.message_of w (get body "to") (get body "subject") text) with
  | inl _ => True
  | inr emailResult => nullish emailResult = true \/ truthy (get emailResult "error") = true
  end ->
  fst (Mail.POST w (inr body)) = Mail.send_failed /\
  List.filter Mail.is_write (snd (Mail.POST w (inr body))) = [].
Proof.
  intros Haccepted Hfails.
  rewrite (POST_accepted w body text Haccepted). unfold Mail.deliver.
  destruct (Mail.send w _) as [e | emailResult]; [now split |].
  destruct (nullish emailResult); [now split |].
  destruct Hfails as [Hnone | Herror]; [discriminate |].
  rewrite Herror. now split.
Qed.

Lemma X28_witness :
  let refused :=
    inr (JObj (list_to_map [("data", JNull);
           ("error", JObj (list_to_map [("message", JStr "domain not verified")]))])) in
  fst (Mail.POST (Mail.office_with_provider refused) (inr Mail.letter)) = Mail.send_failed /\
  List.filter Mail.is_write
    (snd (Mail.POST (Mail.office_with_provider refused) (inr Mail.letter))) = [].
Proof.
  intros refused.
  apply (X28_failed_send_writes_nothing (Mail.office_with_provider refused) Mail.letter
           "Dear Ada").
  - unfold Mail.accepted. repeat split; try (vm_compute; reflexivity). discriminate.
  - right. vm_compute; reflexivity.
Defined.
